(** * A shallow embedding of [download_all_comments.py]

    The script downloads the comments of a list of community posts from a
    cursor-paginated HTTP API, writes them to numbered batch files and keeps
    a checkpoint file so that an interrupted run can be resumed.

    The embedding follows the source function by function.  Everything the
    script does to the outside world is threaded through an explicit
    [world]: the replies the server is going to give, the files it reads
    and writes, and a chronological trace of the calls it makes.  Python
    [float]s are modelled by exact rationals ([Q]): rounding is left out,
    and so are the values [inf] and [nan].  [print]s are omitted. *)

From Stdlib Require Import ZArith QArith Lia Lqa String Ascii List.
From Stdlib Require Import DecimalString DecimalZ DecimalPos OrderedTypeEx.
From stdpp Require Import gmap strings list fin_maps sorting.

Local Open Scope Z_scope.

(** ** Python built-ins used by the script *)

(** [str(n)] for an integer. *)
Definition str (n : Z) : string := NilZero.string_of_int (Z.to_int n).

(** [int(s)] for a string; [None] stands for [ValueError]. *)
Definition int (s : string) : option Z :=
  option_map Z.of_int (NilZero.int_of_string s).

(** [len(l)]. *)
Definition len {A} (l : list A) : Z := Z.of_nat (length l).

(** [range(start, stop, step)]; a zero step raises in Python and is ruled
    out by the callers below before the range is built. *)
Definition py_range (start stop step : Z) : list Z :=
  if 0 <? step then
    map (fun i => start + Z.of_nat i * step)
        (seq 0 (Z.to_nat ((stop - start + step - 1) / step)))
  else if step <? 0 then
    map (fun i => start + Z.of_nat i * step)
        (seq 0 (Z.to_nat ((start - stop - step - 1) / (- step))))
  else [].

(** [l[i:j]] for [0 <= i <= j], the only way the script slices. *)
Definition py_slice {A} (l : list A) (i j : Z) : list A :=
  take (Z.to_nat (j - i)) (drop (Z.to_nat i) l).

(** [f"{n:05d}"]: sign, then the decimal digits padded with zeros on the
    left up to a total width of at least five characters. *)
Definition zfill (width : nat) (s : string) : string :=
  string_of_list_ascii (repeat "0"%char (width - String.length s)) +:+ s.

Definition format_05d (n : Z) : string :=
  if n <? 0 then "-" +:+ zfill 4 (str (- n)) else zfill 5 (str n).

(** Truthiness of an optional string ([None] and the empty string are
    false), as tested by [while url:] and [if url:]. *)
Definition truthy (url : option string) : bool :=
  match url with
  | Some (String _ _) => true
  | _ => false
  end.

(** ** Data *)

(** A comment is an opaque JSON payload. *)
Definition comment : Type := string.

(** One element of [input_data["posts"]]; identifiers are JSON integers. *)
Record post_info := PostInfo {
  post_id : Z;
  comment_count : Z;
}.

(** One element of a batch file (the dict appended to [batch_results]). *)
Record entry := Entry {
  entry_post_id : Z;
  expected_comment_count : Z;
  actual_comment_count : Z;
  status : string;
  comments : list comment;
}.

(** The checkpoint document. *)
Record checkpoint := Checkpoint {
  completed_post_ids : list string;
  total_comments_downloaded : Z;
  last_updated : option string;
}.

(** The body of a 200 reply: [data.get("comments", [])] and
    [data.get("next_page")]. *)
Record page := Page {
  page_comments : list comment;
  next_page : option string;
}.

(** What [requests.get] does on one call: it returns a response with a
    status code (and, for a 200, a body that [resp.json()] either decodes
    to a [page] or fails on), or it raises. *)
Inductive reply :=
| Http (status_code : Z) (body : option page)
| RaiseTimeout
| RaiseConnectionError
| RaiseOther.

(** Command line arguments ([parse_args]).  The three durations and the
    backoff base are finite [float]s, which is what [argparse] makes of
    what the command line gives; the default base is the integer 10, for
    which the script computes the same waits wherever they can be
    slept. *)
Record args := Args {
  batch_size : Z;
  delay : Q;
  batch_delay : Q;
  max_retries : Z;
  backoff_base : Q;
  reset : bool;
}.

Definition DEFAULT_BATCH_SIZE : Z := 25.
Definition DEFAULT_DELAY : Q := 4 # 10.
Definition DEFAULT_BATCH_DELAY : Q := 5.
Definition DEFAULT_MAX_RETRIES : Z := 5.
Definition DEFAULT_BACKOFF_BASE : Q := 10.

Definition default_args : args :=
  Args DEFAULT_BATCH_SIZE DEFAULT_DELAY DEFAULT_BATCH_DELAY
       DEFAULT_MAX_RETRIES DEFAULT_BACKOFF_BASE false.

Definition BASE_URL : string := "https://feedback.minecraft.net".
Definition PER_PAGE : Z := 100.
Definition TIMEOUT : Z := 60.   (* seconds; a request that takes longer raises *)

(** ** The world *)

(** Observable actions, in the order they happen. *)
Inductive event :=
| EvCall (post_id : string)          (* download_comments_for_post entered *)
| EvGet (url : string)               (* requests.get(url, ...) *)
| EvSleep (seconds : Q)              (* time.sleep(seconds) *)
| EvLogError (line : string)         (* a line appended to errors.log *)
| EvWriteTmp (c : checkpoint)        (* json.dump(ckpt) into checkpoint.tmp *)
| EvRename                           (* tmp.rename(CHECKPOINT_FILE) *)
| EvUnlink                           (* CHECKPOINT_FILE.unlink() *)
| EvSaveBatch (file : string) (b : list entry).

Record world := World {
  script : list reply;                    (* replies still to come *)
  draws : nat;                            (* random numbers drawn so far *)
  ticks : nat;                            (* clock readings so far *)
  checkpoint_file : option checkpoint;    (* checkpoint.json *)
  tmp_file : option checkpoint;           (* checkpoint.tmp *)
  errors_log : list string;               (* errors.log, line by line *)
  batch_files : gmap string (list entry); (* comments_data/batches/ *)
  trace : list event;
}.

Definition set_script (rs : list reply) (w : world) : world :=
  World rs (draws w) (ticks w) (checkpoint_file w) (tmp_file w)
        (errors_log w) (batch_files w) (trace w).
Definition set_draws (n : nat) (w : world) : world :=
  World (script w) n (ticks w) (checkpoint_file w) (tmp_file w)
        (errors_log w) (batch_files w) (trace w).
Definition set_ticks (n : nat) (w : world) : world :=
  World (script w) (draws w) n (checkpoint_file w) (tmp_file w)
        (errors_log w) (batch_files w) (trace w).
Definition set_checkpoint_file (c : option checkpoint) (w : world) : world :=
  World (script w) (draws w) (ticks w) c (tmp_file w)
        (errors_log w) (batch_files w) (trace w).
Definition set_tmp_file (c : option checkpoint) (w : world) : world :=
  World (script w) (draws w) (ticks w) (checkpoint_file w) c
        (errors_log w) (batch_files w) (trace w).
Definition set_errors_log (l : list string) (w : world) : world :=
  World (script w) (draws w) (ticks w) (checkpoint_file w) (tmp_file w)
        l (batch_files w) (trace w).
Definition set_batch_files (m : gmap string (list entry)) (w : world) : world :=
  World (script w) (draws w) (ticks w) (checkpoint_file w) (tmp_file w)
        (errors_log w) m (trace w).
Definition emit (e : event) (w : world) : world :=
  World (script w) (draws w) (ticks w) (checkpoint_file w) (tmp_file w)
        (errors_log w) (batch_files w) (trace w ++ [e]).

(** ** A state and error monad over the world *)

Inductive exn :=
| ValueError
| OverflowError
| OSError
| ZeroDivisionError
| FileNotFoundError
| SystemExit (code : Z).

(** The exceptions [except Exception] catches: all but [SystemExit]. *)
Definition is_exception (e : exn) : bool :=
  match e with
  | SystemExit _ => false
  | _ => true
  end.

(** A computation returns a value, raises, or is still waiting for a reply
    the script does not contain ([NoReply]). *)
Inductive result (A : Type) :=
| Ok (a : A) (w : world)
| Raised (e : exn) (w : world)
| NoReply (w : world).
Arguments Ok {A} a w.
Arguments Raised {A} e w.
Arguments NoReply {A} w.

Definition M (A : Type) : Type := world -> result A.

Definition ret {A} (a : A) : M A := fun w => Ok a w.

Definition bind {A B} (m : M A) (k : A -> M B) : M B :=
  fun w =>
    match m w with
    | Ok a w' => k a w'
    | Raised e w' => Raised e w'
    | NoReply w' => NoReply w'
    end.

Definition raise {A} (e : exn) : M A := fun w => Raised e w.

(** [try: body] followed by [except Exception: handler]. *)
Definition try_except {A} (body handler : M A) : M A :=
  fun w =>
    match body w with
    | Ok a w' => Ok a w'
    | Raised e w' => if is_exception e then handler w' else Raised e w'
    | NoReply w' => NoReply w'
    end.

Notation "'let*' x ':=' m 'in' k" := (bind m (fun x => k))
  (at level 10, x pattern, m at level 100, k at level 200).

(** [for x in xs: s = body(x, s)]. *)
Fixpoint mfor {A S} (body : A -> S -> M S) (xs : list A) (s : S) : M S :=
  match xs with
  | [] => ret s
  | x :: xs' => let* s' := body x s in mfor body xs' s'
  end.

(** ** Numbers and time *)

(** An [int] operand of a [float] operation is converted first, which
    raises [OverflowError] when it is too large for a double: the doubles
    end below [2^1024], and the integers from [2^1024 - 2^970] on round up
    to it. *)
Definition FLOAT_INT_BOUND : Z := 2 ^ 1024 - 2 ^ 970.

Definition float_of_int (n : Z) : M Q :=
  fun w =>
    if Z.abs n <? FLOAT_INT_BOUND then Ok (inject_Z n) w
    else Raised OverflowError w.

(** [time.sleep] keeps the duration as a number of nanoseconds in a signed
    64-bit integer. *)
Definition NS_PER_SECOND : Q := 1000000000.
Definition PYTIME_BOUND : Q := inject_Z (2 ^ 63).

(** What the script runs on.  [time.sleep] hands the wait to the operating
    system, which refuses a wait of [sleep_limit] seconds or more: on Linux
    the deadline, which is the monotonic clock plus the wait, has to stay
    below some [2^63] nanoseconds.  The limit is taken to be the same for
    the whole run; where the system has none, it is
    [PYTIME_BOUND / NS_PER_SECOND] or more. *)
Record platform := Platform {
  sleep_limit : Q;
}.
Existing Class platform.
Arguments sleep_limit {_}.

(** ** The script *)

Section Script.

(** The sources of values the script does not control: the wall clock
    behind [datetime.now(timezone.utc).isoformat()] and the generator
    behind [random.random()], each given by its successive readings, and
    the platform. *)
Variable clock : nat -> string.
Variable random : nat -> Q.
Context {os : platform}.

Definition now : M string :=
  fun w => Ok (clock (ticks w)) (set_ticks (S (ticks w)) w).

(** [random.uniform(a, b)] is [a + (b - a) * random.random()]. *)
Definition random_uniform (a b : Q) : M Q :=
  fun w => Ok (a + (b - a) * random (draws w))%Q (set_draws (S (draws w)) w).

(** [time.sleep(seconds)].  The duration is first converted to
    nanoseconds, which raises [OverflowError] when it is beyond [2^63] on
    either side (the bounds are compared as doubles, so that [2^63] itself
    passes); then a negative count raises [ValueError], and so does [2^63],
    which the conversion to a 64-bit integer wraps to a negative number;
    then the operating system is asked to wait, which raises [OSError]
    when it refuses. *)
Definition sleep (seconds : Q) : M unit :=
  fun w =>
    let ns := (seconds * NS_PER_SECOND)%Q in
    if negb (Qle_bool (- PYTIME_BOUND) ns && Qle_bool ns PYTIME_BOUND) then
      Raised OverflowError w
    else if negb (Qle_bool 0 ns) || Qle_bool PYTIME_BOUND ns then
      Raised ValueError w
    else if Qle_bool sleep_limit seconds then Raised OSError w
    else Ok tt (emit (EvSleep seconds) w).

(** [requests.get(url, ...)]: the next reply of the script. *)
Definition requests_get (url : string) : M reply :=
  fun w =>
    match script w with
    | [] => NoReply w
    | r :: rs => Ok r (set_script rs (emit (EvGet url) w))
    end.

(** *** Checkpoint *)

Definition empty_checkpoint : checkpoint := Checkpoint [] 0 None.

Definition load_checkpoint : M checkpoint :=
  fun w =>
    match checkpoint_file w with
    | Some c => Ok c w
    | None => Ok empty_checkpoint w
    end.

(** [with open(tmp, "w") as f: json.dump(ckpt, f, indent=2)] *)
Definition write_tmp (ckpt : checkpoint) : M unit :=
  fun w => Ok tt (set_tmp_file (Some ckpt) (emit (EvWriteTmp ckpt) w)).

(** [tmp.rename(CHECKPOINT_FILE)] *)
Definition rename_tmp : M unit :=
  fun w =>
    match tmp_file w with
    | Some c =>
        Ok tt (set_checkpoint_file (Some c) (set_tmp_file None (emit EvRename w)))
    | None => Raised FileNotFoundError w
    end.

(** The dict [ckpt] is mutated in place; the updated dict is returned. *)
Definition save_checkpoint (ckpt : checkpoint) : M checkpoint :=
  let* ts := now in
  let ckpt :=
    Checkpoint (completed_post_ids ckpt) (total_comments_downloaded ckpt) (Some ts) in
  let* _ := write_tmp ckpt in
  let* _ := rename_tmp in
  ret ckpt.

Definition reset_checkpoint : M unit :=
  fun w =>
    match checkpoint_file w with
    | Some _ => Ok tt (set_checkpoint_file None (emit EvUnlink w))
    | None => Ok tt w
    end.

(** *** Error logging *)

Definition newline : string := String (ascii_of_nat 10) EmptyString.

Definition log_error (post_id error_msg : string) : M unit :=
  let* timestamp := now in
  let line :=
    "[" +:+ timestamp +:+ "] post_id=" +:+ post_id +:+ " | " +:+ error_msg +:+ newline in
  fun w => Ok tt (set_errors_log (errors_log w ++ [line]) (emit (EvLogError line) w)).

(** *** API *)

Definition initial_url (post_id : string) : string :=
  BASE_URL +:+ "/api/v2/community/posts/" +:+ post_id +:+ "/comments.json"
  +:+ "?per_page=" +:+ str PER_PAGE +:+ "&sort_by=created_at&sort_order=asc".

(** The waits computed in the four retry branches, operand by operand:
    [backoff_base * (2 ** (attempt - 1)) + random.uniform(0, 3)] and the
    like. *)
Definition wait_rate_limited (backoff_base : Q) (attempt : Z) : M Q :=
  let* factor := float_of_int (2 ^ (attempt - 1)) in
  let* jitter := random_uniform 0 3 in
  ret (backoff_base * factor + jitter)%Q.

Definition wait_server_error (backoff_base : Q) (attempt : Z) : M Q :=
  let* factor := float_of_int attempt in
  let* jitter := random_uniform 0 2 in
  ret (backoff_base * factor + jitter)%Q.

Definition wait_timeout (backoff_base : Q) (attempt : Z) : M Q :=
  let* factor := float_of_int attempt in
  ret (backoff_base * factor)%Q.

Definition wait_connection_error (backoff_base : Q) (attempt : Z) : M Q :=
  let* factor := float_of_int (2 ^ (attempt - 1)) in
  let* jitter := random_uniform 0 5 in
  ret (backoff_base * factor + jitter)%Q.

(** [wait = ...] followed by [time.sleep(wait)]. *)
Definition sleep_for (wait : M Q) : M unit :=
  let* wait := wait in sleep wait.

(** The same inside the [try] block: whatever it raises is caught by
    [except Exception], whose handler sleeps [backoff_base]. *)
Definition sleep_in_try (backoff_base : Q) (wait : M Q) : M unit :=
  try_except (sleep_for wait) (sleep backoff_base).

(** How the [for attempt in range(1, max_retries + 1)] loop is left. *)
Inductive loop_exit :=
| Break (all_comments : list comment) (url : option string)  (* success = True *)
| Return404                                                  (* return inside the loop *)
| Exhausted.                                                 (* success still False *)

(** The retry loop for one page, over the attempt numbers still to run. *)
Fixpoint attempt_loop (backoff_base : Q) (url : string)
    (all_comments : list comment) (attempts : list Z) : M loop_exit :=
  match attempts with
  | [] => ret Exhausted
  | attempt :: attempts' =>
      let* resp := requests_get url in
      match resp with
      | Http status_code body =>
          if status_code =? 200 then
            match body with
            | Some data =>
                ret (Break (all_comments ++ page_comments data) (next_page data))
            | None =>
                let* _ := sleep backoff_base in
                attempt_loop backoff_base url all_comments attempts'
            end
          else if (status_code =? 403) || (status_code =? 429) then
            let* _ := sleep_in_try backoff_base
                        (wait_rate_limited backoff_base attempt) in
            attempt_loop backoff_base url all_comments attempts'
          else if status_code =? 404 then
            ret Return404
          else
            let* _ := sleep_in_try backoff_base
                        (wait_server_error backoff_base attempt) in
            attempt_loop backoff_base url all_comments attempts'
      | RaiseTimeout =>
          let* _ := sleep_for (wait_timeout backoff_base attempt) in
          attempt_loop backoff_base url all_comments attempts'
      | RaiseConnectionError =>
          let* _ := sleep_for (wait_connection_error backoff_base attempt) in
          attempt_loop backoff_base url all_comments attempts'
      | RaiseOther =>
          let* _ := sleep backoff_base in
          attempt_loop backoff_base url all_comments attempts'
      end
  end.

(** The [while url:] loop.  Every iteration that goes round again has
    consumed a reply, so [fuel] above the length of the script is never
    used up. *)
Fixpoint while_url (fuel : nat) (post_id : string) (delay : Q)
    (max_retries : Z) (backoff_base : Q) (url : option string) (page : Z)
    (all_comments : list comment) : M (list comment * string) :=
  match url with
  | Some (String _ _ as u) =>
      match fuel with
      | O => fun w => NoReply w
      | S fuel' =>
          let page := page + 1 in
          let* ex := attempt_loop backoff_base u all_comments
                       (py_range 1 (max_retries + 1) 1) in
          match ex with
          | Break all_comments url =>
              let* _ := (if truthy url then sleep delay else ret tt) in
              while_url fuel' post_id delay max_retries backoff_base
                        url page all_comments
          | Return404 => ret (all_comments, "404_not_found")
          | Exhausted =>
              let error_msg :=
                "Failed after " +:+ str max_retries +:+ " attempts on page "
                +:+ str page in
              let* _ := log_error post_id error_msg in
              ret (all_comments, "failed_page_" +:+ str page)
          end
      end
  | _ => ret (all_comments, "ok")
  end.

Definition download_comments_for_post (post_id : string) (delay : Q)
    (max_retries : Z) (backoff_base : Q) : M (list comment * string) :=
  fun w =>
    while_url (S (length (script w))) post_id delay max_retries backoff_base
              (Some (initial_url post_id)) 0 [] (emit (EvCall post_id) w).

(** *** Batch processing *)

Definition batch_file_name (batch_num : Z) : string :=
  "batch_" +:+ format_05d batch_num +:+ ".json".

Definition save_batch (batch_results : list entry) (batch_num : Z) : M string :=
  let batch_file := batch_file_name batch_num in
  fun w =>
    Ok batch_file
       (set_batch_files (<[batch_file := batch_results]> (batch_files w))
                        (emit (EvSaveBatch batch_file batch_results) w)).

(** *** Main *)

(** The local variables of [main] that its loops update. *)
Record locals := Locals {
  completed : gset string;
  ckpt : checkpoint;
  total_comments : Z;
  batch_num : Z;
  errors_count : Z;
  batch_results : list entry;
  batch_comments : Z;
}.

(** The body of [for post_info in batch]. *)
Definition process_post (a : args) (info : post_info) (st : locals) : M locals :=
  let post_id := str (post_id info) in
  let expected_comments := comment_count info in
  let* fetched :=
    download_comments_for_post post_id (delay a) (max_retries a) (backoff_base a) in
  let comments := fst fetched in
  let status := snd fetched in
  let* n := match int post_id with
            | Some n => ret n
            | None => raise ValueError
            end in
  let batch_results :=
    batch_results st ++ [Entry n expected_comments (len comments) status comments] in
  let batch_comments := batch_comments st + len comments in
  let total_comments := total_comments st + len comments in
  let completed := completed st ∪ {[post_id]} in
  let ckpt := Checkpoint (elements completed) total_comments (last_updated (ckpt st)) in
  let* ckpt := save_checkpoint ckpt in
  let errors_count :=
    if negb (String.eqb status "ok") && negb (String.eqb status "404_not_found")
    then errors_count st + 1 else errors_count st in
  let* jitter := random_uniform 0 (2 # 10) in
  let* _ := sleep (delay a + jitter)%Q in
  ret (Locals completed ckpt total_comments (batch_num st) errors_count
              batch_results batch_comments).

(** The body of [for batch_start in range(0, len(remaining), batch_size)]. *)
Definition process_batch (a : args) (remaining : list post_info)
    (batch_start : Z) (st : locals) : M locals :=
  let batch := py_slice remaining batch_start (batch_start + batch_size a) in
  let st := Locals (completed st) (ckpt st) (total_comments st) (batch_num st)
                   (errors_count st) [] 0 in
  let* st := mfor (process_post a) batch st in
  let* _ := save_batch (batch_results st) (batch_num st) in
  let st := Locals (completed st) (ckpt st) (total_comments st) (batch_num st + 1)
                   (errors_count st) (batch_results st) (batch_comments st) in
  let* _ := (if batch_start + batch_size a <? len remaining then
               let* jitter := random_uniform 0 2 in
               sleep (batch_delay a + jitter)%Q
             else ret tt) in
  ret st.

(** [remaining = [p for p in all_posts if str(p["post_id"]) not in completed]] *)
Definition remaining_posts (completed : gset string) (all_posts : list post_info)
    : list post_info :=
  filter (fun p => str (post_id p) ∉ completed) all_posts.

(** [input_file] is the content of [posts_with_comments.json], [None] when
    the file does not exist.  The result is [None] on the early return
    ("All posts already downloaded!") and the final locals otherwise. *)
Definition main (a : args) (input_file : option (list post_info))
    : M (option locals) :=
  let* _ := (if reset a then reset_checkpoint else ret tt) in
  match input_file with
  | None => raise (SystemExit 1)
  | Some all_posts =>
      let* ckpt := load_checkpoint in
      let completed : gset string := list_to_set (completed_post_ids ckpt) in
      let total_comments := total_comments_downloaded ckpt in
      let remaining := remaining_posts completed all_posts in
      match remaining with
      | [] => ret None
      | _ :: _ =>
          if batch_size a =? 0 then raise ZeroDivisionError
          else
            let batch_num := Z.of_nat (size completed) / batch_size a + 1 in
            let errors_count := 0 in
            let st := Locals completed ckpt total_comments batch_num
                             errors_count [] 0 in
            let* st := mfor (process_batch a remaining)
                            (py_range 0 (len remaining) (batch_size a)) st in
            ret (Some st)
      end
  end.

End Script.

(** ** The progress line

    [print_progress] only prints; what is modelled is the arithmetic
    behind the line it prints.  Division is Python's: it raises on a zero
    divisor. *)

(** [x / y] on numbers. *)
Definition truediv (x y : Q) : M Q :=
  fun w => if Qeq_bool y 0 then Raised ZeroDivisionError w else Ok (x / y)%Q w.

(** [x > 0] on numbers. *)
Definition positive (x : Q) : bool := negb (Qle_bool x 0).

(** The two computed figures of the line: the percentage and the
    estimated minutes left. *)
Record progress_line := ProgressLine {
  pct : Q;
  eta_mins : Q;
}.

Definition print_progress (done_count total batch_comments total_comments
    errors_count : Z) (elapsed : Q) : M progress_line :=
  let* pct := (if total =? 0 then ret 0%Q
               else let* q := truediv (inject_Z done_count) (inject_Z total) in
                    ret (q * 100)%Q) in
  let* rate := (if positive elapsed then truediv (inject_Z done_count) elapsed
                else ret 0%Q) in
  let* eta_secs := (if positive rate then truediv (inject_Z (total - done_count)) rate
                    else ret 0%Q) in
  let* eta_mins := truediv eta_secs 60 in
  ret (ProgressLine pct eta_mins).

(** * A shallow embedding of [merge_batches.py]

    The script reads the batch directory and writes one document; it is
    modelled as a function from the directory ([None] when it does not
    exist) to what happens to the output file. *)

Module merge_batches.

(** The document written to the output file, by key; the summary is a
    finite map, the order of its keys in the file is not modelled. *)
Record output := Output {
  total_posts : Z;
  total_comments : Z;
  status_summary : gmap string Z;
  posts : list entry;
}.

(** What a run of the script does. *)
Inductive outcome :=
| NoOutput                 (* an early [return]: nothing is written *)
| Written (o : output)     (* [json.dump(output, f)] *)
| Failed (e : exn).

(** [fnmatch(name, "batch_*.json")]: the name starts with [batch_] and ends
    with [.json]. *)
Definition matches (name : string) : bool :=
  String.prefix "batch_" name &&
  String.eqb (substring (String.length name - 5) 5 name) ".json".

(** The order [sorted] puts the paths of one directory in: that of their
    names, character by character. *)
Definition name_le (s t : string) : Prop := String.leb s t = true.

#[export] Instance name_le_dec (s t : string) : Decision (name_le s t).
Proof. unfold name_le. apply _. Defined.

(** [sorted(BATCH_DIR.glob("batch_*.json"))] *)
Definition glob_sorted (dir : gmap string (list entry)) : list string :=
  merge_sort name_le
    (filter (fun name => matches name = true) (map fst (map_to_list dir))).

(** The variables the loops update: [all_posts], [total_comments] (here
    [comments_total], the other name being taken by the key of the output)
    and [status_counts]. *)
Record vars := Vars {
  all_posts : list entry;
  comments_total : Z;
  status_counts : gmap string Z;
}.

(** The body of [for post in batch]. *)
Definition add_post (st : vars) (post : entry) : vars :=
  let s := status post in
  Vars (all_posts st ++ [post])
       (comments_total st + actual_comment_count post)
       (<[s := default 0 (status_counts st !! s) + 1]> (status_counts st)).

(** [for bf in batch_files: with open(bf) as f: batch = json.load(f); ...] *)
Fixpoint read_batches (dir : gmap string (list entry)) (batch_files : list string)
    (st : vars) : vars + exn :=
  match batch_files with
  | [] => inl st
  | bf :: batch_files' =>
      match dir !! bf with
      | Some batch => read_batches dir batch_files' (foldl add_post st batch)
      | None => inr FileNotFoundError
      end
  end.

Definition main (batch_dir : option (gmap string (list entry))) : outcome :=
  match batch_dir with
  | None => NoOutput
  | Some dir =>
      let batch_files := glob_sorted dir in
      match batch_files with
      | [] => NoOutput
      | _ :: _ =>
          match read_batches dir batch_files (Vars [] 0 ∅) with
          | inl st =>
              Written (Output (len (all_posts st)) (comments_total st)
                              (status_counts st) (all_posts st))
          | inr e => Failed e
          end
      end
  end.

End merge_batches.

(** ** Vocabulary of the specification

    Predicates and ghost records used to state what the script does; none
    of them is part of the script. *)


(** *** Outcomes of a computation *)

(** The world a computation ends in, whether it returned, raised or is
    still waiting for the server; and what it returned. *)
Definition world_of {A} (r : result A) : world :=
  match r with
  | Ok _ w => w
  | Raised _ w => w
  | NoReply w => w
  end.

Definition value_of {A} (r : result (option A)) : option A :=
  match r with
  | Ok a _ => a
  | _ => None
  end.

(** The computation returned. *)
Definition is_ok {A} (r : result A) : Prop :=
  match r with
  | Ok _ _ => True
  | _ => False
  end.

(** *** Durations and numbers the script can use *)

Section Durations.
Context {os : platform}.

(** A duration [time.sleep] takes: not negative, below [2^63] nanoseconds
    and below the limit of the operating system. *)
Definition can_sleep (d : Q) : bool :=
  Qle_bool 0 d && negb (Qle_bool PYTIME_BOUND (d * NS_PER_SECOND))
  && negb (Qle_bool sleep_limit d).

(** An integer that converts to a [float]. *)
Definition fits_float (n : Z) : bool := Z.abs n <? FLOAT_INT_BOUND.

(** The waits of the [except] handlers of a retry loop with base [b] over
    [attempts] are all durations [time.sleep] takes, whatever the jitter:
    the base itself, [b * attempt] after a timeout and
    [b * 2^(attempt-1)] plus less than 5 after a connection error. *)
Definition attempt_fits (b : Q) (attempt : Z) : bool :=
  fits_float attempt && can_sleep (b * inject_Z attempt) &&
  fits_float (2 ^ (attempt - 1)) &&
  can_sleep (b * inject_Z (2 ^ (attempt - 1)) + 5).

Definition waits_fit (b : Q) (attempts : list Z) : bool :=
  can_sleep b && forallb (attempt_fits b) attempts.

(** The same for one fetch, with its pause between pages, for one post,
    with the pause after it, and for a run, with its pauses after
    batches. *)
Definition fetch_fits (dl : Q) (mr : Z) (b : Q) : bool :=
  can_sleep dl && waits_fit b (py_range 1 (mr + 1) 1).

Definition post_fits (a : args) : bool :=
  fetch_fits (delay a) (max_retries a) (backoff_base a) &&
  can_sleep (delay a + (2 # 10)).

Definition run_fits (a : args) : bool :=
  post_fits a && can_sleep (batch_delay a) && can_sleep (batch_delay a + 2).

End Durations.

(** The pause of the retry loop after attempt [a] got the reply [r], a
    reply after which the page is tried again: the handler of the branch
    the reply leads to. *)
Definition pause_after {os : platform} (random : nat -> Q) (b : Q) (a : Z)
    (r : reply) : M unit :=
  match r with
  | Http code body =>
      if code =? 200 then sleep b
      else if (code =? 403) || (code =? 429) then
        sleep_in_try b (wait_rate_limited random b a)
      else sleep_in_try b (wait_server_error random b a)
  | RaiseTimeout => sleep_for (wait_timeout b a)
  | RaiseConnectionError => sleep_for (wait_connection_error random b a)
  | RaiseOther => sleep b
  end.

(** [random.random()] returns a number in the interval from 0 to 1, 1
    excluded. *)
Definition unit_interval (random : nat -> Q) : Prop :=
  forall i, (0 <= random i < 1)%Q.

(** Attempt [a] of the retry loop on [u], started in [w], turns [w] into
    [w1] by its request and the computation of the wait, then sleeps [d]
    and goes on to the next attempt, or leaves the loop when it was the
    last one. *)
Definition waits_before_retry {os : platform} (random : nat -> Q) (b : Q)
    (u : string) (acc : list comment) (a : Z) (w : world) (d : Q) (w1 : world)
    : Prop :=
  attempt_loop random b u acc [a] w = Ok Exhausted (emit (EvSleep d) w1) /\
  forall attempts,
    attempt_loop random b u acc (a :: attempts) w =
    attempt_loop random b u acc attempts (emit (EvSleep d) w1).

(** A number computed: the world after it differs from the world before
    at most in the random numbers drawn. *)
Definition drawn {A} (w : world) (r : result A) : Prop :=
  match r with
  | Ok _ w' => exists n, w' = set_draws n w
  | Raised e w' => is_exception e = true /\ exists n, w' = set_draws n w
  | NoReply _ => False
  end.

(** A pause: the world after it differs from the world before at most in
    the random numbers drawn and in one sleep at the end of the trace; a
    pause that raises has not slept. *)
Definition paused (w : world) (r : result unit) : Prop :=
  match r with
  | Ok _ w' => exists d n, w' = emit (EvSleep d) (set_draws n w)
  | Raised e w' => is_exception e = true /\ exists n, w' = set_draws n w
  | NoReply _ => False
  end.

(** *** Decimal strings *)

(** Value of a string of decimal digits, leading zeros allowed. *)
Definition digits_val (s : string) : option Z :=
  option_map Z.of_uint (NilEmpty.uint_of_string s).

(** [names_ascend k n]: the file names of the [k] pairs of consecutive
    batch numbers starting at [n] are in ascending order. *)
Fixpoint names_ascend (k : nat) (n : Z) : bool :=
  match k with
  | O => true
  | S k' =>
      if String.ltb (batch_file_name n) (batch_file_name (n + 1))
      then names_ascend k' (n + 1) else false
  end.

(** *** Replies and events of a fetch *)

(** A reply after which the same page is tried again. *)
Definition is_failure (r : reply) : bool :=
  match r with
  | Http status_code body =>
      if status_code =? 200 then
        match body with Some _ => false | None => true end
      else negb (status_code =? 404)
  | _ => true
  end.

(** Replies that complete a page. *)
Definition is_page (r : reply) : bool :=
  match r with
  | Http status_code (Some _) => status_code =? 200
  | _ => false
  end.

(** Replies that do not lead to a further page. *)
Definition no_cursor (r : reply) : bool :=
  match r with
  | Http status_code (Some data) =>
      negb ((status_code =? 200) && truthy (next_page data))
  | _ => true
  end.

(** Records carried by a reply: only a decoded 200 has any. *)
Definition reply_comments (r : reply) : list comment :=
  match r with
  | Http status_code (Some data) =>
      if status_code =? 200 then page_comments data else []
  | _ => []
  end.

(** Number of pages among the replies. *)
Definition pages_in (used : list reply) : Z := len (filter is_page used).

(** Events produced inside the retry loop. *)
Definition is_request_event (e : event) : bool :=
  match e with
  | EvGet _ | EvSleep _ => true
  | _ => false
  end.

(** Events produced by one call of [download_comments_for_post]. *)
Definition is_fetch_event (e : event) : bool :=
  match e with
  | EvGet _ | EvSleep _ | EvLogError _ => true
  | _ => false
  end.

(** Pauses. *)
Definition is_sleep (e : event) : bool :=
  match e with
  | EvSleep _ => true
  | _ => false
  end.

(** The parts of the world the retry loop leaves alone. *)
Definition same_files (w w' : world) : Prop :=
  ticks w' = ticks w /\ checkpoint_file w' = checkpoint_file w /\
  tmp_file w' = tmp_file w /\ errors_log w' = errors_log w /\
  batch_files w' = batch_files w.

(** The line [log_error] writes when the attempts on [page] are used up. *)
Definition error_line (timestamp post_id : string) (max_retries page : Z) : string :=
  "[" +:+ timestamp +:+ "] post_id=" +:+ post_id +:+ " | "
  +:+ ("Failed after " +:+ str max_retries +:+ " attempts on page " +:+ str page)
  +:+ newline.

(** *** How the loops of a fetch end *)

(** How a retry loop over [n] attempts that started with [acc] was left,
    given the replies [used] it consumed. *)
Definition exit_shape (acc : list comment) (n : nat) (used : list reply)
    (ex : loop_exit) : Prop :=
  match ex with
  | Break acc' url' =>
      exists fs pg, used = fs ++ [Http 200 (Some pg)] /\
        forallb is_failure fs = true /\ (length fs < n)%nat /\
        acc' = acc ++ page_comments pg /\ url' = next_page pg
  | Return404 =>
      exists fs body, used = fs ++ [Http 404 body] /\
        forallb is_failure fs = true /\ (length fs < n)%nat
  | Exhausted => forallb is_failure used = true /\ length used = n
  end.

(** The three ways a fetch ends, in terms of the replies [used] it
    consumed ([url0] is the cursor the fetch started from): a page without
    cursor came last ... *)
Definition ended_ok (url0 : option string) (used : list reply) : Prop :=
  (used = [] /\ truthy url0 = false) \/
  exists used' data, used = used' ++ [Http 200 (Some data)] /\
                     truthy (next_page data) = false.

(** ... a 404 came last ... *)
Definition ended_not_found (used : list reply) : Prop :=
  exists used' body, used = used' ++ [Http 404 body].

(** ... or one failure per attempt came last, all on the same page. *)
Definition ended_failed (max_retries : Z) (used : list reply) : Prop :=
  exists used' fs, used = used' ++ fs /\ forallb is_failure fs = true /\
    length fs = length (py_range 1 (max_retries + 1) 1) /\
    pages_in used' = pages_in used.

(** The status returned and the effect on error log and clock, for a
    fetch that had fetched [page0] pages before. *)
Definition fetch_end (clock : nat -> string) (w w' : world)
    (post_id : string) (max_retries : Z)
    (url0 : option string) (page0 : Z) (used : list reply) (st : string) : Prop :=
  (st = "ok" /\ ended_ok url0 used /\
     errors_log w' = errors_log w /\ ticks w' = ticks w) \/
  (st = "404_not_found" /\ ended_not_found used /\
     errors_log w' = errors_log w /\ ticks w' = ticks w) \/
  (st = "failed_page_" +:+ str (page0 + 1 + pages_in used) /\
     ended_failed max_retries used /\
     errors_log w' = errors_log w ++
       [error_line (clock (ticks w)) post_id max_retries (page0 + 1 + pages_in used)] /\
     ticks w' = S (ticks w)).

(** The three statuses a fetch can return. *)
Definition fetch_status (st : string) : Prop :=
  st = "ok" \/ st = "404_not_found" \/ exists n, st = "failed_page_" +:+ str n.

(** *** Scripts that begin with complete pages *)

(** A round is one page fetched with a cursor to the next one: the failed
    attempts before it and the page itself. *)
Definition round : Type := list reply * page.

(** The replies of a round, its records and its well-formedness for a
    given number of attempts. *)
Definition round_replies (rd : round) : list reply :=
  fst rd ++ [Http 200 (Some (snd rd))].

Definition round_comments (rd : round) : list comment := page_comments (snd rd).

Definition round_ok (max_retries : Z) (rd : round) : Prop :=
  forallb is_failure (fst rd) = true /\
  (length (fst rd) < Z.to_nat max_retries)%nat /\
  truthy (next_page (snd rd)) = true.

(** The cursor after the rounds. *)
Definition cursor_after (url : option string) (rounds : list round) : option string :=
  foldl (fun _ rd => next_page (snd rd)) url rounds.

(** *** Projections of a trace *)

(** Projections of a trace. *)
Definition calls (tr : list event) : list string :=
  flat_map (fun e => match e with EvCall id => [id] | _ => [] end) tr.

Definition saved_files (tr : list event) : list string :=
  flat_map (fun e => match e with EvSaveBatch f _ => [f] | _ => [] end) tr.

Definition saved_entries (tr : list event) : list entry :=
  flat_map (fun e => match e with EvSaveBatch _ b => b | _ => [] end) tr.

(** Calls of the fetcher and checkpoint writes, nothing else. *)
Definition is_progress_event (e : event) : bool :=
  match e with
  | EvCall _ | EvWriteTmp _ | EvRename => true
  | _ => false
  end.

Definition progress (tr : list event) : list event :=
  List.filter is_progress_event tr.

(** [emits_at m w expected]: run from [w], the computation [m] calls the
    fetcher for a prefix of [expected], and for all of it if it returns. *)
Definition emits_at {A} (m : M A) (w : world) (expected : list string) : Prop :=
  exists cs,
    calls (trace (world_of (m w))) = calls (trace w) ++ cs /\
    cs `prefix_of` expected /\
    (is_ok (m w) -> cs = expected).

(** The same from every world. *)
Definition emits {A} (m : M A) (expected : list string) : Prop :=
  forall w, emits_at m w expected.


(** *** What a run did, post by post and batch by batch *)

(** What the run did for one post: the post, what the fetcher returned,
    the events inside the fetch, the checkpoint written and the pause. *)
Record item_log := ItemLog {
  il_info : post_info;
  il_comments : list comment;
  il_status : string;
  il_events : list event;
  il_checkpoint : checkpoint;
  il_pause : Q;
}.

(** Identifier, batch entry and trace of one post. *)
Definition item_id (il : item_log) : string := str (post_id (il_info il)).

Definition item_entry (il : item_log) : entry :=
  Entry (post_id (il_info il)) (comment_count (il_info il))
        (len (il_comments il)) (il_status il) (il_comments il).

Definition item_trace (il : item_log) : list event :=
  EvCall (item_id il) :: il_events il ++
  [EvWriteTmp (il_checkpoint il); EvRename; EvSleep (il_pause il)].

(** The call of the fetcher and the checkpoint write for one post. *)
Definition item_progress (il : item_log) : list event :=
  [EvCall (item_id il); EvWriteTmp (il_checkpoint il); EvRename].

(** The test [status != "ok" and status != "404_not_found"]. *)
Definition is_error (st : string) : bool :=
  negb (String.eqb st "ok") && negb (String.eqb st "404_not_found").

(** What one post adds to [errors_count]. *)
Definition item_errors (il : item_log) : Z :=
  if is_error (il_status il) then 1 else 0.

(** What is known about the log of a post. *)
Definition item_ok (il : item_log) : Prop :=
  forallb is_fetch_event (il_events il) = true /\
  fetch_status (il_status il) /\
  item_id il ∈ completed_post_ids (il_checkpoint il).

(** Entries counted as errors by the run. *)
Definition errors_in (es : list entry) : Z :=
  len (filter (fun e => is_error (status e) = true) es).

(** What the run did for one batch: its posts and the pause after it. *)
Record batch_log := BatchLog {
  bl_items : list item_log;
  bl_pause : list event;
}.

(** Entries, trace and well-formedness of one batch saved under number [n]. *)
Definition batch_entries (bl : batch_log) : list entry :=
  map item_entry (bl_items bl).

Definition batch_trace (n : Z) (bl : batch_log) : list event :=
  flat_map item_trace (bl_items bl) ++
  EvSaveBatch (batch_file_name n) (batch_entries bl) :: bl_pause bl.

Definition batch_ok (bl : batch_log) : Prop :=
  Forall item_ok (bl_items bl) /\ forallb is_sleep (bl_pause bl) = true.

(** The posts of consecutive batches. *)
Definition all_items (bls : list batch_log) : list item_log :=
  flat_map bl_items bls.

(** Trace and batch directory of consecutive batches numbered from [n]. *)
Fixpoint batches_trace (n : Z) (bls : list batch_log) : list event :=
  match bls with
  | [] => []
  | bl :: bls' => batch_trace n bl ++ batches_trace (n + 1) bls'
  end.

Fixpoint batches_files (n : Z) (bls : list batch_log)
    (m : gmap string (list entry)) : gmap string (list entry) :=
  match bls with
  | [] => m
  | bl :: bls' =>
      batches_files (n + 1) bls' (<[batch_file_name n := batch_entries bl]> m)
  end.

(** The checkpoint file agrees with the locals. *)
Definition synced (st : locals) (w : world) : Prop :=
  checkpoint_file w = Some (ckpt st) /\
  completed_post_ids (ckpt st) = elements (completed st) /\
  total_comments_downloaded (ckpt st) = total_comments st.

(** *** Checkpoint and batch files *)

(** The checkpoint [main] loads, and what [--reset] leaves in the trace. *)
Definition start_checkpoint (a : args) (w : world) : checkpoint :=
  if reset a then empty_checkpoint
  else match checkpoint_file w with
       | Some c => c
       | None => empty_checkpoint
       end.

Definition reset_trace (a : args) (w : world) : list event :=
  if reset a then
    match checkpoint_file w with
    | Some _ => [EvUnlink]
    | None => []
    end
  else [].

(** Identifiers recorded in the checkpoint file, and identifiers that
    occur in some batch file, both as strings. *)
Definition checkpoint_ids (w : world) : gset string :=
  match checkpoint_file w with
  | Some c => list_to_set (completed_post_ids c)
  | None => ∅
  end.

Definition ids_in_files (m : gmap string (list entry)) : gset string :=
  list_to_set
    (flat_map (fun fe => map (fun e => str (entry_post_id e)) (snd fe))
              (map_to_list m)).

Definition file_ids (w : world) : gset string := ids_in_files (batch_files w).

(** *** Outcomes, whatever they are *)

(** [stays R m]: whatever the outcome of [m], the world it ends in is
    related by [R] to the world it started from. *)
Definition stays {A} (R : relation world) (m : M A) : Prop :=
  forall w, R w (world_of (m w)).

(** [wp m Q F w]: run from [w], the computation [m] returns a value and a
    world that satisfy [Q], or it stops in a world that satisfies [F]. *)
Definition wp {A} (m : M A) (Q : A -> world -> Prop) (F : world -> Prop)
    (w : world) : Prop :=
  match m w with
  | Ok x w' => Q x w'
  | Raised _ w' => F w'
  | NoReply w' => F w'
  end.

(** The computation returned. *)
Definition returned {A} (r : result A) : bool :=
  match r with
  | Ok _ _ => true
  | _ => false
  end.

(** What a fetch may do to the world: it leaves the checkpoint, the
    temporary file and the batch directory alone, appends to the error log
    and to the trace, and consumes replies. *)
Definition fetch_frame (w w' : world) : Prop :=
  checkpoint_file w' = checkpoint_file w /\ tmp_file w' = tmp_file w /\
  batch_files w' = batch_files w /\
  errors_log w `prefix_of` errors_log w' /\
  trace w `prefix_of` trace w' /\
  script w' `suffix_of` script w.

(** *** More projections *)

(** The URLs requested, and the batches saved. *)
Definition gets (tr : list event) : list string :=
  flat_map (fun e => match e with EvGet u => [u] | _ => [] end) tr.

Definition saved_batches (tr : list event) : list (list entry) :=
  flat_map (fun e => match e with EvSaveBatch _ b => [b] | _ => [] end) tr.

(** The URL each of the replies [used] answers, for a fetch that is at
    [url]: a page moves the fetch to its cursor, any other reply leaves it
    where it is. *)
Fixpoint urls_for (url : option string) (used : list reply) : list string :=
  match used, url with
  | r :: used', Some u =>
      u :: urls_for (match r with
                     | Http status_code (Some data) =>
                         if status_code =? 200 then next_page data else url
                     | _ => url
                     end) used'
  | _, _ => []
  end.

(** Sum of the [actual_comment_count]s, and number of entries with a
    given status. *)
Definition comments_in (es : list entry) : Z :=
  foldr (fun e n => actual_comment_count e + n) 0 es.

Definition count_status (s : string) (es : list entry) : Z :=
  len (filter (fun e => status e = s) es).

(** Identifiers of entries, as strings. *)
Definition ids_of (es : list entry) : list string :=
  map (fun e => str (entry_post_id e)) es.

(** No batch file numbered [n] or above exists. *)
Definition fresh_from (n : Z) (m : gmap string (list entry)) : Prop :=
  forall k, n <= k -> m !! batch_file_name k = None.

(** The entry a run saves for a post: identifier and expected count are
    copied from the input, the actual count is the number of records, and
    the status is one of the three the fetcher returns. *)
Definition entry_of (info : post_info) (e : entry) : Prop :=
  entry_post_id e = post_id info /\
  expected_comment_count e = comment_count info /\
  actual_comment_count e = len (comments e) /\
  fetch_status (status e).

(** *** The disk during a run

    [n0] is the number of the first batch of the run, [done] the completed
    set it loaded, [target] the posts it is going to fetch and [m0] the
    batch directory it found. *)

(** The posts of the batches that start at [starts]. *)
Definition posts_from (a : args) (remaining : list post_info) (starts : list Z)
    : list post_info :=
  concat (map (fun s => py_slice remaining s (s + batch_size a)) starts).

Section DiskStates.
Variable a : args.
Variable done : gset string.
Variable n0 : Z.
Variable remaining : list post_info.
Variable target : list post_info.
Variable m0 : gmap string (list entry).

(** The batches [bls] have been saved, the posts of [buf] are checkpointed
    and wait in the buffer of the current batch, and the posts [todo] are
    still to be fetched; if [saved], there are no such posts. *)
Definition disk_state (saved : bool) (todo : list post_info) (w : world) : Prop :=
  exists bls buf,
    batch_files w = batches_files n0 bls m0 /\
    checkpoint_ids w = done ∪ list_to_set (map item_id (all_items bls ++ buf)) /\
    (length buf <= Z.to_nat (batch_size a))%nat /\
    (saved = true -> buf = [] /\ todo = []) /\
    map il_info (all_items bls ++ buf) ++ todo = target.

(** Between two batches, with the batches starting at [rest] to go. *)
Definition between_batches (rest : list Z) (st : locals) (w : world) : Prop :=
  exists bls,
    batch_files w = batches_files n0 bls m0 /\
    batch_num st = n0 + len bls /\
    completed st = done ∪ list_to_set (map item_id (all_items bls)) /\
    checkpoint_ids w = completed st /\
    map il_info (all_items bls) ++ posts_from a remaining rest = target.

(** Inside a batch, with its posts [xs] to go. *)
Definition within_batch (bls : list batch_log) (rest : list Z)
    (xs : list post_info) (st : locals) (w : world) : Prop :=
  exists buf,
    batch_files w = batches_files n0 bls m0 /\
    batch_num st = n0 + len bls /\
    batch_results st = map item_entry buf /\
    completed st = done ∪ list_to_set (map item_id (all_items bls ++ buf)) /\
    checkpoint_ids w = completed st /\
    (length buf + length xs <= Z.to_nat (batch_size a))%nat /\
    map il_info (all_items bls ++ buf) ++ xs ++ posts_from a remaining rest = target.

End DiskStates.

(** *** Requests *)

(** None of the replies completes a page. *)
Definition no_page (used : list reply) : Prop :=
  forallb (fun r => negb (is_page r)) used = true.

(** A step that neither requests nor consumes anything. *)
Definition quiet (w w' : world) : Prop :=
  script w' = script w /\ gets (trace w') = gets (trace w).

(** The replies [used] were consumed between [w] and [w'], each by a
    request to the URL paired with it. *)
Definition requested (w w' : world) (used : list reply) (urls : list string) : Prop :=
  script w = used ++ script w' /\ gets (trace w') = gets (trace w) ++ urls.

(** How the retry loop on [u] was left after the replies [used]. *)
Definition attempts_end (u : string) (w : world) (ex : loop_exit) (w' : world) : Prop :=
  exists used,
    requested w w' used (repeat u (length used)) /\
    match ex with
    | Break _ url' =>
        exists fs data, used = fs ++ [Http 200 (Some data)] /\ no_page fs /\
                        url' = next_page data
    | _ => no_page used
    end.

(** The retry loop on [u] stopped after the replies [used]. *)
Definition attempts_cut (u : string) (w w' : world) : Prop :=
  exists used, requested w w' used (repeat u (length used)) /\ no_page used.

(** The fetch that was at [url] has gone on to [w']. *)
Definition fetch_requests (url : option string) (w w' : world) : Prop :=
  exists used, requested w w' used (urls_for url used).

(** ** Example runs

    Concrete inputs on which the statements below are exercised: a clock
    that always reads the same instant, a generator that always returns
    one half, three posts in batches of two, and a server that answers the
    first post with one page, the second with a 404 and fails twice on the
    third. *)

Section Examples.

Definition ex_clock (n : nat) : string := "2024-05-01T12:00:00+00:00".
Definition ex_random (n : nat) : Q := 1 # 2.

(** A Linux machine that has been up for a day: the deadline of a sleep
    has to stay below [2^63] nanoseconds. *)
Definition ex_os : platform := Platform 9223285636.
#[local] Existing Instance ex_os.

Definition ex_args : args := Args 2 (4 # 10) 5 2 10 false.

Definition ex_posts : list post_info :=
  [PostInfo 11 2; PostInfo 22 0; PostInfo 33 5].

Definition ex_page : page := Page ["a1"; "a2"] None.

Definition ex_script : list reply :=
  [Http 200 (Some ex_page); Http 404 None; Http 500 None; RaiseTimeout].

Definition ex_world : world := World ex_script 0 0 None None [] ∅ [].

(** A fresh run that goes through. *)
Definition ex_run : result (option locals) :=
  main ex_clock ex_random ex_args (Some ex_posts) ex_world.

(** The same run cut short: the server stops answering after the first
    post, which has been checkpointed but not yet saved in a batch. *)
Definition ex_cut_world : world :=
  World [Http 200 (Some ex_page)] 0 0 None None [] ∅ [].

Definition ex_cut_run : result (option locals) :=
  main ex_clock ex_random ex_args (Some ex_posts) ex_cut_world.

(** The run resumed from there, with the server answering again. *)
Definition ex_resume_world : world :=
  set_script [Http 404 None; Http 500 None; RaiseTimeout] (world_of ex_cut_run).

Definition ex_resume_run : result (option locals) :=
  main ex_clock ex_random ex_args (Some ex_posts) ex_resume_world.

(** A later run, after the fresh run above went through and a fourth post
    was added to the input. *)
Definition ex_later_posts : list post_info := ex_posts ++ [PostInfo 44 1].

Definition ex_later_world : world :=
  set_script [Http 200 (Some (Page ["d1"] None))] (world_of ex_run).

Definition ex_later_run : result (option locals) :=
  main ex_clock ex_random ex_args (Some ex_later_posts) ex_later_world.

(** An input that names the same post twice. *)
Definition ex_twice_posts : list post_info := [PostInfo 7 1; PostInfo 7 1].

Definition ex_twice_world : world :=
  World [Http 200 (Some (Page ["c1"] None)); Http 200 (Some (Page ["c1"] None))]
        0 0 None None [] ∅ [].

Definition ex_twice_run : result (option locals) :=
  main ex_clock ex_random ex_args (Some ex_twice_posts) ex_twice_world.

(** A fetch of two pages whose third page fails twice. *)
Definition ex_rounds : list round :=
  [([Http 503 None], Page ["p1"] (Some "https://feedback.minecraft.net/next1"));
   ([], Page ["p2"; "p3"] (Some "https://feedback.minecraft.net/next2"))].



Definition ex_locals : locals :=
  Locals ∅ empty_checkpoint 0 1 0 [] 0.

(** A batch directory that already holds batch 1. *)
Definition ex_old_entry : entry := Entry 11 2 2 "ok" ["a1"; "a2"].
Definition ex_new_entry : entry := Entry 44 1 1 "ok" ["d1"].

Definition ex_disk_world : world :=
  World [] 0 0 None None []
        {[ batch_file_name 1 := [ex_old_entry] ]} [].

(** ** More example runs *)

(** The value a computation returned, [d] if it did not return. *)
Definition result_or {A} (d : A) (r : result A) : A :=
  match r with
  | Ok x _ => x
  | _ => d
  end.

(** The locals the fresh run ends with. *)
Definition ex_run_locals : locals := default ex_locals (value_of ex_run).

(** The same arguments with a batch size of zero, with a negative one and
    with [--reset]. *)
Definition ex_zero_args : args := Args 0 (4 # 10) 5 2 10 false.
Definition ex_negative_args : args := Args (-2) (4 # 10) 5 2 10 false.
Definition ex_reset_args : args := Args 2 (4 # 10) 5 2 10 true.

(** The fresh run repeated with [--reset], the server answering as before. *)
Definition ex_reset_world : world := set_script ex_script (world_of ex_run).

Definition ex_reset_run : result (option locals) :=
  main ex_clock ex_random ex_reset_args (Some ex_posts) ex_reset_world.

(** A server with two replies ready for each of the three posts. *)
Definition ex_long_world : world :=
  World (ex_script ++ [Http 500 None; Http 500 None]) 0 0 None None [] ∅ [].

(** A fetch of the two pages of [ex_rounds] and of a last page, which comes
    after a timeout. *)
Definition ex_last_page : page := Page ["p4"] None.

Definition ex_paged_world : world :=
  World (flat_map round_replies ex_rounds ++
         [RaiseTimeout; Http 200 (Some ex_last_page)])
        0 0 None None [] ∅ [].

Definition ex_paged_fetch : result (list comment * string) :=
  download_comments_for_post ex_clock ex_random "11" (4 # 10) 2 10 ex_paged_world.

(** The first post of the fresh run, and its first batch. *)
Definition ex_post_step : result locals :=
  process_post ex_clock ex_random ex_args (PostInfo 11 2) ex_locals ex_world.

Definition ex_batch_step : result locals :=
  process_batch ex_clock ex_random ex_args ex_posts 0 ex_locals ex_world.

(** The document merged from the directory the fresh run leaves. *)
Definition ex_merged : merge_batches.outcome :=
  merge_batches.main (Some (batch_files (world_of ex_run))).

Definition ex_merged_doc : merge_batches.output :=
  match ex_merged with
  | merge_batches.Written o => o
  | _ => merge_batches.Output 0 0 ∅ []
  end.

End Examples.

(** ** Facts *)

#[local] Set Default Proof Using "Type".

(** *** Integers and their decimal strings *)

Lemma to_int_not_nil (n : Z) :
  Z.to_int n <> Decimal.Pos Decimal.Nil /\ Z.to_int n <> Decimal.Neg Decimal.Nil.
Proof.
  destruct n as [|p|p]; simpl; split; try discriminate;
    intros H; injection H as H; exact (Unsigned.to_uint_nonnil _ H).
Qed.

Lemma int_str (n : Z) : int (str n) = Some n.
Proof.
  unfold int, str.
  destruct (to_int_not_nil n) as [Hp Hn].
  rewrite (NilZero.isi _ Hp Hn). simpl. f_equal. apply DecimalZ.of_to.
Qed.

Lemma str_inj (m n : Z) : str m = str n -> m = n.
Proof.
  intros H. apply (f_equal int) in H. rewrite !int_str in H. congruence.
Qed.

Lemma digits_val_str (n : Z) : 0 <= n -> digits_val (str n) = Some n.
Proof.
  intros Hn. unfold digits_val, str.
  pose proof (DecimalZ.of_to n) as Hof.
  destruct (to_int_not_nil n) as [Hp _].
  destruct (Z.to_int n) as [d|d] eqn:E.
  - assert (Hd : d <> Decimal.Nil) by congruence.
    pose proof (NilZero.usu d Hd) as Hu. simpl.
    destruct (NilZero.string_of_uint d); [discriminate|].
    simpl in Hu. simpl. rewrite Hu. simpl. f_equal. exact Hof.
  - destruct n; simpl in E; try discriminate; lia.
Qed.

Lemma digits_val_zero (s : string) :
  digits_val (String "0" s) = digits_val s.
Proof.
  unfold digits_val. simpl.
  destruct (NilEmpty.uint_of_string s); reflexivity.
Qed.

Lemma digits_val_zfill (k : nat) (s : string) :
  digits_val (zfill k s) = digits_val s.
Proof.
  unfold zfill. induction (k - String.length s)%nat as [|j IH]; [reflexivity|].
  change (digits_val (String "0" (string_of_list_ascii (repeat "0"%char j) +:+ s))
          = digits_val s).
  rewrite digits_val_zero. exact IH.
Qed.

Lemma digits_val_nonempty (s : string) (n : Z) :
  digits_val s = Some n -> s <> EmptyString ->
  NilZero.uint_of_string s <> None /\
  option_map Z.of_uint (NilZero.uint_of_string s) = Some n /\
  exists c s', s = String c s' /\ Ascii.eqb c "-" = false.
Proof.
  intros H Hs. destruct s as [|c s']; [congruence|].
  unfold digits_val in H. simpl in *.
  repeat split.
  - intros E. rewrite E in H. discriminate.
  - exact H.
  - exists c, s'. split; [reflexivity|].
    destruct (Ascii.eqb c "-") eqn:E; [|reflexivity].
    apply Ascii.eqb_eq in E. subst c.
    destruct (NilEmpty.uint_of_string s'); discriminate.
Qed.

Lemma zfill_nonempty (k : nat) (s : string) :
  s <> EmptyString -> zfill k s <> EmptyString.
Proof.
  unfold zfill. destruct (k - String.length s)%nat; simpl; [|discriminate].
  auto.
Qed.

Lemma str_nonempty (n : Z) : str n <> EmptyString.
Proof.
  intros E. pose proof (int_str n) as H. rewrite E in H. discriminate.
Qed.

Lemma int_format_05d (n : Z) : int (format_05d n) = Some n.
Proof.
  unfold format_05d. destruct (Z.ltb_spec n 0) as [Hn|Hn].
  - assert (Hv : digits_val (zfill 4 (str (- n))) = Some (- n)).
    { rewrite digits_val_zfill. apply digits_val_str. lia. }
    destruct (digits_val_nonempty _ _ Hv (zfill_nonempty _ _ (str_nonempty _)))
      as (_ & Hu & _).
    unfold int.
    change (option_map Z.of_int
              (option_map Decimal.Neg (NilZero.uint_of_string (zfill 4 (str (- n)))))
            = Some n).
    destruct (NilZero.uint_of_string (zfill 4 (str (- n)))) as [d|]; [|discriminate].
    simpl in *. f_equal. injection Hu as Hu. lia.
  - assert (Hv : digits_val (zfill 5 (str n)) = Some n).
    { rewrite digits_val_zfill. apply digits_val_str. lia. }
    destruct (digits_val_nonempty _ _ Hv (zfill_nonempty _ _ (str_nonempty _)))
      as (_ & Hu & c & s' & Es & Ec).
    unfold int. rewrite Es in *. simpl. rewrite Ec.
    simpl in Hu.
    destruct (uint_of_char c (NilEmpty.uint_of_string s')) as [d|]; [|discriminate].
    simpl in *. exact Hu.
Qed.

Lemma list_ascii_of_append (s t : string) :
  list_ascii_of_string (s +:+ t) = list_ascii_of_string s ++ list_ascii_of_string t.
Proof. induction s as [|c s IH]; simpl; [reflexivity | now rewrite IH]. Qed.

Lemma append_inj_r (s t u : string) : s +:+ u = t +:+ u -> s = t.
Proof.
  intros H.
  apply (f_equal list_ascii_of_string) in H.
  rewrite !list_ascii_of_append in H.
  apply app_inv_tail in H.
  apply (f_equal string_of_list_ascii) in H.
  now rewrite !string_of_list_ascii_of_string in H.
Qed.

Lemma batch_file_name_inj (m n : Z) :
  batch_file_name m = batch_file_name n -> m = n.
Proof.
  unfold batch_file_name. intros H. simpl in H.
  injection H as H.
  change (format_05d m +:+ ".json" = format_05d n +:+ ".json") in H.
  apply append_inj_r in H.
  apply (f_equal int) in H. rewrite !int_format_05d in H. congruence.
Qed.

(** *** The fetcher: what a result tells about the replies consumed *)

Section Facts.
Variable clock : nat -> string.
Variable random : nat -> Q.
Context {os : platform}.

Lemma bind_ok {A B} (m : M A) (k : A -> M B) w b w'' :
  bind m k w = Ok b w'' <-> exists a w', m w = Ok a w' /\ k a w' = Ok b w''.
Proof.
  unfold bind. destruct (m w) as [a w'| |]; split.
  - eauto.
  - intros (a' & w1 & E & H). congruence.
  - discriminate.
  - intros (? & ? & ? & _). discriminate.
  - discriminate.
  - intros (? & ? & ? & _). discriminate.
Qed.

(** *** Sleeping *)

Lemma Qle_bool_false (x y : Q) : Qle_bool x y = false <-> (y < x)%Q.
Proof.
  split.
  - intros E. apply Qnot_le_lt. intros H. apply Qle_bool_iff in H. congruence.
  - intros H. destruct (Qle_bool x y) eqn:E; [|reflexivity].
    apply Qle_bool_iff in E. lra.
Qed.

Lemma pytime_bound_pos : (0 < PYTIME_BOUND)%Q.
Proof. reflexivity. Qed.

Lemma can_sleep_spec (d : Q) :
  can_sleep d = true <->
  (0 <= d)%Q /\ (d * NS_PER_SECOND < PYTIME_BOUND)%Q /\ (d < sleep_limit)%Q.
Proof.
  unfold can_sleep.
  rewrite !Bool.andb_true_iff, !Bool.negb_true_iff, !Qle_bool_false, Qle_bool_iff.
  tauto.
Qed.

(** A duration between two durations that can be slept can be slept. *)
Lemma can_sleep_between (lo d hi : Q) :
  can_sleep lo = true -> can_sleep hi = true -> (lo <= d <= hi)%Q ->
  can_sleep d = true.
Proof.
  rewrite !can_sleep_spec. unfold NS_PER_SECOND.
  intros (L0 & L1 & L2) (H0 & H1 & H2) [Hlo Hhi]. repeat split; lra.
Qed.

Lemma sleep_ok (d : Q) w :
  can_sleep d = true -> sleep d w = Ok tt (emit (EvSleep d) w).
Proof.
  intros H. apply can_sleep_spec in H as (H0 & H1 & H2).
  pose proof pytime_bound_pos as Hp.
  unfold sleep. cbv zeta.
  assert (E1 : Qle_bool (- PYTIME_BOUND) (d * NS_PER_SECOND) = true).
  { apply Qle_bool_iff. unfold NS_PER_SECOND in *. lra. }
  assert (E2 : Qle_bool (d * NS_PER_SECOND) PYTIME_BOUND = true).
  { apply Qle_bool_iff. lra. }
  assert (E3 : Qle_bool 0 (d * NS_PER_SECOND) = true).
  { apply Qle_bool_iff. unfold NS_PER_SECOND in *. lra. }
  assert (E4 : Qle_bool PYTIME_BOUND (d * NS_PER_SECOND) = false).
  { now apply Qle_bool_false. }
  assert (E5 : Qle_bool sleep_limit d = false).
  { now apply Qle_bool_false. }
  rewrite E1, E2, E3, E4, E5. reflexivity.
Qed.

(** A sleep returns after the wait, or raises at once. *)
Lemma sleep_cases (d : Q) w :
  (can_sleep d = true /\ sleep d w = Ok tt (emit (EvSleep d) w)) \/
  (can_sleep d = false /\ exists e, sleep d w = Raised e w /\ is_exception e = true).
Proof.
  destruct (can_sleep d) eqn:E.
  - left. split; [reflexivity|]. now apply sleep_ok.
  - right. split; [reflexivity|]. unfold sleep. cbv zeta.
    destruct (Qle_bool (- PYTIME_BOUND) (d * NS_PER_SECOND)) eqn:E1; simpl; [|eauto].
    destruct (Qle_bool (d * NS_PER_SECOND) PYTIME_BOUND) eqn:E2; simpl; [|eauto].
    destruct (Qle_bool 0 (d * NS_PER_SECOND)) eqn:E3; simpl; [|eauto].
    destruct (Qle_bool PYTIME_BOUND (d * NS_PER_SECOND)) eqn:E4; simpl; [eauto|].
    destruct (Qle_bool sleep_limit d) eqn:E5; [eauto|].
    exfalso. apply Bool.not_true_iff_false in E. apply E, can_sleep_spec.
    apply Qle_bool_iff in E3. apply Qle_bool_false in E4, E5.
    unfold NS_PER_SECOND in *. repeat split; lra.
Qed.

Lemma sleep_inv (d : Q) w u w' :
  sleep d w = Ok u w' -> w' = emit (EvSleep d) w.
Proof.
  destruct (sleep_cases d w) as [[_ ->]|[_ (e & -> & _)]]; congruence.
Qed.

Lemma sleep_inv_fits (d : Q) w u w' :
  sleep d w = Ok u w' -> can_sleep d = true.
Proof.
  destruct (sleep_cases d w) as [[E _]|[_ (e & -> & _)]]; [auto|discriminate].
Qed.

Lemma sleep_refused (d : Q) w :
  can_sleep d = false -> exists e, sleep d w = Raised e w /\ is_exception e = true.
Proof.
  intros E. destruct (sleep_cases d w) as [[E' _]|[_ H]]; [congruence|exact H].
Qed.

Lemma set_draws_same w : set_draws (draws w) w = w.
Proof. now destruct w. Qed.

Lemma paused_sleep (d : Q) w : paused w (sleep d w).
Proof.
  destruct (sleep_cases d w) as [[_ ->]|[_ (e & -> & He)]]; simpl.
  - exists d, (draws w). reflexivity.
  - split; [exact He|]. exists (draws w). now rewrite set_draws_same.
Qed.

(** *** The waits *)

Lemma float_of_int_cases (n : Z) w :
  (fits_float n = true /\ float_of_int n w = Ok (inject_Z n) w) \/
  (fits_float n = false /\ float_of_int n w = Raised OverflowError w).
Proof. unfold float_of_int, fits_float. destruct (_ <? _); auto. Qed.

Lemma wait_rate_limited_cases (b : Q) (a : Z) w :
  (fits_float (2 ^ (a - 1)) = true /\
   wait_rate_limited random b a w =
     Ok (b * inject_Z (2 ^ (a - 1)) + (0 + (3 - 0) * random (draws w)))%Q
        (set_draws (S (draws w)) w)) \/
  (fits_float (2 ^ (a - 1)) = false /\
   wait_rate_limited random b a w = Raised OverflowError w).
Proof.
  unfold wait_rate_limited, bind, float_of_int, fits_float.
  destruct (_ <? _); [left|right]; split; reflexivity.
Qed.

Lemma wait_connection_error_cases (b : Q) (a : Z) w :
  (fits_float (2 ^ (a - 1)) = true /\
   wait_connection_error random b a w =
     Ok (b * inject_Z (2 ^ (a - 1)) + (0 + (5 - 0) * random (draws w)))%Q
        (set_draws (S (draws w)) w)) \/
  (fits_float (2 ^ (a - 1)) = false /\
   wait_connection_error random b a w = Raised OverflowError w).
Proof.
  unfold wait_connection_error, bind, float_of_int, fits_float.
  destruct (_ <? _); [left|right]; split; reflexivity.
Qed.

Lemma wait_server_error_cases (b : Q) (a : Z) w :
  (fits_float a = true /\
   wait_server_error random b a w =
     Ok (b * inject_Z a + (0 + (2 - 0) * random (draws w)))%Q
        (set_draws (S (draws w)) w)) \/
  (fits_float a = false /\
   wait_server_error random b a w = Raised OverflowError w).
Proof.
  unfold wait_server_error, bind, float_of_int, fits_float.
  destruct (_ <? _); [left|right]; split; reflexivity.
Qed.

Lemma wait_timeout_cases (b : Q) (a : Z) w :
  (fits_float a = true /\ wait_timeout b a w = Ok (b * inject_Z a)%Q w) \/
  (fits_float a = false /\ wait_timeout b a w = Raised OverflowError w).
Proof.
  unfold wait_timeout, bind, float_of_int, fits_float.
  destruct (_ <? _); [left|right]; split; reflexivity.
Qed.

Lemma drawn_wait_rate_limited b a w : drawn w (wait_rate_limited random b a w).
Proof.
  destruct (wait_rate_limited_cases b a w) as [[_ ->]|[_ ->]]; simpl; eauto.
  split; [reflexivity|]. exists (draws w). now rewrite set_draws_same.
Qed.

Lemma drawn_wait_connection_error b a w :
  drawn w (wait_connection_error random b a w).
Proof.
  destruct (wait_connection_error_cases b a w) as [[_ ->]|[_ ->]]; simpl; eauto.
  split; [reflexivity|]. exists (draws w). now rewrite set_draws_same.
Qed.

Lemma drawn_wait_server_error b a w : drawn w (wait_server_error random b a w).
Proof.
  destruct (wait_server_error_cases b a w) as [[_ ->]|[_ ->]]; simpl; eauto.
  split; [reflexivity|]. exists (draws w). now rewrite set_draws_same.
Qed.

Lemma drawn_wait_timeout b a w : drawn w (wait_timeout b a w).
Proof.
  destruct (wait_timeout_cases b a w) as [[_ ->]|[_ ->]]; simpl.
  - exists (draws w). now rewrite set_draws_same.
  - split; [reflexivity|]. exists (draws w). now rewrite set_draws_same.
Qed.

(** *** The pauses of the retry loop *)

Lemma paused_sleep_for (wait : M Q) :
  (forall w, drawn w (wait w)) -> forall w, paused w (sleep_for wait w).
Proof.
  intros Hw w. unfold sleep_for, bind. specialize (Hw w).
  destruct (wait w) as [d w1|e w1|w1]; simpl in Hw.
  - destruct Hw as (n & ->).
    pose proof (paused_sleep d (set_draws n w)) as Hp.
    destruct (sleep d (set_draws n w)) as [u w2|e w2|w2]; simpl in *.
    + destruct Hp as (d' & n' & ->). now exists d', n'.
    + destruct Hp as (He & n' & ->). split; [exact He|]. now exists n'.
    + exact Hp.
  - exact Hw.
  - exact Hw.
Qed.

Lemma paused_sleep_in_try (b : Q) (wait : M Q) :
  (forall w, drawn w (wait w)) -> forall w, paused w (sleep_in_try b wait w).
Proof.
  intros Hw w. unfold sleep_in_try, try_except.
  pose proof (paused_sleep_for wait Hw w) as Hp.
  destruct (sleep_for wait w) as [u w1|e w1|w1]; simpl in Hp; [exact Hp| |exact Hp].
  destruct Hp as (He & n & ->). rewrite He.
  pose proof (paused_sleep b (set_draws n w)) as Hb.
  destruct (sleep b (set_draws n w)) as [u w2|e2 w2|w2]; simpl in *.
  - destruct Hb as (d' & n' & ->). now exists d', n'.
  - destruct Hb as (He2 & n' & ->). split; [exact He2|]. now exists n'.
  - exact Hb.
Qed.

(** What a pause that returned has done. *)
Lemma paused_ok (m : M unit) w u w' :
  paused w (m w) -> m w = Ok u w' ->
  exists d, script w' = script w /\ trace w' = trace w ++ [EvSleep d] /\
            same_files w w'.
Proof.
  intros Hp E. rewrite E in Hp. destruct Hp as (d & n & ->).
  exists d. repeat split.
Qed.

(** A wait computed and slept inside the [try] block: when the wait can
    be slept, it is. *)
Lemma sleep_in_try_fits (b : Q) (wait : M Q) w d w' :
  wait w = Ok d w' -> can_sleep d = true ->
  sleep_in_try b wait w = Ok tt (emit (EvSleep d) w').
Proof.
  intros Hw Hd. unfold sleep_in_try, try_except, sleep_for, bind.
  now rewrite Hw, (sleep_ok _ _ Hd).
Qed.

(** Otherwise the handler sleeps [backoff_base]. *)
Lemma sleep_in_try_ok (b : Q) (wait : M Q) w :
  can_sleep b = true -> (forall w, drawn w (wait w)) ->
  exists d n, sleep_in_try b wait w = Ok tt (emit (EvSleep d) (set_draws n w)).
Proof.
  intros Hb Hw. unfold sleep_in_try, try_except.
  pose proof (paused_sleep_for wait Hw w) as Hp.
  destruct (sleep_for wait w) as [[] w1|e w1|w1]; simpl in Hp.
  - destruct Hp as (d & n & ->). now exists d, n.
  - destruct Hp as (He & n & ->). rewrite He, (sleep_ok _ _ Hb). now exists b, n.
  - destruct Hp.
Qed.

Lemma same_files_refl w : same_files w w.
Proof. repeat split. Qed.

Lemma same_files_trans w1 w2 w3 :
  same_files w1 w2 -> same_files w2 w3 -> same_files w1 w3.
Proof.
  unfold same_files.
  intros (H1 & H2 & H3 & H4 & H5) (G1 & G2 & G3 & G4 & G5).
  repeat split; congruence.
Qed.

Lemma exit_shape_cons acc n used ex r :
  is_failure r = true -> exit_shape acc n used ex ->
  exit_shape acc (S n) (r :: used) ex.
Proof.
  intros Hr. destruct ex as [acc' url'| |]; simpl.
  - intros (fs & pg & -> & Hfs & Hl & Hacc). exists (r :: fs), pg.
    simpl. rewrite Hr, Hfs. destruct Hacc as [Hacc Hurl].
    repeat split; auto. lia.
  - intros (fs & body & -> & Hfs & Hl). exists (r :: fs), body.
    simpl. rewrite Hr, Hfs. repeat split; auto. lia.
  - intros (Hfs & Hl). rewrite Hr, Hfs, Hl. auto.
Qed.

Ltac trace_eq := simpl; rewrite <- ?app_assoc; simpl; congruence.

(** The pauses of the retry loop. *)
Lemma paused_rate_limited b a w :
  paused w (sleep_in_try b (wait_rate_limited random b a) w).
Proof. apply paused_sleep_in_try, drawn_wait_rate_limited. Qed.

Lemma paused_server_error b a w :
  paused w (sleep_in_try b (wait_server_error random b a) w).
Proof. apply paused_sleep_in_try, drawn_wait_server_error. Qed.

Lemma paused_timeout b a w : paused w (sleep_for (wait_timeout b a) w).
Proof. apply paused_sleep_for, drawn_wait_timeout. Qed.

Lemma paused_connection_error b a w :
  paused w (sleep_for (wait_connection_error random b a) w).
Proof. apply paused_sleep_for, drawn_wait_connection_error. Qed.

(** One attempt of the retry loop, by the reply it gets: a page or a 404
    leaves the loop, anything else is followed by a pause and the next
    attempt. *)
Lemma attempt_loop_step b u acc a attempts r rs w :
  script w = r :: rs ->
  let w1 := set_script rs (emit (EvGet u) w) in
  match r with
  | Http code (Some data) =>
      if code =? 200 then
        attempt_loop random b u acc (a :: attempts) w =
          Ok (Break (acc ++ page_comments data) (next_page data)) w1
      else if code =? 404 then
        attempt_loop random b u acc (a :: attempts) w = Ok Return404 w1
      else True
  | Http code None =>
      if code =? 200 then True
      else if code =? 404 then
        attempt_loop random b u acc (a :: attempts) w = Ok Return404 w1
      else True
  | _ => True
  end /\
  (is_failure r = true ->
   attempt_loop random b u acc (a :: attempts) w =
     (let* _ := pause_after random b a r in
      attempt_loop random b u acc attempts) w1).
Proof.
  intros Hs w1. split.
  - destruct r as [code [data|]| | |]; auto.
    + destruct (Z.eqb_spec code 200) as [->|H200].
      * simpl. unfold bind, requests_get. now rewrite Hs.
      * destruct (Z.eqb_spec code 404) as [->|H404]; [|exact I].
        simpl. unfold bind, requests_get. now rewrite Hs.
    + destruct (Z.eqb_spec code 200) as [->|H200]; [exact I|].
      destruct (Z.eqb_spec code 404) as [->|H404]; [|exact I].
      simpl. unfold bind, requests_get. now rewrite Hs.
  - intros Hf. simpl. unfold bind at 1, requests_get. rewrite Hs. fold w1.
    destruct r as [code body| | |]; try reflexivity.
    simpl in Hf. unfold pause_after. destruct (code =? 200).
    + destruct body; [discriminate|reflexivity].
    + destruct ((code =? 403) || (code =? 429)); [reflexivity|].
      destruct (code =? 404); [discriminate|reflexivity].
Qed.

Lemma paused_after b a r w : paused w (pause_after random b a r w).
Proof.
  unfold pause_after. destruct r as [code body| | |].
  - destruct (code =? 200); [apply paused_sleep|].
    destruct ((code =? 403) || (code =? 429));
      [apply paused_rate_limited|apply paused_server_error].
  - apply paused_timeout.
  - apply paused_connection_error.
  - apply paused_sleep.
Qed.

(** What a retry loop that returned has consumed and produced. *)
Lemma attempt_loop_ok b u acc attempts w ex w' :
  attempt_loop random b u acc attempts w = Ok ex w' ->
  exists used evs,
    script w = used ++ script w' /\
    trace w' = trace w ++ evs /\
    forallb is_request_event evs = true /\
    same_files w w' /\
    exit_shape acc (length attempts) used ex.
Proof.
  revert w. induction attempts as [|a attempts IH]; intros w H.
  - injection H as <- <-. exists [], []. rewrite app_nil_r. simpl.
    repeat split; reflexivity.
  - destruct (script w) as [|r rs] eqn:Es.
    { simpl in H. unfold bind, requests_get in H. rewrite Es in H. discriminate. }
    destruct (attempt_loop_step b u acc a attempts r rs w Es) as [Hexit Hfail].
    destruct (is_failure r) eqn:Hf.
    + rewrite (Hfail eq_refl) in H. apply bind_ok in H as ([] & w2 & Hsl & H).
      destruct (paused_ok _ _ _ _ (paused_after _ _ _ _) Hsl)
        as (d & Hs2 & Ht2 & Hsf2).
      apply IH in H as (used & evs & Hs' & Ht' & Hev' & Hsf' & Hex).
      exists (r :: used), (EvGet u :: EvSleep d :: evs).
      simpl in Hs2, Ht2. rewrite Hs2 in Hs'. rewrite Hs'.
      split; [reflexivity|].
      split. { rewrite Ht', Ht2, <- !app_assoc. reflexivity. }
      split. { simpl. exact Hev'. }
      split. { apply (same_files_trans _ w2); [|exact Hsf']. apply Hsf2. }
      now apply exit_shape_cons.
    + destruct r as [code [data|]| | |]; simpl in Hf; try discriminate.
      * destruct (Z.eqb_spec code 200) as [->|H200].
        -- rewrite Hexit in H. injection H as <- <-.
           exists [Http 200 (Some data)], [EvGet u].
           simpl. repeat split; auto.
           exists [], data. simpl. repeat split; auto; lia.
        -- destruct (Z.eqb_spec code 404) as [->|H404]; [|discriminate].
           rewrite Hexit in H. injection H as <- <-.
           exists [Http 404 (Some data)], [EvGet u].
           simpl. repeat split; auto.
           exists [], (Some data). simpl. repeat split; auto; lia.
      * destruct (Z.eqb_spec code 200) as [->|H200]; [discriminate|].
        destruct (Z.eqb_spec code 404) as [->|H404]; [|discriminate].
        rewrite Hexit in H. injection H as <- <-.
        exists [Http 404 None], [EvGet u].
        simpl. repeat split; auto.
        exists [], None. simpl. repeat split; auto; lia.
Qed.

Lemma failures_no_comments fs :
  forallb is_failure fs = true -> flat_map reply_comments fs = [].
Proof.
  induction fs as [|r fs IH]; simpl; [reflexivity|].
  intros H. apply andb_prop in H as [Hr Hfs]. rewrite (IH Hfs), app_nil_r.
  destruct r as [code [pg|]| | |]; simpl in *; try reflexivity.
  destruct (code =? 200); [discriminate|reflexivity].
Qed.

Lemma failures_no_pages fs :
  forallb is_failure fs = true -> filter is_page fs = [].
Proof.
  induction fs as [|r fs IH]; simpl; [reflexivity|].
  intros H. apply andb_prop in H as [Hr Hfs].
  rewrite filter_cons, (IH Hfs).
  destruct r as [code [pg|]| | |]; simpl in *; try reflexivity.
  destruct (code =? 200); [discriminate|reflexivity].
Qed.

Lemma pages_in_app us vs : pages_in (us ++ vs) = pages_in us + pages_in vs.
Proof. unfold pages_in, len. rewrite filter_app, length_app. lia. Qed.

Lemma pages_in_failures fs : forallb is_failure fs = true -> pages_in fs = 0.
Proof. intros H. unfold pages_in. now rewrite failures_no_pages. Qed.

Lemma pages_in_page data : pages_in [Http 200 (Some data)] = 1.
Proof. reflexivity. Qed.

Lemma log_error_ok post_id msg w :
  log_error clock post_id msg w =
  Ok tt (let line := "[" +:+ clock (ticks w) +:+ "] post_id=" +:+ post_id
                     +:+ " | " +:+ msg +:+ newline in
         set_errors_log (errors_log w ++ [line])
           (emit (EvLogError line) (set_ticks (S (ticks w)) w))).
Proof. reflexivity. Qed.

(** What a fetch loop that returned has consumed and produced. *)
Lemma while_url_ok fuel post_id dl mr b url page acc w cs st w' :
  while_url clock random fuel post_id dl mr b url page acc w = Ok (cs, st) w' ->
  exists used evs,
    script w = used ++ script w' /\
    trace w' = trace w ++ evs /\
    forallb is_fetch_event evs = true /\
    checkpoint_file w' = checkpoint_file w /\
    tmp_file w' = tmp_file w /\
    batch_files w' = batch_files w /\
    cs = acc ++ flat_map reply_comments used /\
    fetch_end clock w w' post_id mr url page used st.
Proof.
  revert url page acc w.
  induction fuel as [|fuel IH]; intros url page acc w H.
  - destruct url as [[|c s]|]; simpl in H; try discriminate;
      injection H as <- <- <-; exists [], []; rewrite !app_nil_r;
      (repeat split; try reflexivity); left; repeat split; left; auto.
  - destruct url as [[|c s]|];
      [injection H as <- <- <-; exists [], []; rewrite !app_nil_r;
        (repeat split; try reflexivity); left; repeat split; left; auto| |
       injection H as <- <- <-; exists [], []; rewrite !app_nil_r;
        (repeat split; try reflexivity); left; repeat split; left; auto].
    simpl in H. apply bind_ok in H as (ex & w1 & Hloop & H).
    apply attempt_loop_ok in Hloop
      as (used1 & evs1 & Hs1 & Ht1 & Hev1 & (Htk1 & Hc1 & Htm1 & He1 & Hb1) & Hex).
    assert (Hev1' : forallb is_fetch_event evs1 = true).
    { clear -Hev1. induction evs1 as [|e evs1 IHe]; [reflexivity|].
      simpl in *. apply andb_prop in Hev1 as [He Hevs]. rewrite (IHe Hevs).
      destruct e; try discriminate; reflexivity. }
    destruct ex as [acc' url'| |].
    + destruct Hex as (fs & pg & -> & Hfs & Hl & -> & ->).
      apply bind_ok in H as ([] & w2 & Hsl & H).
      assert (Hw2 : exists evs2, trace w2 = trace w1 ++ evs2 /\
                forallb is_fetch_event evs2 = true /\ script w2 = script w1 /\
                checkpoint_file w2 = checkpoint_file w1 /\ tmp_file w2 = tmp_file w1 /\
                batch_files w2 = batch_files w1 /\ errors_log w2 = errors_log w1 /\
                ticks w2 = ticks w1).
      { destruct (truthy (next_page pg)).
        - apply sleep_inv in Hsl. subst w2. exists [EvSleep dl]. repeat split.
        - injection Hsl as <-. exists []. rewrite app_nil_r. repeat split. }
      destruct Hw2 as (evs2 & Ht2 & Hev2 & Hs2 & Hc2 & Htm2 & Hb2 & He2 & Htk2).
      apply IH in H as (used3 & evs3 & Hs3 & Ht3 & Hev3 & Hc3 & Htm3 & Hb3 & Hcs & Hend).
      exists ((fs ++ [Http 200 (Some pg)]) ++ used3), (evs1 ++ evs2 ++ evs3).
      split. { rewrite Hs1, <- Hs2, Hs3, <- !app_assoc. reflexivity. }
      split. { rewrite Ht3, Ht2, Ht1, <- !app_assoc. reflexivity. }
      split. { rewrite !forallb_app, Hev1', Hev2, Hev3. reflexivity. }
      split; [congruence|]. split; [congruence|]. split; [congruence|].
      split. { rewrite Hcs, !flat_map_app, (failures_no_comments _ Hfs). simpl.
               rewrite app_nil_r, <- app_assoc. reflexivity. }
      assert (Hp : forall us, pages_in ((fs ++ [Http 200 (Some pg)]) ++ us)
                              = 1 + pages_in us).
      { intros us. rewrite !pages_in_app, (pages_in_failures _ Hfs), pages_in_page. lia. }
      destruct Hend as [(-> & Hok & He & Htk)|[(-> & Hnf & He & Htk)|(-> & Hfl & He & Htk)]].
      * left. split; [reflexivity|]. split; [|split; congruence].
        destruct Hok as [[-> Hu]|(used' & data & -> & Hu)].
        -- right. exists fs, pg. rewrite app_nil_r. auto.
        -- right. exists ((fs ++ [Http 200 (Some pg)]) ++ used'), data.
           rewrite <- !app_assoc. auto.
      * right; left. split; [reflexivity|]. split; [|split; congruence].
        destruct Hnf as (used' & body & ->).
        exists ((fs ++ [Http 200 (Some pg)]) ++ used'), body.
        rewrite <- !app_assoc. reflexivity.
      * right; right. rewrite Hp.
        replace (page + 1 + (1 + pages_in used3)) with (page + 1 + 1 + pages_in used3) by lia.
        split; [reflexivity|]. split; [|split; congruence].
        destruct Hfl as (used' & fs' & -> & Hfs' & Hl' & Hpg).
        exists ((fs ++ [Http 200 (Some pg)]) ++ used'), fs'.
        rewrite <- !app_assoc. repeat split; auto.
        rewrite !app_assoc, <- (app_assoc _ used' fs'), !Hp. lia.
    + injection H as <- <- <-. destruct Hex as (fs & body & -> & Hfs & Hl).
      exists (fs ++ [Http 404 body]), evs1.
      repeat split; auto.
      * rewrite flat_map_app, (failures_no_comments _ Hfs). simpl.
        destruct body; simpl; now rewrite ?app_nil_r.
      * right; left. repeat split; auto. exists fs, body. reflexivity.
    + destruct Hex as (Hfs & Hl).
      apply bind_ok in H as ([] & w2 & Hlog & H). rewrite log_error_ok in Hlog.
      injection Hlog as <-. injection H as <- <- <-.
      exists used1, (evs1 ++ [EvLogError (error_line (clock (ticks w1)) post_id mr (page + 1))]).
      split; [exact Hs1|].
      split. { simpl. rewrite Ht1, <- app_assoc. reflexivity. }
      split. { rewrite forallb_app, Hev1'. reflexivity. }
      split; [exact Hc1|]. split; [exact Htm1|]. split; [exact Hb1|].
      split. { now rewrite (failures_no_comments _ Hfs), app_nil_r. }
      right; right. rewrite (pages_in_failures _ Hfs), Z.add_0_r.
      split; [reflexivity|].
      split. { exists [], used1. simpl. repeat split; auto.
               now rewrite (pages_in_failures _ Hfs). }
      simpl. rewrite He1, Htk1. split; reflexivity.
Qed.

(** *** Running the loops forward *)

Lemma inject_Z_nonneg (z : Z) : 0 <= z -> (0 <= inject_Z z)%Q.
Proof. intros H. unfold Qle. simpl. lia. Qed.

Lemma uniform_nonneg (hi : Q) (i : nat) :
  (0 <= hi)%Q -> (0 <= random i)%Q -> (0 <= 0 + (hi - 0) * random i)%Q.
Proof.
  intros Hhi Hr. assert (0 <= hi * random i)%Q by now apply Qmult_le_0_compat.
  lra.
Qed.

Lemma uniform_le (hi : Q) (i : nat) :
  (0 <= hi)%Q -> (random i < 1)%Q -> (0 + (hi - 0) * random i <= hi)%Q.
Proof.
  intros Hhi Hr.
  assert (hi * random i <= hi * 1)%Q.
  { rewrite !(Qmult_comm hi). apply Qmult_le_compat_r; [lra|exact Hhi]. }
  lra.
Qed.

Lemma inject_Z_pow_nonneg (a : Z) : (0 <= inject_Z (2 ^ (a - 1)))%Q.
Proof. apply inject_Z_nonneg, Z.pow_nonneg. lia. Qed.

(** A duration below one that can be slept can be slept. *)
Lemma can_sleep_below (d hi : Q) :
  can_sleep hi = true -> (0 <= d <= hi)%Q -> can_sleep d = true.
Proof.
  rewrite !can_sleep_spec. unfold NS_PER_SECOND.
  intros (H0 & H1 & H2) [Hlo Hhi]. repeat split; lra.
Qed.

Lemma attempt_fits_spec (b : Q) (a : Z) :
  attempt_fits b a = true ->
  fits_float a = true /\ can_sleep (b * inject_Z a) = true /\
  fits_float (2 ^ (a - 1)) = true /\
  can_sleep (b * inject_Z (2 ^ (a - 1)) + 5) = true.
Proof.
  unfold attempt_fits. rewrite !Bool.andb_true_iff. tauto.
Qed.

Lemma fetch_fits_spec (dl : Q) (mr : Z) (b : Q) :
  fetch_fits dl mr b = true ->
  can_sleep dl = true /\ can_sleep b = true /\
  forallb (attempt_fits b) (py_range 1 (mr + 1) 1) = true.
Proof.
  unfold fetch_fits, waits_fit. rewrite !Bool.andb_true_iff. tauto.
Qed.

Lemma post_fits_spec (a : args) :
  post_fits a = true ->
  fetch_fits (delay a) (max_retries a) (backoff_base a) = true /\
  can_sleep (delay a) = true /\ can_sleep (delay a + (2 # 10)) = true.
Proof.
  unfold post_fits. rewrite !Bool.andb_true_iff. intros [Hf Hd].
  destruct (fetch_fits_spec _ _ _ Hf) as (H & _). auto.
Qed.

Lemma run_fits_spec (a : args) :
  run_fits a = true ->
  post_fits a = true /\
  can_sleep (batch_delay a) = true /\ can_sleep (batch_delay a + 2) = true.
Proof. unfold run_fits. rewrite !Bool.andb_true_iff. tauto. Qed.

Section Forward.
Variable b : Q.
Hypothesis b_fits : can_sleep b = true.
Hypothesis random_unit : unit_interval random.

Lemma b_nonneg : (0 <= b)%Q.
Proof using b_fits. now apply can_sleep_spec in b_fits as (H & _). Qed.

(** Within these bounds the pause after a failed attempt returns. *)
Lemma pause_after_returns a r w :
  attempt_fits b a = true ->
  exists d n,
    pause_after random b a r w = Ok tt (emit (EvSleep d) (set_draws n w)).
Proof using b_fits random_unit.
  intros Ha. apply attempt_fits_spec in Ha as (Fa & Sa & Fp & Sp).
  assert (Hsleep : exists d n, sleep b w = Ok tt (emit (EvSleep d) (set_draws n w))).
  { exists b, (draws w). now rewrite (sleep_ok _ _ b_fits). }
  unfold pause_after. destruct r as [code body| | |]; try exact Hsleep.
  - destruct (code =? 200); [exact Hsleep|].
    destruct ((code =? 403) || (code =? 429)).
    + apply sleep_in_try_ok; [exact b_fits|]. intros w0. apply drawn_wait_rate_limited.
    + apply sleep_in_try_ok; [exact b_fits|]. intros w0. apply drawn_wait_server_error.
  - unfold sleep_for, bind.
    destruct (wait_timeout_cases b a w) as [[_ ->]|[E _]]; [|congruence].
    rewrite (sleep_ok _ _ Sa). eexists _, (draws w). reflexivity.
  - unfold sleep_for, bind.
    destruct (wait_connection_error_cases b a w) as [[_ ->]|[E _]]; [|congruence].
    rewrite sleep_ok; [eexists _, _; reflexivity|].
    apply (can_sleep_below _ _ Sp).
    destruct (random_unit (draws w)) as [H0 H1].
    pose proof (uniform_nonneg 5 (draws w) ltac:(lra) H0).
    pose proof (uniform_le 5 (draws w) ltac:(lra) H1).
    pose proof (Qmult_le_0_compat _ _ b_nonneg (inject_Z_pow_nonneg a)). lra.
Qed.

(** One failed attempt: the loop sleeps and goes on to the next attempt. *)
Lemma attempt_loop_failure u acc a attempts r rs w :
  script w = r :: rs -> is_failure r = true -> attempt_fits b a = true ->
  exists w1 evs,
    attempt_loop random b u acc (a :: attempts) w =
      attempt_loop random b u acc attempts w1 /\
    script w1 = rs /\ same_files w w1 /\
    trace w1 = trace w ++ evs /\ forallb is_request_event evs = true.
Proof using b_fits random_unit.
  intros Hs Hr Ha.
  destruct (attempt_loop_step b u acc a attempts r rs w Hs) as [_ Hfail].
  rewrite (Hfail Hr).
  destruct (pause_after_returns a r (set_script rs (emit (EvGet u) w)) Ha)
    as (d & n & Hp).
  unfold bind. rewrite Hp.
  eexists _, [EvGet u; EvSleep d]. split; [reflexivity|].
  simpl. rewrite <- app_assoc. repeat split.
Qed.

(** A run of failed attempts. *)
Lemma attempt_loop_failures u acc fs : forall attempts rest w,
  script w = fs ++ rest -> forallb is_failure fs = true ->
  (length fs <= length attempts)%nat -> forallb (attempt_fits b) attempts = true ->
  exists w1 evs,
    attempt_loop random b u acc attempts w =
      attempt_loop random b u acc (drop (length fs) attempts) w1 /\
    script w1 = rest /\ same_files w w1 /\
    trace w1 = trace w ++ evs /\ forallb is_request_event evs = true.
Proof using b_fits random_unit.
  induction fs as [|r fs IH]; intros attempts rest w Hs Hfs Hl Hpos.
  - exists w, []. rewrite app_nil_r. simpl. rewrite drop_0.
    repeat split; auto.
  - destruct attempts as [|a attempts]; [simpl in Hl; lia|].
    simpl in Hfs. apply andb_prop in Hfs as [Hr Hfs].
    simpl in Hpos. apply andb_prop in Hpos as [Ha Hpos'].
    destruct (attempt_loop_failure u acc a attempts r (fs ++ rest) w Hs Hr Ha)
      as (w1 & evs1 & -> & Hs1 & Hf1 & Ht1 & He1).
    destruct (IH attempts rest w1 Hs1 Hfs ltac:(simpl in Hl; lia) Hpos')
      as (w2 & evs2 & -> & Hs2 & Hf2 & Ht2 & He2).
    exists w2, (evs1 ++ evs2). simpl.
    split; [reflexivity|]. split; [exact Hs2|].
    split; [eauto using same_files_trans|].
    split. { rewrite Ht2, Ht1, <- app_assoc. reflexivity. }
    rewrite forallb_app, He1, He2. reflexivity.
Qed.

(** The attempt numbers of one page. *)
Lemma attempts_length (mr : Z) : length (py_range 1 (mr + 1) 1) = Z.to_nat mr.
Proof.
  unfold py_range. simpl. rewrite length_map, length_seq, Z.div_1_r.
  f_equal. lia.
Qed.

Lemma attempts_nonneg (mr : Z) : Forall (fun a => 0 <= a) (py_range 1 (mr + 1) 1).
Proof.
  unfold py_range. simpl. apply Forall_forall. intros a Ha.
  apply list_elem_of_In, in_map_iff in Ha as (i & <- & _). lia.
Qed.

Lemma forallb_drop {A} (f : A -> bool) (k : nat) (l : list A) :
  forallb f l = true -> forallb f (drop k l) = true.
Proof.
  revert l. induction k as [|k IH]; intros [|x l]; simpl; auto.
  intros H. apply andb_prop in H as [_ H]. now apply IH.
Qed.

Lemma attempts_lookup (mr : Z) (k : nat) :
  (k < Z.to_nat mr)%nat ->
  exists rest, drop k (py_range 1 (mr + 1) 1) = (Z.of_nat k + 1) :: rest.
Proof.
  intros Hk. unfold py_range. simpl. rewrite Z.div_1_r.
  replace (Z.to_nat (mr + 1 - 1 + 1 - 1)) with (Z.to_nat mr) by (f_equal; lia).
  rewrite <- fmap_drop, drop_seq.
  destruct (Z.to_nat mr - k)%nat eqn:E; [lia|]. simpl.
  eexists. f_equal. lia.
Qed.

(** A successful attempt leaves the loop. *)
Lemma attempt_loop_page u acc a attempts data rs w :
  script w = Http 200 (Some data) :: rs ->
  attempt_loop random b u acc (a :: attempts) w =
    Ok (Break (acc ++ page_comments data) (next_page data))
       (set_script rs (emit (EvGet u) w)).
Proof. intros Hs. simpl. unfold bind, requests_get. now rewrite Hs. Qed.

(** A 404 returns at once. *)
Lemma attempt_loop_404 u acc a attempts body rs w :
  script w = Http 404 body :: rs ->
  attempt_loop random b u acc (a :: attempts) w =
    Ok Return404 (set_script rs (emit (EvGet u) w)).
Proof. intros Hs. simpl. unfold bind, requests_get. now rewrite Hs. Qed.

Variable post_id : string.
Variable dl : Q.
Variable mr : Z.
Hypothesis dl_fits : can_sleep dl = true.
Hypothesis mr_fits : forallb (attempt_fits b) (py_range 1 (mr + 1) 1) = true.

Lemma truthy_inv (url : option string) :
  truthy url = true -> exists c s, url = Some (String c s).
Proof. destruct url as [[|c s]|]; try discriminate. eauto. Qed.

Lemma request_events_fetch evs :
  forallb is_request_event evs = true -> forallb is_fetch_event evs = true.
Proof.
  induction evs as [|e evs IH]; [reflexivity|]. simpl.
  intros H. apply andb_prop in H as [He Hevs]. rewrite (IH Hevs).
  destruct e; try discriminate; reflexivity.
Qed.



(** A page is fetched, possibly after failed attempts; the loop goes round
    with the cursor of that page. *)
Lemma while_url_page fuel url page acc fs data rest w :
  truthy url = true -> script w = fs ++ Http 200 (Some data) :: rest ->
  forallb is_failure fs = true -> (length fs < Z.to_nat mr)%nat ->
  exists w' evs,
    while_url clock random (S fuel) post_id dl mr b url page acc w =
      while_url clock random fuel post_id dl mr b (next_page data) (page + 1)
                (acc ++ page_comments data) w' /\
    script w' = rest /\ same_files w w' /\
    trace w' = trace w ++ evs /\ forallb is_fetch_event evs = true.
Proof using b_fits random_unit dl_fits mr_fits.
  intros Hu Hs Hfs Hl.
  apply truthy_inv in Hu as (c & s & ->). simpl.
  destruct (attempt_loop_failures (String c s) acc fs (py_range 1 (mr + 1) 1) _ w
              Hs Hfs ltac:(rewrite attempts_length; lia) mr_fits)
    as (w1 & evs & Hloop & Hs1 & Hsf & Ht & Hev).
  destruct (attempts_lookup mr (length fs) Hl) as (attempts' & Hdrop).
  rewrite Hdrop in Hloop.
  rewrite (attempt_loop_page _ _ _ _ _ _ _ Hs1) in Hloop.
  unfold bind at 1. rewrite Hloop.
  apply request_events_fetch in Hev.
  destruct (truthy (next_page data)).
  - unfold bind. rewrite (sleep_ok _ _ dl_fits).
    eexists _, (evs ++ [EvGet (String c s); EvSleep dl]).
    split; [reflexivity|]. simpl. rewrite Ht, <- !app_assoc.
    repeat split; try apply Hsf. rewrite forallb_app, Hev. reflexivity.
  - unfold bind, ret.
    eexists _, (evs ++ [EvGet (String c s)]).
    split; [reflexivity|]. simpl. rewrite Ht, <- !app_assoc.
    repeat split; try apply Hsf. rewrite forallb_app, Hev. reflexivity.
Qed.

Lemma while_url_rounds rounds : forall fuel url page acc rest w,
  truthy url = true -> script w = flat_map round_replies rounds ++ rest ->
  Forall (round_ok mr) rounds ->
  exists w' evs,
    while_url clock random (length rounds + fuel) post_id dl mr b url page acc w =
      while_url clock random fuel post_id dl mr b (cursor_after url rounds)
                (page + len rounds) (acc ++ flat_map round_comments rounds) w' /\
    script w' = rest /\ same_files w w' /\
    trace w' = trace w ++ evs /\ forallb is_fetch_event evs = true /\
    truthy (cursor_after url rounds) = true.
Proof using b_fits random_unit dl_fits mr_fits.
  induction rounds as [|[fs data] rounds IH]; intros fuel url page acc rest w Hu Hs Hok.
  - exists w, []. simpl. rewrite !app_nil_r, Z.add_0_r.
    repeat split; auto.
  - inversion Hok as [|? ? (Hfs & Hl & Hnext) Hok']; subst. simpl in Hfs, Hl, Hnext.
    unfold round_replies in Hs. simpl in Hs. rewrite <- !app_assoc in Hs. simpl in Hs.
    change (length ((fs, data) :: rounds) + fuel)%nat with (S (length rounds + fuel)).
    change (cursor_after url ((fs, data) :: rounds))
      with (cursor_after (next_page data) rounds).
    destruct (while_url_page (length rounds + fuel) url page acc fs data _ w Hu Hs Hfs Hl)
      as (w1 & evs1 & -> & Hs1 & Hsf1 & Ht1 & Hev1).
    destruct (IH fuel (next_page data) (page + 1) (acc ++ page_comments data) rest w1
                Hnext Hs1 Hok') as (w2 & evs2 & -> & Hs2 & Hsf2 & Ht2 & Hev2 & Hu2).
    exists w2, (evs1 ++ evs2).
    split. { f_equal; [unfold len; simpl length; lia|].
             unfold round_comments at 2. simpl. now rewrite <- app_assoc. }
    split; [exact Hs2|]. split; [eauto using same_files_trans|].
    split. { rewrite Ht2, Ht1, <- app_assoc. reflexivity. }
    split; [|exact Hu2]. rewrite forallb_app, Hev1, Hev2. reflexivity.
Qed.



End Forward.

(** *** One call of the fetcher *)

Lemma download_ok post_id dl mr b w cs st w' :
  download_comments_for_post clock random post_id dl mr b w = Ok (cs, st) w' ->
  exists used evs,
    script w = used ++ script w' /\
    trace w' = trace w ++ EvCall post_id :: evs /\
    forallb is_fetch_event evs = true /\
    checkpoint_file w' = checkpoint_file w /\
    tmp_file w' = tmp_file w /\
    batch_files w' = batch_files w /\
    cs = flat_map reply_comments used /\
    fetch_end clock w w' post_id mr (Some (initial_url post_id)) 0 used st.
Proof.
  unfold download_comments_for_post. intros H.
  apply while_url_ok in H as (used & evs & Hs & Ht & Hev & Hc & Htm & Hb & Hcs & Hend).
  exists used, evs. simpl in *. rewrite <- app_assoc in Ht.
  repeat split; auto.
Qed.

Lemma fetch_end_status w w' post_id mr url page used st :
  fetch_end clock w w' post_id mr url page used st -> fetch_status st.
Proof.
  intros [(-> & _)|[(-> & _)|(-> & _)]]; unfold fetch_status; eauto.
Qed.

(** *** One post *)

Lemma save_checkpoint_ok c w :
  save_checkpoint clock c w =
  Ok (Checkpoint (completed_post_ids c) (total_comments_downloaded c)
                 (Some (clock (ticks w))))
     (let c' := Checkpoint (completed_post_ids c) (total_comments_downloaded c)
                           (Some (clock (ticks w))) in
      set_checkpoint_file (Some c')
        (set_tmp_file None
           (emit EvRename
              (set_tmp_file (Some c')
                 (emit (EvWriteTmp c') (set_ticks (S (ticks w)) w)))))).
Proof. reflexivity. Qed.

Lemma process_post_ok a info st w st' w' :
  process_post clock random a info st w = Ok st' w' ->
  exists il,
    il_info il = info /\ item_ok il /\
    completed st' = completed st ∪ {[item_id il]} /\
    total_comments st' = total_comments st + len (il_comments il) /\
    batch_num st' = batch_num st /\
    errors_count st' = errors_count st + item_errors il /\
    batch_results st' = batch_results st ++ [item_entry il] /\
    batch_comments st' = batch_comments st + len (il_comments il) /\
    synced st' w' /\
    trace w' = trace w ++ item_trace il /\
    batch_files w' = batch_files w.
Proof.
  unfold process_post. intros H.
  apply bind_ok in H as ([cs status] & w1 & Hdl & H).
  apply download_ok in Hdl
    as (used & evs & Hs & Ht & Hev & Hc & Htm & Hb & Hcs & Hend).
  rewrite int_str in H. simpl in H.
  apply bind_ok in H as (n & w1' & Hn & H). injection Hn as <- <-.
  apply bind_ok in H as (c & w2 & Hsave & H).
  rewrite save_checkpoint_ok in Hsave. injection Hsave as <- <-.
  apply bind_ok in H as (j & w3 & Hj & H). injection Hj as <- <-.
  apply bind_ok in H as ([] & w4 & Hsl & H). apply sleep_inv in Hsl. subst w4.
  injection H as <- <-.
  eexists (ItemLog info cs status evs
             (Checkpoint (elements (completed st ∪ {[str (post_id info)]}))
                         (total_comments st + len cs) (Some (clock (ticks w1)))) _).
  split; [reflexivity|].
  split. { split; [exact Hev|]. split; [eapply fetch_end_status; eauto|].
           unfold item_id. simpl. apply elem_of_elements, elem_of_union_r.
           now apply elem_of_singleton. }
  simpl. unfold item_id, item_errors, is_error, item_trace, item_id, synced. simpl.
  repeat split; auto.
  - destruct (negb _ && negb _); lia.
  - rewrite Ht, <- !app_assoc. simpl. reflexivity.
Qed.
End Facts.

(** *** The loops of [main] *)

Section MainFacts.
Variable clock : nat -> string.
Variable random : nat -> Q.
Context {os : platform}.
Variable a : args.

Lemma errors_in_app es1 es2 : errors_in (es1 ++ es2) = errors_in es1 + errors_in es2.
Proof. unfold errors_in, len. rewrite filter_app, length_app. lia. Qed.

Lemma errors_in_item il : errors_in [item_entry il] = item_errors il.
Proof.
  unfold errors_in, item_errors. rewrite filter_cons, filter_nil. simpl.
  destruct (is_error (il_status il)); destruct (decide _); try reflexivity; congruence.
Qed.

Lemma items_loop_ok ps : forall st w st' w',
  mfor (process_post clock random a) ps st w = Ok st' w' ->
  exists ils,
    map il_info ils = ps /\ Forall item_ok ils /\
    completed st' = completed st ∪ list_to_set (map item_id ils) /\
    batch_num st' = batch_num st /\
    errors_count st' = errors_count st + errors_in (map item_entry ils) /\
    batch_results st' = batch_results st ++ map item_entry ils /\
    trace w' = trace w ++ flat_map item_trace ils /\
    batch_files w' = batch_files w /\
    (synced st w \/ ps <> [] -> synced st' w').
Proof.
  induction ps as [|p ps IH]; intros st w st' w' H.
  - injection H as <- <-. exists []. simpl. rewrite !app_nil_r.
    split; [reflexivity|]. split; [constructor|].
    split; [now rewrite (right_id_L ∅ (∪))|].
    split; [reflexivity|]. split; [unfold errors_in, len; simpl; lia|].
    split; [reflexivity|]. split; [reflexivity|]. split; [reflexivity|].
    intros [Hs|Hne]; [exact Hs|congruence].
  - simpl in H. apply bind_ok in H as (st1 & w1 & Hp & H).
    apply process_post_ok in Hp
      as (il & Hinfo & Hok & Hc & _ & Hn & He & Hr & _ & Hsy & Ht & Hf).
    apply IH in H as (ils & Hinfos & Hoks & Hc' & Hn' & He' & Hr' & Ht' & Hf' & Hsy').
    exists (il :: ils). simpl.
    split; [congruence|]. split; [now constructor|].
    split. { rewrite Hc', Hc, (assoc_L (∪)). reflexivity. }
    split; [congruence|].
    split. { change (item_entry il :: map item_entry ils)
               with ([item_entry il] ++ map item_entry ils).
             rewrite errors_in_app, errors_in_item. lia. }
    split. { rewrite Hr', Hr, <- app_assoc. reflexivity. }
    split. { rewrite Ht', Ht, <- app_assoc. reflexivity. }
    split; [congruence|]. intros _. apply Hsy'. now left.
Qed.

Lemma synced_same st st' w w' :
  ckpt st' = ckpt st -> completed st' = completed st ->
  total_comments st' = total_comments st -> checkpoint_file w' = checkpoint_file w ->
  synced st w -> synced st' w'.
Proof. unfold synced. intros -> -> -> ->. auto. Qed.

Lemma process_batch_ok remaining start st w st' w' :
  process_batch clock random a remaining start st w = Ok st' w' ->
  exists bl,
    map il_info (bl_items bl) = py_slice remaining start (start + batch_size a) /\
    batch_ok bl /\
    completed st' = completed st ∪ list_to_set (map item_id (bl_items bl)) /\
    batch_num st' = batch_num st + 1 /\
    errors_count st' = errors_count st + errors_in (batch_entries bl) /\
    trace w' = trace w ++ batch_trace (batch_num st) bl /\
    batch_files w' =
      <[batch_file_name (batch_num st) := batch_entries bl]> (batch_files w) /\
    (synced st w \/ bl_items bl <> [] -> synced st' w').
Proof.
  unfold process_batch. intros H.
  apply bind_ok in H as (st1 & w1 & Hloop & H).
  apply items_loop_ok in Hloop
    as (ils & Hinfos & Hoks & Hc & Hn & He & Hr & Ht & Hf & Hsy).
  simpl in Hc, Hn, He, Hr, Ht, Hf.
  apply bind_ok in H as (file & w2 & Hsave & H).
  unfold save_batch in Hsave. injection Hsave as <- <-.
  apply bind_ok in H as ([] & w3 & Hpause & H). injection H as <- <-.
  assert (Hw3 : exists evs, forallb is_sleep evs = true /\
            trace w3 = trace w1 ++
              EvSaveBatch (batch_file_name (batch_num st1)) (batch_results st1) :: evs /\
            batch_files w3 =
              <[batch_file_name (batch_num st1) := batch_results st1]> (batch_files w1) /\
            checkpoint_file w3 = checkpoint_file w1).
  { destruct (_ <? _).
    - apply bind_ok in Hpause as (j & w4 & Hj & Hsl). injection Hj as <- <-.
      apply sleep_inv in Hsl. subst w3. eexists [EvSleep _].
      simpl. rewrite <- app_assoc. repeat split.
    - injection Hpause as <-. exists []. simpl. repeat split. }
  destruct Hw3 as (evs & Hevs & Ht3 & Hf3 & Hc3).
  exists (BatchLog ils evs). unfold batch_trace, batch_entries, batch_ok. simpl.
  split; [exact Hinfos|]. split; [split; assumption|].
  split; [exact Hc|]. split; [lia|]. split; [exact He|].
  split. { rewrite Ht3, Ht, Hr, Hn, <- app_assoc. reflexivity. }
  split. { rewrite Hf3, Hf, Hr, Hn. reflexivity. }
  intros Hpre.
  assert (Hs1 : synced st1 w1).
  { apply Hsy. destruct Hpre as [Hs|Hne].
    - left. revert Hs. now apply synced_same.
    - right. rewrite <- Hinfos. destruct ils; [congruence|discriminate]. }
  revert Hs1. now apply synced_same.
Qed.

Lemma batches_loop_ok remaining starts : forall st w st' w',
  mfor (process_batch clock random a remaining) starts st w = Ok st' w' ->
  exists bls,
    map (fun bl => map il_info (bl_items bl)) bls =
      map (fun s => py_slice remaining s (s + batch_size a)) starts /\
    Forall batch_ok bls /\
    completed st' = completed st ∪ list_to_set (map item_id (all_items bls)) /\
    batch_num st' = batch_num st + len bls /\
    errors_count st' = errors_count st + errors_in (map item_entry (all_items bls)) /\
    trace w' = trace w ++ batches_trace (batch_num st) bls /\
    batch_files w' = batches_files (batch_num st) bls (batch_files w) /\
    (synced st w \/ all_items bls <> [] -> synced st' w').
Proof.
  induction starts as [|s starts IH]; intros st w st' w' H.
  - injection H as <- <-. exists []. simpl. rewrite !app_nil_r.
    split; [reflexivity|]. split; [constructor|].
    split; [now rewrite (right_id_L ∅ (∪))|].
    split; [unfold len; simpl; lia|]. split; [unfold errors_in, len; simpl; lia|].
    split; [reflexivity|]. split; [reflexivity|].
    intros [Hs|Hne]; [exact Hs|congruence].
  - simpl in H. apply bind_ok in H as (st1 & w1 & Hb & H).
    apply process_batch_ok in Hb as (bl & Hsl & Hok & Hc & Hn & He & Ht & Hf & Hsy).
    apply IH in H as (bls & Hsls & Hoks & Hc' & Hn' & He' & Ht' & Hf' & Hsy').
    exists (bl :: bls). unfold all_items in *. simpl.
    split; [congruence|]. split; [now constructor|].
    split. { rewrite Hc', Hc, map_app, list_to_set_app_L, (assoc_L (∪)). reflexivity. }
    split. { unfold len in *. simpl length. lia. }
    split. { rewrite He', He, map_app, errors_in_app. unfold batch_entries. lia. }
    split. { rewrite Ht', Ht, Hn, <- app_assoc. reflexivity. }
    split. { rewrite Hf', Hf, Hn. reflexivity. }
    intros Hpre. apply Hsy'.
    destruct (bl_items bl) as [|il ils] eqn:E.
    + destruct Hpre as [Hs|Hne]; [left; apply Hsy; now left | right; exact Hne].
    + left. apply Hsy. right. discriminate.
Qed.


(** The batches cut by [range(0, len(remaining), batch_size)] and the slices
    [remaining[batch_start:batch_start + batch_size]] cover [remaining]. *)
Lemma py_range_batches (n bs : Z) :
  0 < bs ->
  py_range 0 n bs =
  map (fun i => Z.of_nat i * bs) (seq 0 (Z.to_nat ((n + bs - 1) / bs))).
Proof.
  intros Hbs. unfold py_range. destruct (Z.ltb_spec 0 bs); [|lia].
  rewrite Z.sub_0_r. apply map_ext. intros i. lia.
Qed.

Lemma py_slice_batch {A} (l : list A) (i : nat) (bs : Z) :
  0 < bs ->
  py_slice l (Z.of_nat i * bs) (Z.of_nat i * bs + bs) =
  take (Z.to_nat bs) (drop (i * Z.to_nat bs) l).
Proof.
  intros Hbs. unfold py_slice. f_equal; [f_equal; lia|]. f_equal. lia.
Qed.

Lemma concat_batches {A} (l : list A) (B : nat) (k : nat) : forall j,
  concat (map (fun i => take B (drop (i * B) l)) (seq j k)) =
  take (k * B) (drop (j * B) l).
Proof.
  induction k as [|k IH]; intros j; [reflexivity|].
  simpl. rewrite IH.
  replace (S j * B)%nat with (j * B + B)%nat by lia.
  rewrite <- drop_drop. apply take_take_drop.
Qed.

Lemma slices_concat {A} (l : list A) (bs : Z) :
  0 < bs ->
  concat (map (fun s => py_slice l s (s + bs)) (py_range 0 (len l) bs)) = l.
Proof.
  intros Hbs. rewrite py_range_batches by exact Hbs.
  rewrite map_map.
  rewrite (map_ext _ (fun i => take (Z.to_nat bs) (drop (i * Z.to_nat bs) l)))
    by (intros i; now apply py_slice_batch).
  rewrite concat_batches. simpl. apply take_ge.
  unfold len.
  assert (Z.of_nat (length l) <= (Z.of_nat (length l) + bs - 1) / bs * bs).
  { pose proof (Z.div_mod (Z.of_nat (length l) + bs - 1) bs ltac:(lia)).
    pose proof (Z.mod_pos_bound (Z.of_nat (length l) + bs - 1) bs Hbs). lia. }
  assert (0 <= (Z.of_nat (length l) + bs - 1) / bs).
  { apply Z.div_pos; lia. }
  nia.
Qed.

Lemma all_items_info bls :
  map il_info (all_items bls) =
  concat (map (fun bl => map il_info (bl_items bl)) bls).
Proof.
  unfold all_items. induction bls as [|bl bls IH]; [reflexivity|].
  simpl. now rewrite map_app, IH.
Qed.

Lemma main_start w :
  exists wr,
    (if reset a then reset_checkpoint else ret tt) w = Ok tt wr /\
    load_checkpoint wr = Ok (start_checkpoint a w) wr /\
    trace wr = trace w ++ reset_trace a w /\
    batch_files wr = batch_files w /\
    checkpoint_ids wr = list_to_set (completed_post_ids (start_checkpoint a w)) /\
    script wr = script w.
Proof.
  unfold start_checkpoint, reset_trace, reset_checkpoint, load_checkpoint, ret,
    checkpoint_ids.
  destruct (reset a); destruct (checkpoint_file w) as [c|] eqn:E;
    eexists; (split; [reflexivity|]); simpl; rewrite ?E, ?app_nil_r; auto.
Qed.

(** What a run of [main] that went through its loops did. *)
Lemma main_ok all_posts w st' w' :
  main clock random a (Some all_posts) w = Ok (Some st') w' ->
  0 < batch_size a ->
  let done : gset string :=
    list_to_set (completed_post_ids (start_checkpoint a w)) in
  let remaining := remaining_posts done all_posts in
  let n0 := Z.of_nat (size done) / batch_size a + 1 in
  exists bls,
    map (fun bl => map il_info (bl_items bl)) bls =
      map (fun s => py_slice remaining s (s + batch_size a))
          (py_range 0 (len remaining) (batch_size a)) /\
    map il_info (all_items bls) = remaining /\
    remaining <> [] /\
    Forall batch_ok bls /\
    completed st' = done ∪ list_to_set (map item_id (all_items bls)) /\
    batch_num st' = n0 + len bls /\
    errors_count st' = errors_in (map item_entry (all_items bls)) /\
    trace w' = trace w ++ reset_trace a w ++ batches_trace n0 bls /\
    batch_files w' = batches_files n0 bls (batch_files w) /\
    synced st' w'.
Proof.
  intros H Hbs done remaining n0. unfold main in H.
  destruct (main_start w) as (wr & Hreset & Hload & Htr & Hfr & _).
  apply bind_ok in H as ([] & wr' & Hr & H). rewrite Hreset in Hr. injection Hr as <-.
  apply bind_ok in H as (c & wr' & Hl & H). rewrite Hload in Hl. injection Hl as <- <-.
  fold done in H. fold remaining in H.
  destruct remaining as [|p ps] eqn:Erem; [discriminate|]. rewrite <- Erem in *.
  destruct (Z.eqb_spec (batch_size a) 0) as [|_]; [lia|].
  apply bind_ok in H as (st1 & w1 & Hloop & H). injection H as <- <-.
  apply batches_loop_ok in Hloop
    as (bls & Hsl & Hoks & Hc & Hn & He & Ht & Hf & Hsy).
  simpl in Hc, Hn, He, Ht, Hf.
  assert (Hinfo : map il_info (all_items bls) = remaining).
  { rewrite all_items_info, Hsl. now apply slices_concat. }
  exists bls. fold n0 in Hn, Ht, Hf.
  split; [exact Hsl|]. split; [exact Hinfo|]. split; [congruence|].
  split; [exact Hoks|]. split; [exact Hc|]. split; [exact Hn|].
  split; [lia|]. split. { rewrite Ht, Htr, <- app_assoc. reflexivity. }
  split; [congruence|].
  apply Hsy. right. intros E. rewrite E in Hinfo. simpl in Hinfo. congruence.
Qed.


(** The early return: nothing is left to download. *)
Lemma main_none all_posts w w' :
  main clock random a (Some all_posts) w = Ok None w' ->
  remaining_posts (list_to_set (completed_post_ids (start_checkpoint a w)))
                  all_posts = [] /\
  trace w' = trace w ++ reset_trace a w /\
  batch_files w' = batch_files w /\
  checkpoint_ids w' = list_to_set (completed_post_ids (start_checkpoint a w)).
Proof.
  intros H. unfold main in H.
  destruct (main_start w) as (wr & Hreset & Hload & Htr & Hfr & Hck & _).
  apply bind_ok in H as ([] & wr' & Hr & H). rewrite Hreset in Hr. injection Hr as <-.
  apply bind_ok in H as (c & wr' & Hl & H). rewrite Hload in Hl. injection Hl as <- <-.
  destruct (remaining_posts _ all_posts) as [|p ps]; [|].
  - injection H as <-. auto.
  - destruct (batch_size a =? 0); [discriminate|].
    apply bind_ok in H as (? & ? & _ & H). discriminate.
Qed.

(** Any run of [main] that returned, early or not. *)
Lemma main_run all_posts w r w' :
  main clock random a (Some all_posts) w = Ok r w' ->
  0 < batch_size a ->
  let done : gset string :=
    list_to_set (completed_post_ids (start_checkpoint a w)) in
  let remaining := remaining_posts done all_posts in
  let n0 := Z.of_nat (size done) / batch_size a + 1 in
  exists bls,
    map il_info (all_items bls) = remaining /\
    Forall batch_ok bls /\
    length bls = Z.to_nat ((len remaining + batch_size a - 1) / batch_size a) /\
    trace w' = trace w ++ reset_trace a w ++ batches_trace n0 bls /\
    batch_files w' = batches_files n0 bls (batch_files w).
Proof.
  intros H Hbs done remaining n0. destruct r as [st'|].
  - destruct (main_ok _ _ _ _ H Hbs)
      as (bls & Hsl & Hinfo & _ & Hoks & _ & _ & _ & Ht & Hf & _).
    exists bls. repeat split; auto.
    apply (f_equal length) in Hsl. rewrite !length_map in Hsl. rewrite Hsl.
    rewrite py_range_batches by exact Hbs. now rewrite length_map, length_seq.
  - apply main_none in H as (Hrem & Ht & Hf & _). exists [].
    unfold remaining, done. rewrite Hrem. simpl. rewrite app_nil_r.
    repeat split; auto.
    unfold len. simpl. rewrite Z.div_small by lia. reflexivity.
Qed.

(** *** Projections of the trace of a run *)

Lemma calls_app tr1 tr2 : calls (tr1 ++ tr2) = calls tr1 ++ calls tr2.
Proof. apply flat_map_app. Qed.

Lemma saved_files_app tr1 tr2 :
  saved_files (tr1 ++ tr2) = saved_files tr1 ++ saved_files tr2.
Proof. apply flat_map_app. Qed.

Lemma saved_entries_app tr1 tr2 :
  saved_entries (tr1 ++ tr2) = saved_entries tr1 ++ saved_entries tr2.
Proof. apply flat_map_app. Qed.

Lemma progress_app tr1 tr2 : progress (tr1 ++ tr2) = progress tr1 ++ progress tr2.
Proof. apply List.filter_app. Qed.

Lemma fetch_events_silent evs :
  forallb is_fetch_event evs = true ->
  calls evs = [] /\ saved_files evs = [] /\ saved_entries evs = [] /\
  progress evs = [].
Proof.
  induction evs as [|e evs IH]; [auto|]. simpl. intros H.
  apply andb_prop in H as [He Hevs]. destruct (IH Hevs) as (H1 & H2 & H3 & H4).
  unfold calls, saved_files, saved_entries, progress in *. simpl.
  rewrite H1, H2, H3, H4. destruct e; try discriminate; auto.
Qed.

Lemma sleeps_silent evs :
  forallb is_sleep evs = true ->
  calls evs = [] /\ saved_files evs = [] /\ saved_entries evs = [] /\
  progress evs = [].
Proof.
  intros H. apply fetch_events_silent.
  induction evs as [|e evs IH]; [reflexivity|]. simpl in *.
  apply andb_prop in H as [He Hevs]. rewrite (IH Hevs).
  destruct e; try discriminate; reflexivity.
Qed.

Lemma reset_trace_silent w :
  calls (reset_trace a w) = [] /\ saved_files (reset_trace a w) = [] /\
  saved_entries (reset_trace a w) = [] /\ progress (reset_trace a w) = [].
Proof.
  unfold reset_trace. destruct (reset a); [destruct (checkpoint_file w)|]; auto.
Qed.

Lemma item_trace_proj il :
  item_ok il ->
  calls (item_trace il) = [item_id il] /\ saved_files (item_trace il) = [] /\
  saved_entries (item_trace il) = [] /\
  progress (item_trace il) = item_progress il.
Proof.
  intros (Hev & _). destruct (fetch_events_silent _ Hev) as (H1 & H2 & H3 & H4).
  unfold item_trace.
  change (EvCall (item_id il) :: il_events il ++
          [EvWriteTmp (il_checkpoint il); EvRename; EvSleep (il_pause il)])
    with ([EvCall (item_id il)] ++ il_events il ++
          [EvWriteTmp (il_checkpoint il); EvRename; EvSleep (il_pause il)]).
  rewrite !calls_app, !saved_files_app, !saved_entries_app, !progress_app.
  rewrite H1, H2, H3, H4. auto.
Qed.

Lemma items_trace_proj ils :
  Forall item_ok ils ->
  calls (flat_map item_trace ils) = map item_id ils /\
  saved_files (flat_map item_trace ils) = [] /\
  saved_entries (flat_map item_trace ils) = [] /\
  progress (flat_map item_trace ils) = flat_map item_progress ils.
Proof.
  induction 1 as [|il ils Hil _ (H1 & H2 & H3 & H4)]; [auto|]. cbn [flat_map map].
  destruct (item_trace_proj il Hil) as (G1 & G2 & G3 & G4).
  rewrite calls_app, saved_files_app, saved_entries_app, progress_app.
  rewrite H1, H2, H3, H4, G1, G2, G3, G4. auto.
Qed.

Lemma batch_trace_proj n bl :
  batch_ok bl ->
  calls (batch_trace n bl) = map item_id (bl_items bl) /\
  saved_files (batch_trace n bl) = [batch_file_name n] /\
  saved_entries (batch_trace n bl) = batch_entries bl /\
  progress (batch_trace n bl) = flat_map item_progress (bl_items bl).
Proof.
  intros (Hitems & Hpause).
  destruct (items_trace_proj _ Hitems) as (H1 & H2 & H3 & H4).
  destruct (sleeps_silent _ Hpause) as (G1 & G2 & G3 & G4).
  unfold batch_trace.
  change (EvSaveBatch (batch_file_name n) (batch_entries bl) :: bl_pause bl)
    with ([EvSaveBatch (batch_file_name n) (batch_entries bl)] ++ bl_pause bl).
  rewrite !calls_app, !saved_files_app, !saved_entries_app, !progress_app.
  rewrite H1, H2, H3, H4, G1, G2, G3, G4. simpl. rewrite !app_nil_r. auto.
Qed.

Lemma batches_trace_proj bls : forall n,
  Forall batch_ok bls ->
  calls (batches_trace n bls) = map item_id (all_items bls) /\
  saved_files (batches_trace n bls) =
    map (fun i => batch_file_name (n + Z.of_nat i)) (seq 0 (length bls)) /\
  saved_entries (batches_trace n bls) = map item_entry (all_items bls) /\
  progress (batches_trace n bls) = flat_map item_progress (all_items bls).
Proof.
  induction bls as [|bl bls IH]; intros n Hok; [auto|].
  inversion Hok as [|? ? Hbl Hbls]; subst.
  destruct (batch_trace_proj n bl Hbl) as (G1 & G2 & G3 & G4).
  destruct (IH (n + 1) Hbls) as (H1 & H2 & H3 & H4).
  unfold all_items in *. cbn [flat_map batches_trace length seq map].
  rewrite calls_app, saved_files_app, saved_entries_app, progress_app.
  rewrite H1, H2, H3, H4, G1, G2, G3, G4, !map_app, flat_map_app.
  repeat split; auto. simpl. rewrite Z.add_0_r. f_equal.
  rewrite <- seq_shift, map_map. apply map_ext. intros i. f_equal. lia.
Qed.

End MainFacts.

(** *** Calls of the fetcher, whatever the outcome *)

Section Calls.
Variable clock : nat -> string.
Variable random : nat -> Q.
Context {os : platform}.

Lemma silent_step {A} (m : M A) :
  (forall w, calls (trace (world_of (m w))) = calls (trace w)) -> emits m [].
Proof.
  intros H w. exists []. rewrite H, app_nil_r.
  split; [reflexivity|]. split; [apply prefix_nil|reflexivity].
Qed.

Lemma emits_ret {A} (x : A) : emits (ret x) [].
Proof. apply silent_step. reflexivity. Qed.

Lemma emits_raise {A} (e : exn) : emits (raise (A := A) e) [].
Proof. apply silent_step. reflexivity. Qed.

Lemma emits_at_bind {A B} (m : M A) (k : A -> M B) w e1 e2 :
  emits_at m w e1 ->
  (forall x w1, m w = Ok x w1 -> emits_at (k x) w1 e2) ->
  emits_at (bind m k) w (e1 ++ e2).
Proof.
  intros (cs1 & Hc1 & Hp1 & Hok1) Hk. unfold emits_at, bind.
  destruct (m w) as [x w1|e w1|w1] eqn:E; simpl in *.
  - destruct (Hk x w1 eq_refl) as (cs2 & Hc2 & Hp2 & Hok2).
    rewrite (Hok1 I) in Hc1.
    exists (e1 ++ cs2). rewrite Hc2, Hc1, <- app_assoc.
    split; [reflexivity|]. split; [now apply prefix_app|].
    intros Hok. now rewrite (Hok2 Hok).
  - exists cs1. split; [exact Hc1|]. split; [|contradiction].
    now apply prefix_app_r.
  - exists cs1. split; [exact Hc1|]. split; [|contradiction].
    now apply prefix_app_r.
Qed.

Lemma emits_bind {A B} (m : M A) (k : A -> M B) e1 e2 :
  emits m e1 -> (forall x, emits (k x) e2) -> emits (bind m k) (e1 ++ e2).
Proof. intros Hm Hk w. apply emits_at_bind; [apply Hm|]. intros x w1 _. apply Hk. Qed.

(** A computation whose steps call nothing calls nothing. *)
Lemma silent_bind {A B} (m : M A) (k : A -> M B) :
  emits m [] -> (forall x, emits (k x) []) -> emits (bind m k) [].
Proof. intros Hm Hk. apply (emits_bind m k [] []); assumption. Qed.

(** A pause calls nothing. *)
Lemma silent_paused (m : M unit) : (forall w, paused w (m w)) -> emits m [].
Proof.
  intros Hp. apply silent_step. intros w. specialize (Hp w).
  destruct (m w) as [u w'|e w'|w']; simpl in *.
  - destruct Hp as (d & n & ->). simpl. rewrite calls_app. simpl. apply app_nil_r.
  - destruct Hp as (_ & n & ->). reflexivity.
  - destruct Hp.
Qed.

Lemma silent_sleep d : emits (sleep d) [].
Proof. apply silent_paused. intros w. apply paused_sleep. Qed.

Lemma silent_rate_limited b a :
  emits (sleep_in_try b (wait_rate_limited random b a)) [].
Proof. apply silent_paused. intros w. apply paused_rate_limited. Qed.

Lemma silent_server_error b a :
  emits (sleep_in_try b (wait_server_error random b a)) [].
Proof. apply silent_paused. intros w. apply paused_server_error. Qed.

Lemma silent_timeout b a : emits (sleep_for (wait_timeout b a)) [].
Proof. apply silent_paused. intros w. apply paused_timeout. Qed.

Lemma silent_connection_error b a :
  emits (sleep_for (wait_connection_error random b a)) [].
Proof. apply silent_paused. intros w. apply paused_connection_error. Qed.

Lemma silent_uniform lo hi : emits (random_uniform random lo hi) [].
Proof. apply silent_step. reflexivity. Qed.

Lemma silent_get url : emits (requests_get url) [].
Proof.
  apply silent_step. intros w. unfold requests_get.
  destruct (script w); simpl; [reflexivity|].
  rewrite calls_app. simpl. apply app_nil_r.
Qed.

Lemma silent_log_error post_id msg : emits (log_error clock post_id msg) [].
Proof.
  apply silent_step. intros w. rewrite log_error_ok. simpl.
  rewrite calls_app. simpl. apply app_nil_r.
Qed.

Lemma silent_save_checkpoint c : emits (save_checkpoint clock c) [].
Proof.
  apply silent_step. intros w. rewrite save_checkpoint_ok. simpl.
  rewrite !calls_app. simpl. now rewrite !app_nil_r.
Qed.

Lemma silent_save_batch results n : emits (save_batch results n) [].
Proof.
  apply silent_step. intros w. simpl. rewrite calls_app. simpl. apply app_nil_r.
Qed.

Create HintDb silent.
#[local] Hint Resolve emits_ret emits_raise silent_sleep silent_rate_limited
  silent_server_error silent_timeout silent_connection_error
  silent_uniform silent_get silent_log_error silent_save_checkpoint
  silent_save_batch : silent.

Ltac silent_steps :=
  repeat first
    [ apply silent_bind; [auto with silent|intros ?]
    | progress auto with silent ].

Lemma silent_attempt_loop b u acc attempts :
  emits (attempt_loop random b u acc attempts) [].
Proof.
  induction attempts as [|a attempts IH]; simpl; [auto with silent|].
  apply silent_bind; [auto with silent|]. intros [code body| | |].
  - destruct (code =? 200).
    + destruct body; silent_steps.
    + destruct ((code =? 403) || (code =? 429)); [silent_steps|].
      destruct (code =? 404); silent_steps.
  - silent_steps.
  - silent_steps.
  - silent_steps.
Qed.

Lemma silent_while_url fuel : forall post_id dl mr b url page acc,
  emits (while_url clock random fuel post_id dl mr b url page acc) [].
Proof.
  induction fuel as [|fuel IH]; intros post_id dl mr b url page acc.
  - destruct url as [[|c s]|]; simpl; auto with silent.
    apply silent_step. reflexivity.
  - destruct url as [[|c s]|]; simpl; auto with silent.
    apply silent_bind; [apply silent_attempt_loop|].
    intros [acc' url'| |].
    + apply silent_bind; [destruct (truthy url'); auto with silent|].
      intros _. apply IH.
    + auto with silent.
    + silent_steps.
Qed.

Lemma emits_download post_id dl mr b :
  emits (download_comments_for_post clock random post_id dl mr b) [post_id].
Proof.
  intros w. unfold download_comments_for_post.
  destruct (silent_while_url (S (length (script w))) post_id dl mr b
              (Some (initial_url post_id)) 0 [] (emit (EvCall post_id) w))
    as (cs & Hc & Hp & _).
  apply prefix_nil_inv in Hp. subst cs.
  exists [post_id]. split; [|split; [reflexivity|reflexivity]].
  rewrite Hc. simpl. rewrite calls_app, app_nil_r. reflexivity.
Qed.

Lemma emits_process_post a info st :
  emits (process_post clock random a info st) [str (post_id info)].
Proof.
  unfold process_post.
  change [str (post_id info)] with ([str (post_id info)] ++ []).
  apply emits_bind; [apply emits_download|]. intros fetched.
  rewrite int_str. silent_steps.
Qed.

Lemma emits_mfor {X S} (body : X -> S -> M S) (f : X -> list string) :
  (forall x s, emits (body x s) (f x)) ->
  forall xs s, emits (mfor body xs s) (flat_map f xs).
Proof.
  intros Hbody. induction xs as [|x xs IH]; intros s; simpl.
  - apply emits_ret.
  - apply emits_bind; [apply Hbody|]. intros s'. apply IH.
Qed.

Lemma flat_map_singleton {X Y} (f : X -> Y) (l : list X) :
  flat_map (fun x => [f x]) l = map f l.
Proof. induction l as [|x l IH]; simpl; [reflexivity|now rewrite IH]. Qed.

Lemma emits_process_batch a remaining start st :
  emits (process_batch clock random a remaining start st)
        (map (fun p => str (post_id p))
             (py_slice remaining start (start + batch_size a))).
Proof.
  unfold process_batch.
  rewrite <- (app_nil_r (map _ _)).
  apply emits_bind.
  - rewrite <- flat_map_singleton. apply emits_mfor. intros p s.
    apply emits_process_post.
  - intros st1. apply silent_bind; [auto with silent|]. intros _.
    apply silent_bind; [|auto with silent].
    destruct (_ <? _); silent_steps.
Qed.


Lemma py_range_backwards (n bs : Z) : 0 <= n -> bs < 0 -> py_range 0 n bs = [].
Proof.
  intros Hn Hbs. unfold py_range.
  destruct (Z.ltb_spec 0 bs); [lia|]. destruct (Z.ltb_spec bs 0); [|lia].
  assert (H1 : (0 - n - bs - 1) / (- bs) < 1)
    by (apply Z.div_lt_upper_bound; lia).
  replace (Z.to_nat ((0 - n - bs - 1) / - bs)) with 0%nat by lia.
  reflexivity.
Qed.

Lemma flat_map_map_concat {X Y Z'} (g : Y -> Z') (h : X -> list Y) (l : list X) :
  flat_map (fun x => map g (h x)) l = map g (concat (map h l)).
Proof.
  induction l as [|x l IH]; simpl; [reflexivity|]. now rewrite IH, map_app.
Qed.

(** The calls of a run of [main], whatever its outcome. *)
Lemma main_calls a all_posts w :
  let r := main clock random a (Some all_posts) w in
  let done : gset string :=
    list_to_set (completed_post_ids (start_checkpoint a w)) in
  let ids := map (fun p => str (post_id p)) (remaining_posts done all_posts) in
  exists cs,
    calls (trace (world_of r)) = calls (trace w) ++ cs /\
    cs `prefix_of` ids /\
    (is_ok r -> 0 < batch_size a -> cs = ids).
Proof.
  intros r done ids.
  destruct (main_start a w) as (wr & Hreset & Hload & Htr & _).
  assert (Hwr : calls (trace wr) = calls (trace w)).
  { rewrite Htr, calls_app. destruct (reset_trace_silent a w) as (-> & _).
    apply app_nil_r. }
  assert (Hr : r =
    match remaining_posts done all_posts with
    | [] => ret None
    | _ :: _ =>
        if batch_size a =? 0 then raise ZeroDivisionError
        else
          let* st := mfor (process_batch clock random a
                             (remaining_posts done all_posts))
                          (py_range 0 (len (remaining_posts done all_posts))
                                    (batch_size a))
                          (Locals done (start_checkpoint a w)
                             (total_comments_downloaded (start_checkpoint a w))
                             (Z.of_nat (size done) / batch_size a + 1) 0 [] 0) in
          ret (Some st)
    end wr).
  { subst r. unfold main. unfold bind at 1. rewrite Hreset.
    unfold bind at 1. rewrite Hload. reflexivity. }
  rewrite Hr. clear Hr r. subst ids.
  destruct (remaining_posts done all_posts) as [|p ps] eqn:Erem.
  { exists []. simpl. rewrite Hwr, app_nil_r. repeat split. reflexivity. }
  rewrite <- Erem. clear Erem p ps.
  destruct (Z.eqb_spec (batch_size a) 0) as [Hz|Hnz].
  { exists []. simpl. rewrite Hwr, app_nil_r.
    split; [reflexivity|]. split; [apply prefix_nil|].
    intros []. }
  destruct (Z.ltb_spec 0 (batch_size a)) as [Hpos|Hneg].
  - match goal with |- context [bind (mfor ?body ?xs ?st0) ?k wr] =>
      destruct (emits_at_bind (mfor body xs st0) k wr
                  (flat_map (fun i => map (fun p => str (post_id p))
                     (py_slice (remaining_posts done all_posts) i (i + batch_size a)))
                     xs) [])
        as (cs & Hc & Hp & Hok)
    end.
    + apply emits_mfor. intros s st. apply emits_process_batch.
    + intros st1 w1 _. apply emits_ret.
    + rewrite app_nil_r, flat_map_map_concat, slices_concat in Hp, Hok by exact Hpos.
      exists cs. rewrite Hc, Hwr. auto.
  - rewrite py_range_backwards by (unfold len; lia).
    exists []. simpl. rewrite Hwr, app_nil_r.
    split; [reflexivity|]. split; [apply prefix_nil|]. intros _ Hbs. lia.
Qed.

End Calls.

(** ** The fetcher *)

Section FetcherClaims.
Variable clock : nat -> string.
Variable random : nat -> Q.
Context {os : platform}.

Lemma rounds_length (rounds : list round) :
  (length rounds <= length (flat_map round_replies rounds))%nat.
Proof.
  induction rounds as [|[fs data] rounds IH]; [reflexivity|].
  simpl. unfold round_replies at 1. simpl. rewrite !length_app. simpl. lia.
Qed.


(** The fetcher started on a script that begins with complete rounds. *)
Lemma download_rounds post_id dl mr b rounds rest w :
  fetch_fits dl mr b = true -> unit_interval random ->
  script w = flat_map round_replies rounds ++ rest ->
  Forall (round_ok mr) rounds ->
  exists w1 evs fuel,
    download_comments_for_post clock random post_id dl mr b w =
      while_url clock random (S fuel) post_id dl mr b
                (cursor_after (Some (initial_url post_id)) rounds)
                (len rounds) (flat_map round_comments rounds) w1 /\
    script w1 = rest /\ same_files w w1 /\
    trace w1 = trace w ++ EvCall post_id :: evs /\
    forallb is_fetch_event evs = true /\
    truthy (cursor_after (Some (initial_url post_id)) rounds) = true.
Proof.
  intros Hfit Hr Hs Hok. apply fetch_fits_spec in Hfit as (Hdl & Hb & Hmr).
  unfold download_comments_for_post.
  pose proof (rounds_length rounds) as Hlen.
  assert (Hfuel : S (length (script w)) =
                  (length rounds + S (length (script w) - length rounds))%nat).
  { rewrite Hs, length_app. lia. }
  rewrite Hfuel.
  destruct (while_url_rounds clock random b Hb Hr post_id dl mr Hdl Hmr rounds
              (S (length (script w) - length rounds)) (Some (initial_url post_id))
              0 [] rest (emit (EvCall post_id) w) eq_refl Hs Hok)
    as (w1 & evs & Heq & Hs1 & Hsf & Ht & Hev & Hu).
  exists w1, evs, (length (script w) - length rounds)%nat.
  rewrite Heq. simpl in Ht. rewrite <- app_assoc in Ht.
  repeat split; auto; apply Hsf.
Qed.


(** One turn of the [while url:] loop, spelled out. *)
Lemma while_url_step fuel post_id dl mr b c s page acc w :
  while_url clock random (S fuel) post_id dl mr b (Some (String c s)) page acc w =
  match attempt_loop random b (String c s) acc (py_range 1 (mr + 1) 1) w with
  | Ok (Break acc' url') w1 =>
      match (if truthy url' then sleep dl else ret tt) w1 with
      | Ok _ w2 =>
          while_url clock random fuel post_id dl mr b url' (page + 1) acc' w2
      | Raised e w2 => Raised e w2
      | NoReply w2 => NoReply w2
      end
  | Ok Return404 w1 => Ok (acc, "404_not_found") w1
  | Ok Exhausted w1 =>
      Ok (acc, "failed_page_" +:+ str (page + 1))
         (world_of (log_error clock post_id
                      ("Failed after " +:+ str mr +:+ " attempts on page "
                       +:+ str (page + 1)) w1))
  | Raised e w1 => Raised e w1
  | NoReply w1 => NoReply w1
  end.
Proof.
  simpl. unfold bind at 1.
  destruct (attempt_loop random b (String c s) acc (py_range 1 (mr + 1) 1) w)
    as [[acc' url'| |] w1| |]; reflexivity.
Qed.

(** The fuel of the [while url:] loop never runs out: any fuel above the
    length of the script gives the same result. *)
Lemma while_url_fuel fuel1 : forall fuel2 post_id dl mr b url page acc w,
  (length (script w) < fuel1)%nat -> (length (script w) < fuel2)%nat ->
  while_url clock random fuel1 post_id dl mr b url page acc w =
  while_url clock random fuel2 post_id dl mr b url page acc w.
Proof.
  induction fuel1 as [|fuel1 IH]; intros fuel2 post_id dl mr b url page acc w H1 H2;
    [lia|].
  destruct fuel2 as [|fuel2]; [lia|].
  destruct url as [[|c s]|]; try reflexivity.
  rewrite !while_url_step.
  destruct (attempt_loop random b (String c s) acc (py_range 1 (mr + 1) 1) w)
    as [[acc' url'| |] w1| |] eqn:E; try reflexivity.
  apply attempt_loop_ok in E as (used & evs & Hs & _ & _ & _ & fs & data & -> & _).
  assert (Hlen : (length (script w1) < length (script w))%nat).
  { rewrite Hs, !length_app. simpl. lia. }
  destruct (truthy url').
  - destruct (sleep_cases dl w1) as [[_ ->]|[_ (e & -> & _)]]; [|reflexivity].
    apply IH; simpl; lia.
  - unfold ret. apply IH; lia.
Qed.





(** C5. The wait before a retry, for [attempt >= 1] and a positive base:
    [base * 2^(attempt-1)] plus a jitter in [0, 3] after a 403 or 429 and
    plus a jitter in [0, 5] after a connection error; [base * attempt] plus
    a jitter in [0, 2] after any other unsuccessful status; exactly
    [base * attempt] after a timeout.  Each of these durations is
    non-negative.  As long as it is a duration [time.sleep] takes (and the
    integer factor converts to a [float]), it is what the script computes
    and what the retry loop sleeps between the request and the next
    attempt.  When [time.sleep] refuses the wait after a 403, a 429 or
    another unsuccessful status, the handler of [except Exception] sleeps
    the base instead. *)
Theorem backoff_policy b a u acc r rs w :
  (0 < b)%Q -> 1 <= a -> unit_interval random ->
  script w = r :: rs ->
  let w0 := set_script rs (emit (EvGet u) w) in
  let w1 := set_draws (S (draws w)) w0 in
  (forall body, r = Http 403 body \/ r = Http 429 body ->
     exists j, (0 <= j <= 3)%Q /\
       let d := (b * inject_Z (2 ^ (a - 1)) + j)%Q in
       (0 <= d)%Q /\
       (fits_float (2 ^ (a - 1)) = true -> can_sleep d = true ->
        wait_rate_limited random b a w0 = Ok d w1 /\
        waits_before_retry random b u acc a w d w1) /\
       (fits_float (2 ^ (a - 1)) = true -> can_sleep d = false ->
        can_sleep b = true -> waits_before_retry random b u acc a w b w1)) /\
  (r = RaiseConnectionError ->
     exists j, (0 <= j <= 5)%Q /\
       let d := (b * inject_Z (2 ^ (a - 1)) + j)%Q in
       (0 <= d)%Q /\
       (fits_float (2 ^ (a - 1)) = true -> can_sleep d = true ->
        wait_connection_error random b a w0 = Ok d w1 /\
        waits_before_retry random b u acc a w d w1)) /\
  (forall code body, r = Http code body ->
     code <> 200 -> code <> 403 -> code <> 429 -> code <> 404 ->
     exists j, (0 <= j <= 2)%Q /\
       let d := (b * inject_Z a + j)%Q in
       (0 <= d)%Q /\
       (fits_float a = true -> can_sleep d = true ->
        wait_server_error random b a w0 = Ok d w1 /\
        waits_before_retry random b u acc a w d w1) /\
       (fits_float a = true -> can_sleep d = false ->
        can_sleep b = true -> waits_before_retry random b u acc a w b w1)) /\
  (r = RaiseTimeout ->
     let d := (b * inject_Z a)%Q in
     (0 <= d)%Q /\
     (fits_float a = true -> can_sleep d = true ->
      wait_timeout b a w0 = Ok d w0 /\
      waits_before_retry random b u acc a w d w0)).
Proof.
  intros Hb Ha Hr Hs w0 w1.
  assert (Hb' : (0 <= b)%Q) by lra.
  assert (Hpow : (0 <= b * inject_Z (2 ^ (a - 1)))%Q).
  { apply Qmult_le_0_compat; [exact Hb'|]. apply inject_Z_nonneg.
    apply Z.pow_nonneg. lia. }
  assert (Hlin : (0 <= b * inject_Z a)%Q).
  { apply Qmult_le_0_compat; [exact Hb'|]. apply inject_Z_nonneg. lia. }
  assert (Hj : forall hi, (0 <= hi)%Q ->
            (0 <= 0 + (hi - 0) * random (draws w) <= hi)%Q).
  { intros hi Hhi. destruct (Hr (draws w)) as [H0 H1]. split.
    - now apply uniform_nonneg.
    - now apply uniform_le. }
  assert (Hretry : forall d w2,
            is_failure r = true ->
            pause_after random b a r w0 = Ok tt (emit (EvSleep d) w2) ->
            waits_before_retry random b u acc a w d w2).
  { intros d w2 Hf Hp. split.
    - destruct (attempt_loop_step random b u acc a [] r rs w Hs) as [_ ->];
        [|exact Hf].
      fold w0. unfold bind. now rewrite Hp.
    - intros attempts.
      destruct (attempt_loop_step random b u acc a attempts r rs w Hs) as [_ ->];
        [|exact Hf].
      fold w0. unfold bind. now rewrite Hp. }
  assert (Hfallback : forall (wait : M Q) d,
            wait w0 = Ok d w1 -> can_sleep d = false -> can_sleep b = true ->
            sleep_in_try b wait w0 = Ok tt (emit (EvSleep b) w1)).
  { intros wait d Hw Hd Hbase. unfold sleep_in_try, try_except, sleep_for, bind.
    rewrite Hw. destruct (sleep_refused d w1 Hd) as (e & -> & ->).
    now apply sleep_ok. }
  split; [|split; [|split]].
  - intros body Hrl. exists (0 + (3 - 0) * random (draws w))%Q.
    pose proof (Hj 3%Q ltac:(lra)) as Hj3.
    split; [exact Hj3|]. cbv zeta. split; [lra|].
    assert (Hf : is_failure r = true) by (destruct Hrl as [-> | ->]; reflexivity).
    assert (Hp : pause_after random b a r w0 =
                 sleep_in_try b (wait_rate_limited random b a) w0)
      by (destruct Hrl as [-> | ->]; reflexivity).
    assert (Hw : fits_float (2 ^ (a - 1)) = true ->
                 wait_rate_limited random b a w0 =
                 Ok (b * inject_Z (2 ^ (a - 1)) + (0 + (3 - 0) * random (draws w)))%Q w1).
    { intros Hfit.
      destruct (wait_rate_limited_cases random b a w0) as [[_ E]|[E _]];
        [exact E|congruence]. }
    split.
    + intros Hfit Hd. split; [exact (Hw Hfit)|].
      apply Hretry; [exact Hf|]. rewrite Hp.
      now apply sleep_in_try_fits; [apply Hw|].
    + intros Hfit Hd Hbase. apply Hretry; [exact Hf|]. rewrite Hp.
      now apply (Hfallback _ _ (Hw Hfit)).
  - intros ->. exists (0 + (5 - 0) * random (draws w))%Q.
    pose proof (Hj 5%Q ltac:(lra)) as Hj5.
    split; [exact Hj5|]. cbv zeta. split; [lra|]. intros Hfit Hd.
    assert (Hw : wait_connection_error random b a w0 =
                 Ok (b * inject_Z (2 ^ (a - 1)) + (0 + (5 - 0) * random (draws w)))%Q w1).
    { destruct (wait_connection_error_cases random b a w0) as [[_ E]|[E _]];
        [exact E|congruence]. }
    split; [exact Hw|]. apply Hretry; [reflexivity|].
    simpl. unfold sleep_for, bind. now rewrite Hw, (sleep_ok _ _ Hd).
  - intros code body -> H200 H403 H429 H404.
    exists (0 + (2 - 0) * random (draws w))%Q.
    pose proof (Hj 2%Q ltac:(lra)) as Hj2.
    split; [exact Hj2|]. cbv zeta. split; [lra|].
    assert (E200 : (code =? 200) = false) by now apply Z.eqb_neq.
    assert (E403 : (code =? 403) = false) by now apply Z.eqb_neq.
    assert (E429 : (code =? 429) = false) by now apply Z.eqb_neq.
    assert (E404 : (code =? 404) = false) by now apply Z.eqb_neq.
    assert (Hf : is_failure (Http code body) = true).
    { simpl. now rewrite E200, E404. }
    assert (Hp : pause_after random b a (Http code body) w0 =
                 sleep_in_try b (wait_server_error random b a) w0).
    { unfold pause_after. now rewrite E200, E403, E429. }
    assert (Hw : fits_float a = true ->
                 wait_server_error random b a w0 =
                 Ok (b * inject_Z a + (0 + (2 - 0) * random (draws w)))%Q w1).
    { intros Hfit.
      destruct (wait_server_error_cases random b a w0) as [[_ E]|[E _]];
        [exact E|congruence]. }
    split.
    + intros Hfit Hd. split; [exact (Hw Hfit)|].
      apply Hretry; [exact Hf|]. rewrite Hp.
      now apply sleep_in_try_fits; [apply Hw|].
    + intros Hfit Hd Hbase. apply Hretry; [exact Hf|]. rewrite Hp.
      now apply (Hfallback _ _ (Hw Hfit)).
  - intros ->. cbv zeta. split; [exact Hlin|]. intros Hfit Hd.
    assert (Hw : wait_timeout b a w0 = Ok (b * inject_Z a)%Q w0).
    { destruct (wait_timeout_cases b a w0) as [[_ E]|[E _]];
        [exact E|congruence]. }
    split; [exact Hw|]. apply Hretry; [reflexivity|].
    simpl. unfold sleep_for, bind. now rewrite Hw, (sleep_ok _ _ Hd).
Qed.

End FetcherClaims.

(** ** The run *)

Section RunClaims.
Variable clock : nat -> string.
Variable random : nat -> Q.
Context {os : platform}.

(** Once the fetcher has returned, the rest of the loop body goes through. *)
Lemma process_post_run a info st w cs st_ w1 :
  post_fits a = true -> unit_interval random ->
  download_comments_for_post clock random (str (post_id info)) (delay a)
    (max_retries a) (backoff_base a) w = Ok (cs, st_) w1 ->
  exists st' w',
    process_post clock random a info st w = Ok st' w' /\
    batch_results st' =
      batch_results st ++
      [Entry (post_id info) (comment_count info) (len cs) st_ cs] /\
    errors_count st' = errors_count st + (if is_error st_ then 1 else 0) /\
    completed st' = completed st ∪ {[str (post_id info)]} /\
    errors_log w' = errors_log w1 /\ script w' = script w1.
Proof.
  intros Hfit Hr Hfetch. apply post_fits_spec in Hfit as (_ & Hlo & Hhi).
  unfold process_post.
  unfold bind at 1. rewrite Hfetch. rewrite int_str.
  unfold bind at 1, ret. unfold bind at 1. rewrite save_checkpoint_ok.
  unfold bind at 1, random_uniform. unfold bind at 1.
  rewrite sleep_ok.
  - eexists _, _. split; [reflexivity|]. simpl. unfold is_error.
    repeat split. destruct (negb _ && negb _); lia.
  - apply (can_sleep_between (delay a) _ (delay a + (2 # 10))); auto.
    destruct (Hr (draws w1)) as [H0 H1].
    pose proof (uniform_nonneg random (2 # 10) (draws w1) ltac:(lra) H0).
    pose proof (uniform_le random (2 # 10) (draws w1) ltac:(lra) H1).
    simpl in *. lra.
Qed.



(** C1. Whatever the outcome of a run (it returns, raises or is cut
    short), the posts it fetches are a prefix of the input posts whose
    identifier, as a string, is not in the completed set of the checkpoint
    it loaded; a run that returns has fetched exactly those, in input
    order; and no identifier of the completed set is ever fetched. *)
Theorem resume_fetches_remaining a all_posts w :
  let r := main clock random a (Some all_posts) w in
  let done : gset string :=
    list_to_set (completed_post_ids (start_checkpoint a w)) in
  let remaining_ids :=
    map (fun p => str (post_id p))
        (filter (fun p => str (post_id p) ∉ done) all_posts) in
  exists fetched,
    calls (trace (world_of r)) = calls (trace w) ++ fetched /\
    fetched `prefix_of` remaining_ids /\
    (is_ok r -> 0 < batch_size a -> fetched = remaining_ids) /\
    forall id, id ∈ done -> id ∉ fetched.
Proof.
  intros r done remaining_ids.
  destruct (main_calls clock random a all_posts w) as (cs & Hc & Hp & Hok).
  exists cs. split; [exact Hc|]. split; [exact Hp|]. split; [exact Hok|].
  intros id Hid Hin. destruct Hp as (rest & Hrest).
  assert (Hin' : id ∈ map (fun p => str (post_id p))
                          (remaining_posts
                             (list_to_set (completed_post_ids (start_checkpoint a w)))
                             all_posts)).
  { rewrite Hrest. apply elem_of_app. now left. }
  apply list_elem_of_fmap in Hin' as (p & -> & Hp).
  apply list_elem_of_filter in Hp as [Hp _]. contradiction.
Qed.

(** C2. [save_checkpoint] writes the whole state to the temporary file,
    which leaves the checkpoint file untouched, and then renames it over
    the checkpoint file; and in a run every call of the fetcher is followed
    by exactly one such write and rename, of a checkpoint that lists the
    post just fetched, before the next call. *)
Theorem checkpoint_protocol a all_posts w r w' :
  main clock random a (Some all_posts) w = Ok r w' ->
  0 < batch_size a ->
  let done : gset string :=
    list_to_set (completed_post_ids (start_checkpoint a w)) in
  (forall c w0,
     exists c' w1 w2,
       save_checkpoint clock c w0 = Ok c' w2 /\
       c' = Checkpoint (completed_post_ids c) (total_comments_downloaded c)
                       (Some (clock (ticks w0))) /\
       write_tmp c' (set_ticks (S (ticks w0)) w0) = Ok tt w1 /\
       checkpoint_file w1 = checkpoint_file w0 /\ tmp_file w1 = Some c' /\
       rename_tmp w1 = Ok tt w2 /\
       checkpoint_file w2 = Some c' /\ tmp_file w2 = None /\
       trace w2 = trace w0 ++ [EvWriteTmp c'; EvRename]) /\
  exists ils,
    map il_info ils = remaining_posts done all_posts /\
    progress (trace w') = progress (trace w) ++ flat_map item_progress ils /\
    Forall (fun il => item_id il ∈ completed_post_ids (il_checkpoint il)) ils.
Proof.
  intros H Hbs done. split.
  - intros c w0. eexists _, _, _. rewrite save_checkpoint_ok.
    split; [reflexivity|]. split; [reflexivity|].
    split; [reflexivity|]. simpl. rewrite <- app_assoc. repeat split.
  - subst done. destruct (main_run clock random a all_posts w r w' H Hbs)
      as (bls & Hinfo & Hoks & _ & Ht & _).
    match type of Ht with context [batches_trace ?n bls] =>
      destruct (batches_trace_proj bls n Hoks) as (_ & _ & _ & Hprog) end.
    destruct (reset_trace_silent a w) as (_ & _ & _ & Hreset).
    exists (all_items bls). split; [exact Hinfo|].
    split. { rewrite Ht, !progress_app, Hreset, Hprog. reflexivity. }
    unfold all_items. clear -Hoks.
    induction Hoks as [|bl bls (Hitems & _) _ IH]; [constructor|].
    simpl. apply Forall_app. split; [|exact IH].
    eapply Forall_impl; [exact Hitems|]. intros il (_ & _ & Hin). exact Hin.
Qed.

Lemma filter_map_length {A B} (f : A -> B) (P : B -> Prop) (Q : A -> Prop)
    `{forall y, Decision (P y)} `{forall x, Decision (Q x)} (l : list A) :
  (forall x, P (f x) <-> Q x) ->
  length (filter P (map f l)) = length (filter Q l).
Proof.
  intros HPQ. induction l as [|x l IH]; [reflexivity|].
  simpl. rewrite !filter_cons.
  destruct (decide (P (f x))) as [Hp|Hp]; destruct (decide (Q x)) as [Hq|Hq];
    simpl; rewrite ?IH; try reflexivity; exfalso; apply HPQ in Hp || apply Hp, HPQ;
    auto.
Qed.

Lemma filter_remaining (done : gset string) (z : Z) (l : list post_info) :
  str z ∉ done ->
  filter (fun p => post_id p = z) (remaining_posts done l) =
  filter (fun p => post_id p = z) l.
Proof.
  intros Hz. unfold remaining_posts. induction l as [|p l IH]; [reflexivity|].
  rewrite !filter_cons.
  destruct (decide (str (post_id p) ∉ done)) as [Hd|Hd].
  - rewrite filter_cons, IH. reflexivity.
  - rewrite IH. destruct (decide (post_id p = z)) as [<-|]; [contradiction|reflexivity].
Qed.

(** C10. The remaining list is computed once, from the checkpoint as
    loaded: an identifier that is not in that checkpoint is fetched as many
    times as it occurs in the input document, and gets as many entries in
    the batches saved, although it joins the completed set after its first
    fetch. *)
Theorem duplicates_fetched_again a all_posts w r w' :
  main clock random a (Some all_posts) w = Ok r w' ->
  0 < batch_size a ->
  let done : gset string :=
    list_to_set (completed_post_ids (start_checkpoint a w)) in
  exists fetched saved,
    calls (trace w') = calls (trace w) ++ fetched /\
    saved_entries (trace w') = saved_entries (trace w) ++ saved /\
    forall z, str z ∉ done ->
      let occurrences := length (filter (fun p => post_id p = z) all_posts) in
      length (filter (fun id => id = str z) fetched) = occurrences /\
      length (filter (fun e => entry_post_id e = z) saved) = occurrences.
Proof.
  intros H Hbs done. subst done.
  destruct (main_run clock random a all_posts w r w' H Hbs)
    as (bls & Hinfo & Hoks & _ & Ht & _).
  match type of Ht with context [batches_trace ?n bls] =>
      destruct (batches_trace_proj bls n Hoks) as (Hcalls & _ & Hsaved & _) end.
  destruct (reset_trace_silent a w) as (Hr1 & _ & Hr3 & _).
  exists (map item_id (all_items bls)), (map item_entry (all_items bls)).
  split. { rewrite Ht, !calls_app, Hr1, Hcalls. reflexivity. }
  split. { rewrite Ht, !saved_entries_app, Hr3, Hsaved. reflexivity. }
  intros z Hz occurrences. unfold occurrences.
  rewrite <- (filter_remaining _ z all_posts Hz).
  rewrite <- Hinfo. split.
  - rewrite (filter_map_length il_info _ (fun il => post_id (il_info il) = z));
      [|tauto].
    apply filter_map_length. intros il. unfold item_id. split.
    + apply str_inj.
    + now intros ->.
  - rewrite (filter_map_length il_info _ (fun il => post_id (il_info il) = z));
      [|tauto].
    apply filter_map_length. intros il. reflexivity.
Qed.

End RunClaims.

(** ** Runs that go through

    With a positive batch size, pauses and waits that are durations
    [time.sleep] takes and a server that answers every request and never
    hands out a cursor, [main] returns. *)

Section Returns.
Variable clock : nat -> string.
Variable random : nat -> Q.
Context {os : platform}.
Variable a : args.
Hypothesis a_fits : run_fits a = true.
Hypothesis random_unit : unit_interval random.

Lemma a_post_fits : post_fits a = true.
Proof using a_fits. now apply run_fits_spec in a_fits as (H & _). Qed.

Lemma backoff_fits : can_sleep (backoff_base a) = true.
Proof using a_fits.
  destruct (post_fits_spec a a_post_fits) as (H & _).
  now apply fetch_fits_spec in H as (_ & H & _).
Qed.

Lemma retries_fit :
  forallb (attempt_fits (backoff_base a)) (py_range 1 (max_retries a + 1) 1) = true.
Proof using a_fits.
  destruct (post_fits_spec a a_post_fits) as (H & _).
  now apply fetch_fits_spec in H as (_ & _ & H).
Qed.

Lemma attempt_loop_bounded u acc attempts : forall w,
  forallb (attempt_fits (backoff_base a)) attempts = true ->
  forallb no_cursor (script w) = true ->
  (length attempts <= length (script w))%nat ->
  exists ex w' used,
    attempt_loop random (backoff_base a) u acc attempts w = Ok ex w' /\
    script w = used ++ script w' /\ (length used <= length attempts)%nat /\
    match ex with
    | Break _ url' => truthy url' = false
    | _ => True
    end.
Proof using a_fits random_unit.
  induction attempts as [|n attempts IH]; intros w Hpos Hnc Hl.
  - exists Exhausted, w, []. repeat split. simpl. lia.
  - simpl in Hpos. apply andb_prop in Hpos as [Hn Hpos'].
    destruct (script w) as [|r rs] eqn:Es; [simpl in Hl; lia|].
    simpl in Hnc. apply andb_prop in Hnc as [Hr Hrs].
    destruct (is_failure r) eqn:Hf.
    + destruct (attempt_loop_failure random (backoff_base a) backoff_fits
                  random_unit u acc n attempts r rs w Es Hf Hn)
        as (w1 & _ & -> & Hs1 & _).
      destruct (IH w1 Hpos' ltac:(now rewrite Hs1) ltac:(rewrite Hs1; simpl in Hl; lia))
        as (ex & w' & used & -> & Hs' & Hlen & Hex).
      exists ex, w', (r :: used). rewrite Hs1 in Hs'. rewrite Hs'.
      repeat split; auto. simpl. lia.
    + destruct r as [code [data|]| | |]; simpl in Hf; try discriminate.
      * destruct (Z.eqb_spec code 200) as [->|Hne].
        -- rewrite (attempt_loop_page random (backoff_base a) u acc n attempts
                      data rs w Es).
           eexists _, _, [Http 200 (Some data)]. split; [reflexivity|].
           simpl in *. repeat split; [lia|].
           now destruct (truthy (next_page data)).
        -- destruct (Z.eqb_spec code 404) as [->|]; [|discriminate].
           rewrite (attempt_loop_404 random (backoff_base a) u acc n attempts
                      _ rs w Es).
           eexists _, _, [Http 404 _]. split; [reflexivity|].
           simpl. repeat split. lia.
      * destruct (Z.eqb_spec code 200) as [->|Hne]; [discriminate|].
        destruct (Z.eqb_spec code 404) as [->|]; [|discriminate].
        rewrite (attempt_loop_404 random (backoff_base a) u acc n attempts
                   _ rs w Es).
        eexists _, _, [Http 404 _]. split; [reflexivity|].
        simpl. repeat split. lia.
Qed.

Lemma while_url_falsy fuel post_id dl mr b url page acc w :
  truthy url = false ->
  while_url clock random fuel post_id dl mr b url page acc w = Ok (acc, "ok") w.
Proof.
  destruct url as [[|c s]|]; try discriminate; destruct fuel; reflexivity.
Qed.

Lemma initial_url_nonempty post_id :
  exists c s, initial_url post_id = String c s.
Proof. unfold initial_url, BASE_URL. simpl. eauto. Qed.

(** One fetch: it returns after at most [max_retries] replies. *)
Lemma download_bounded post_id w :
  forallb no_cursor (script w) = true ->
  (Z.to_nat (max_retries a) <= length (script w))%nat ->
  exists cs st w' used,
    download_comments_for_post clock random post_id (delay a) (max_retries a)
      (backoff_base a) w = Ok (cs, st) w' /\
    script w = used ++ script w' /\
    (length used <= Z.to_nat (max_retries a))%nat.
Proof using a_fits random_unit.
  intros Hnc Hl. unfold download_comments_for_post.
  destruct (initial_url_nonempty post_id) as (c & s & ->).
  rewrite while_url_step.
  destruct (attempt_loop_bounded (String c s) [] (py_range 1 (max_retries a + 1) 1)
              (emit (EvCall post_id) w) retries_fit Hnc
              ltac:(rewrite attempts_length; exact Hl))
    as (ex & w1 & used & -> & Hs & Hlen & Hex).
  rewrite attempts_length in Hlen. simpl in Hs.
  destruct ex as [acc' url'| |].
  - rewrite Hex. unfold ret. rewrite (while_url_falsy _ _ _ _ _ _ _ _ _ Hex).
    eexists _, _, _, used. repeat split; eauto.
  - eexists _, _, _, used. repeat split; eauto.
  - eexists _, _, _, used. split; [reflexivity|]. simpl. auto.
Qed.


Lemma forallb_suffix {X} (P : X -> bool) (used rest : list X) :
  forallb P (used ++ rest) = true -> forallb P rest = true.
Proof. rewrite forallb_app. intros H. now apply andb_prop in H as [_ H]. Qed.

(** The posts of a batch, the batches, the run: each step needs at most
    [max_retries] replies per post. *)
Lemma process_post_returns info st w :
  forallb no_cursor (script w) = true ->
  (Z.to_nat (max_retries a) <= length (script w))%nat ->
  exists st' w',
    process_post clock random a info st w = Ok st' w' /\
    forallb no_cursor (script w') = true /\
    (length (script w) <= length (script w') + Z.to_nat (max_retries a))%nat.
Proof using a_fits random_unit.
  intros Hnc Hl.
  destruct (download_bounded (str (post_id info)) w Hnc Hl)
    as (cs & st_ & w1 & used & Hfetch & Hs & Hlen).
  destruct (process_post_run clock random a info st w cs st_ w1 a_post_fits
              random_unit Hfetch) as (st' & w' & Hp & _ & _ & _ & _ & Hs').
  exists st', w'. split; [exact Hp|]. rewrite Hs'. split.
  - rewrite Hs in Hnc. now apply forallb_suffix in Hnc.
  - rewrite Hs, length_app. lia.
Qed.

Lemma items_loop_returns ps : forall st w,
  forallb no_cursor (script w) = true ->
  (Z.to_nat (max_retries a) * length ps <= length (script w))%nat ->
  exists st' w',
    mfor (process_post clock random a) ps st w = Ok st' w' /\
    forallb no_cursor (script w') = true /\
    (length (script w) <=
     length (script w') + Z.to_nat (max_retries a) * length ps)%nat.
Proof using a_fits random_unit.
  induction ps as [|p ps IH]; intros st w Hnc Hl.
  - exists st, w. repeat split; auto. lia.
  - simpl in Hl.
    destruct (process_post_returns p st w Hnc ltac:(lia))
      as (st1 & w1 & Hp & Hnc1 & Hl1).
    destruct (IH st1 w1 Hnc1 ltac:(lia)) as (st' & w' & Hloop & Hnc' & Hl').
    exists st', w'. simpl. unfold bind. rewrite Hp.
    split; [exact Hloop|]. split; [exact Hnc'|]. lia.
Qed.

Lemma process_batch_returns remaining start st w :
  let batch := py_slice remaining start (start + batch_size a) in
  forallb no_cursor (script w) = true ->
  (Z.to_nat (max_retries a) * length batch <= length (script w))%nat ->
  exists st' w',
    process_batch clock random a remaining start st w = Ok st' w' /\
    forallb no_cursor (script w') = true /\
    (length (script w) <=
     length (script w') + Z.to_nat (max_retries a) * length batch)%nat.
Proof using a_fits random_unit.
  intros batch Hnc Hl. unfold process_batch. fold batch.
  destruct (items_loop_returns batch
              (Locals (completed st) (ckpt st) (total_comments st) (batch_num st)
                      (errors_count st) [] 0) w Hnc Hl)
    as (st1 & w1 & Hloop & Hnc1 & Hl1).
  unfold bind at 1. rewrite Hloop. unfold bind at 1, save_batch.
  unfold bind at 1.
  destruct (_ <? _).
  - unfold bind at 1, random_uniform. rewrite sleep_ok.
    + eexists _, _. split; [reflexivity|]. simpl. auto.
    + destruct (run_fits_spec a a_fits) as (_ & Hlo & Hhi).
      apply (can_sleep_between (batch_delay a) _ (batch_delay a + 2)); auto.
      destruct (random_unit (draws w1)) as [H0 H1].
      pose proof (uniform_nonneg random 2 (draws w1) ltac:(lra) H0).
      pose proof (uniform_le random 2 (draws w1) ltac:(lra) H1).
      simpl in *. lra.
  - eexists _, _. split; [reflexivity|]. simpl. auto.
Qed.

Lemma batches_loop_returns remaining starts : forall st w,
  let posts :=
    concat (map (fun s => py_slice remaining s (s + batch_size a)) starts) in
  forallb no_cursor (script w) = true ->
  (Z.to_nat (max_retries a) * length posts <= length (script w))%nat ->
  exists st' w',
    mfor (process_batch clock random a remaining) starts st w = Ok st' w'.
Proof using a_fits random_unit.
  induction starts as [|s starts IH]; intros st w posts Hnc Hl.
  - exists st, w. reflexivity.
  - subst posts. simpl in Hl. rewrite length_app in Hl.
    destruct (process_batch_returns remaining s st w Hnc ltac:(lia))
      as (st1 & w1 & Hb & Hnc1 & Hl1).
    destruct (IH st1 w1 Hnc1 ltac:(lia)) as (st' & w' & Hloop).
    exists st', w'. simpl. unfold bind. rewrite Hb. exact Hloop.
Qed.

Lemma main_returns all_posts w :
  0 < batch_size a ->
  forallb no_cursor (script w) = true ->
  (Z.to_nat (max_retries a) * length all_posts <= length (script w))%nat ->
  exists r w', main clock random a (Some all_posts) w = Ok r w'.
Proof using a_fits random_unit.
  intros Hbs Hnc Hl. unfold main.
  destruct (main_start a w) as (wr & Hreset & Hload & _ & _ & _ & Hscript).
  unfold bind at 1. rewrite Hreset. unfold bind at 1. rewrite Hload.
  set (done := list_to_set (completed_post_ids (start_checkpoint a w)) : gset string).
  destruct (remaining_posts done all_posts) as [|p ps] eqn:Erem.
  { eexists _, _. reflexivity. }
  rewrite <- Erem.
  destruct (Z.eqb_spec (batch_size a) 0); [lia|].
  match goal with |- context [mfor ?body ?xs ?st0] =>
    destruct (batches_loop_returns (remaining_posts done all_posts) xs st0 wr)
      as (st' & w' & Hloop)
  end.
  - now rewrite Hscript.
  - rewrite slices_concat, Hscript by exact Hbs.
    pose proof (length_filter (fun q => str (post_id q) ∉ done) all_posts) as Hle.
    unfold remaining_posts. nia.
  - unfold bind. rewrite Hloop. eexists _, _. reflexivity.
Qed.

End Returns.

(** ** Batch files *)

Section FileClaims.
Variable clock : nat -> string.
Variable random : nat -> Q.
Context {os : platform}.

Lemma ltb_trans (s t u : string) :
  String.ltb s t = true -> String.ltb t u = true -> String.ltb s u = true.
Proof.
  unfold String.ltb. intros Hst Htu.
  destruct (String.compare s t) eqn:E1; try discriminate.
  destruct (String.compare t u) eqn:E2; try discriminate.
  apply String_as_OT.cmp_lt in E1, E2.
  pose proof (String_as_OT.lt_trans _ _ _ E1 E2) as E3.
  apply String_as_OT.cmp_lt in E3. unfold String_as_OT.cmp in E3. now rewrite E3.
Qed.

Lemma ltb_irrefl (s : string) : String.ltb s s = false.
Proof.
  unfold String.ltb. pose proof (String.compare_antisym s s) as H.
  destruct (String.compare s s); try reflexivity; discriminate.
Qed.

Lemma ltb_asym (s t : string) : String.ltb s t = true -> String.ltb t s = false.
Proof.
  unfold String.ltb. rewrite (String.compare_antisym s t).
  destruct (String.compare t s); simpl; congruence.
Qed.

Lemma names_ascend_step (k : nat) : forall n i,
  names_ascend k n = true -> n <= i < n + Z.of_nat k ->
  String.ltb (batch_file_name i) (batch_file_name (i + 1)) = true.
Proof.
  induction k as [|k IH]; intros n i H Hi; [lia|].
  simpl in H.
  destruct (String.ltb (batch_file_name n) (batch_file_name (n + 1))) eqn:E;
    [|discriminate].
  destruct (Z.eq_dec i n) as [->|Hne]; [exact E|].
  apply (IH (n + 1)); [exact H|lia].
Qed.

(** Checked by running through the 99999 pairs of consecutive numbers. *)
Lemma names_ascend_5_digits : names_ascend (Z.to_nat 99999) 0 = true.
Proof. vm_compute. reflexivity. Qed.

Lemma names_sorted_lt (m n : Z) :
  0 <= m -> m < n -> n < 100000 ->
  String.ltb (batch_file_name m) (batch_file_name n) = true.
Proof.
  intros Hm Hmn Hn.
  assert (H : forall d : nat, m + 1 + Z.of_nat d < 100000 ->
            String.ltb (batch_file_name m)
                       (batch_file_name (m + 1 + Z.of_nat d)) = true).
  { induction d as [|d IH]; intros Hd.
    - rewrite Z.add_0_r.
      apply (names_ascend_step _ 0 m names_ascend_5_digits).
      rewrite Z2Nat.id; lia.
    - apply ltb_trans with (batch_file_name (m + 1 + Z.of_nat d)).
      + apply IH. lia.
      + replace (m + 1 + Z.of_nat (S d)) with (m + 1 + Z.of_nat d + 1) by lia.
        apply (names_ascend_step _ 0 _ names_ascend_5_digits).
        rewrite Z2Nat.id; lia. }
  replace n with (m + 1 + Z.of_nat (Z.to_nat (n - m - 1))) by lia.
  apply H. lia.
Qed.

Lemma names_sorted (m n : Z) :
  0 <= m < 100000 -> 0 <= n < 100000 ->
  String.ltb (batch_file_name m) (batch_file_name n) = (m <? n).
Proof.
  intros Hm Hn. destruct (Z.ltb_spec m n) as [Hlt|Hge].
  - apply names_sorted_lt; lia.
  - destruct (Z.eq_dec m n) as [->|Hne]; [apply ltb_irrefl|].
    apply ltb_asym, names_sorted_lt; lia.
Qed.

(** C6 (amended). The batches a run saves are numbered consecutively, from
    [len(completed) // batch_size + 1] on, which is 1 when the checkpoint
    is empty; distinct numbers give distinct file names, and for numbers
    below 100000 the order of the file names is the order of the numbers. *)
Theorem batch_numbering a all_posts w r w' :
  main clock random a (Some all_posts) w = Ok r w' ->
  0 < batch_size a ->
  let done : gset string :=
    list_to_set (completed_post_ids (start_checkpoint a w)) in
  let remaining := remaining_posts done all_posts in
  let first := Z.of_nat (size done) / batch_size a + 1 in
  let count := Z.to_nat ((len remaining + batch_size a - 1) / batch_size a) in
  saved_files (trace w') =
    saved_files (trace w) ++
    map (fun i => batch_file_name (first + Z.of_nat i)) (seq 0 count) /\
  (completed_post_ids (start_checkpoint a w) = [] -> first = 1) /\
  (forall m n, batch_file_name m = batch_file_name n -> m = n) /\
  (forall m n, 0 <= m < 100000 -> 0 <= n < 100000 ->
     String.ltb (batch_file_name m) (batch_file_name n) = (m <? n)).
Proof.
  intros H Hbs done remaining first count. subst done remaining first count.
  destruct (main_run clock random a all_posts w r w' H Hbs)
    as (bls & Hinfo & Hoks & Hlen & Ht & _).
  match type of Ht with context [batches_trace ?n bls] =>
    destruct (batches_trace_proj bls n Hoks) as (_ & Hfiles & _) end.
  destruct (reset_trace_silent a w) as (_ & Hreset & _).
  split; [|split; [|split]].
  - rewrite Ht, !saved_files_app, Hreset, Hfiles, Hlen. reflexivity.
  - intros ->. rewrite list_to_set_nil, size_empty. simpl.
    rewrite Z.div_0_l by lia. lia.
  - apply batch_file_name_inj.
  - apply names_sorted.
Qed.

Lemma elem_of_ids_in_files (m : gmap string (list entry)) (id : string) :
  id ∈ ids_in_files m <->
  exists f es e, m !! f = Some es /\ e ∈ es /\ str (entry_post_id e) = id.
Proof.
  unfold ids_in_files. rewrite elem_of_list_to_set, list_elem_of_In, in_flat_map.
  split.
  - intros ([f es] & Hfe & Hin). simpl in Hin.
    apply in_map_iff in Hin as (e & He & Hin).
    exists f, es, e. split; [|split; [now apply list_elem_of_In|exact He]].
    now apply elem_of_map_to_list, list_elem_of_In.
  - intros (f & es & e & Hf & He & Hid). exists (f, es). split.
    + now apply list_elem_of_In, elem_of_map_to_list.
    + simpl. apply in_map_iff. exists e. split; [exact Hid|].
      now apply list_elem_of_In.
Qed.

Lemma batches_files_old bls : forall n m f,
  (forall i, (i < length bls)%nat -> f <> batch_file_name (n + Z.of_nat i)) ->
  batches_files n bls m !! f = m !! f.
Proof.
  induction bls as [|bl bls IH]; intros n m f Hf; [reflexivity|].
  simpl. rewrite IH.
  - apply lookup_insert_ne. intros E. apply (Hf 0%nat); [simpl; lia|].
    now rewrite Z.add_0_r.
  - intros i Hi E. apply (Hf (S i)); [simpl; lia|].
    rewrite E. f_equal. lia.
Qed.

Lemma batches_files_new bls : forall n m i bl,
  bls !! i = Some bl ->
  batches_files n bls m !! batch_file_name (n + Z.of_nat i) = Some (batch_entries bl).
Proof.
  induction bls as [|bl0 bls IH]; intros n m i bl Hi; [discriminate|].
  destruct i as [|i]; cbn [batches_files].
  - injection Hi as ->. rewrite Z.add_0_r, batches_files_old.
    + apply lookup_insert_eq.
    + intros i _ E. apply batch_file_name_inj in E. lia.
  - replace (n + Z.of_nat (S i)) with (n + 1 + Z.of_nat i) by lia.
    apply IH. exact Hi.
Qed.

(** C7 (amended). [save_batch] has no guard against an existing file: it
    writes the batch to the file named after the number, whatever was there
    before, and leaves every other file as it was.  A run saves under the
    numbers from [len(completed) // batch_size + 1] on, so it leaves the
    batch files with smaller numbers as they were. *)
Theorem save_batch_overwrites (batch_results : list entry) (batch_num : Z) w :
  (exists w',
     save_batch batch_results batch_num w = Ok (batch_file_name batch_num) w' /\
     batch_files w' !! batch_file_name batch_num = Some batch_results /\
     (forall f, f <> batch_file_name batch_num ->
        batch_files w' !! f = batch_files w !! f) /\
     (forall n, n <> batch_num ->
        batch_files w' !! batch_file_name n = batch_files w !! batch_file_name n)) /\
  (forall a all_posts r w',
     main clock random a (Some all_posts) w = Ok r w' ->
     0 < batch_size a ->
     let done : gset string :=
       list_to_set (completed_post_ids (start_checkpoint a w)) in
     forall n, n < Z.of_nat (size done) / batch_size a + 1 ->
       batch_files w' !! batch_file_name n = batch_files w !! batch_file_name n).
Proof.
  split.
  - eexists. split; [reflexivity|]. simpl.
    split; [apply lookup_insert_eq|]. split.
    + intros f Hf. now apply lookup_insert_ne.
    + intros n Hn. apply lookup_insert_ne. intros E.
      apply batch_file_name_inj in E. congruence.
  - intros a all_posts r w' H Hbs done n Hn. subst done.
    destruct (main_run clock random a all_posts w r w' H Hbs)
      as (bls & _ & _ & _ & _ & ->).
    apply batches_files_old. intros i _ E.
    apply batch_file_name_inj in E. lia.
Qed.

Lemma all_items_lookup bls il :
  il ∈ all_items bls <-> exists i bl, bls !! i = Some bl /\ il ∈ bl_items bl.
Proof.
  unfold all_items. rewrite list_elem_of_In, in_flat_map. split.
  - intros (bl & Hbl & Hil). apply list_elem_of_In, list_elem_of_lookup in Hbl as (i & Hi).
    exists i, bl. split; [exact Hi|now apply list_elem_of_In].
  - intros (i & bl & Hi & Hil). exists bl. split.
    + apply list_elem_of_In, list_elem_of_lookup. eauto.
    + now apply list_elem_of_In.
Qed.

(** The identifiers in the batch directory after consecutive batches have
    been saved, when none of their files existed before. *)
Lemma ids_in_batches_files bls n (m : gmap string (list entry)) :
  (forall i, (i < length bls)%nat -> m !! batch_file_name (n + Z.of_nat i) = None) ->
  ids_in_files (batches_files n bls m) =
  ids_in_files m ∪ list_to_set (map item_id (all_items bls)).
Proof.
  intros Hfresh. apply set_eq. intros id.
  rewrite elem_of_union, !elem_of_ids_in_files, elem_of_list_to_set, list_elem_of_fmap.
  split.
  - intros (f & es & e & Hf & He & Hid).
    destruct (decide (f ∈ map (fun i => batch_file_name (n + Z.of_nat i))
                              (seq 0 (length bls)))) as [Hin|Hnin].
    + right. apply list_elem_of_fmap in Hin as (i & -> & Hi).
      apply elem_of_seq in Hi as [_ Hi]. simpl in Hi.
      destruct (lookup_lt_is_Some_2 bls i Hi) as (bl & Hbl).
      rewrite (batches_files_new bls n m i bl Hbl) in Hf. injection Hf as <-.
      unfold batch_entries in He. apply list_elem_of_fmap in He as (il & -> & Hil).
      exists il. split; [now rewrite <- Hid|].
      apply all_items_lookup. eauto.
    + left. exists f, es, e. split; [|auto].
      rewrite batches_files_old in Hf; [exact Hf|].
      intros i Hi E. apply Hnin. apply list_elem_of_fmap. exists i.
      split; [exact E|]. apply elem_of_seq. simpl. lia.
  - intros [(f & es & e & Hf & He & Hid)|(il & -> & Hil)].
    + exists f, es, e. split; [|auto].
      rewrite batches_files_old; [exact Hf|].
      intros i Hi E. rewrite E, (Hfresh i Hi) in Hf. discriminate.
    + apply all_items_lookup in Hil as (i & bl & Hbl & Hil).
      exists (batch_file_name (n + Z.of_nat i)), (batch_entries bl), (item_entry il).
      split; [now apply batches_files_new|]. split; [|reflexivity].
      unfold batch_entries. apply list_elem_of_fmap. eauto.
Qed.

(** C8 (amended). When a run starts with the identifiers in the batch
    files equal to the completed set of the checkpoint it loads, and none
    of the batch files it is going to write exists yet, then after the run
    the identifiers in the checkpoint file are exactly the identifiers in
    the batch files. *)
Theorem checkpoint_matches_batches a all_posts w r w' :
  main clock random a (Some all_posts) w = Ok r w' ->
  0 < batch_size a ->
  let done : gset string :=
    list_to_set (completed_post_ids (start_checkpoint a w)) in
  let remaining := remaining_posts done all_posts in
  let first := Z.of_nat (size done) / batch_size a + 1 in
  let count := Z.to_nat ((len remaining + batch_size a - 1) / batch_size a) in
  file_ids w = done ->
  (forall i, (i < count)%nat ->
     batch_files w !! batch_file_name (first + Z.of_nat i) = None) ->
  checkpoint_ids w' = file_ids w'.
Proof.
  intros H Hbs done remaining first count Hids Hfresh.
  subst done remaining first count. unfold file_ids in *.
  destruct r as [st'|].
  - destruct (main_ok clock random a all_posts w st' w' H Hbs)
      as (bls & Hsl & _ & _ & _ & Hc & _ & _ & _ & Hf & (Hck & Hcl & _)).
    destruct (main_run clock random a all_posts w _ w' H Hbs)
      as (bls' & _ & _ & Hlen & _ & Hf').
    assert (Hlen' : length bls = length bls').
    { apply (f_equal length) in Hsl. rewrite !length_map in Hsl. rewrite Hsl, Hlen.
      rewrite py_range_batches by exact Hbs. now rewrite length_map, length_seq. }
    rewrite Hf, ids_in_batches_files.
    + unfold checkpoint_ids. rewrite Hck, Hcl, list_to_set_elements_L, Hc, Hids.
      reflexivity.
    + intros i Hi. apply Hfresh. lia.
  - apply main_none in H as (_ & _ & Hf & Hck). rewrite Hck, Hf. now symmetry.
Qed.

End FileClaims.

(** ** Further properties of [download_all_comments.py] *)

(** *** The checkpoint file *)

Section CheckpointStore.
Variable clock : nat -> string.

(** X1. Saving a checkpoint and loading it again gives back what was
    saved: the same completed identifiers and total, stamped with the time
    of the save.  The save replaces whatever checkpoint and temporary file
    were there, leaves no temporary file behind and touches nothing else. *)
Theorem checkpoint_round_trip (c : checkpoint) (w : world) :
  exists c' w',
    save_checkpoint clock c w = Ok c' w' /\
    load_checkpoint w' = Ok c' w' /\
    completed_post_ids c' = completed_post_ids c /\
    total_comments_downloaded c' = total_comments_downloaded c /\
    last_updated c' = Some (clock (ticks w)) /\
    tmp_file w' = None /\
    batch_files w' = batch_files w /\ errors_log w' = errors_log w /\
    script w' = script w.
Proof.
  eexists _, _. rewrite save_checkpoint_ok.
  split; [reflexivity|]. repeat split.
Qed.

(** X2. [reset_checkpoint] deletes the checkpoint file if there is one, so
    that the next load starts from the empty checkpoint; a second reset
    does nothing; batch files, error log and temporary file are kept. *)
Theorem reset_forgets_checkpoint (w : world) :
  exists w1,
    reset_checkpoint w = Ok tt w1 /\
    load_checkpoint w1 = Ok empty_checkpoint w1 /\
    reset_checkpoint w1 = Ok tt w1 /\
    trace w1 = trace w ++ match checkpoint_file w with
                          | Some _ => [EvUnlink]
                          | None => []
                          end /\
    batch_files w1 = batch_files w /\ errors_log w1 = errors_log w /\
    tmp_file w1 = tmp_file w.
Proof.
  unfold reset_checkpoint, load_checkpoint.
  destruct (checkpoint_file w) as [c|] eqn:E.
  - eexists. split; [reflexivity|]. simpl. repeat split.
  - exists w. rewrite E, app_nil_r. repeat split.
Qed.

End CheckpointStore.

(** *** The progress line *)

Lemma truediv_ok (x y : Q) w : ~ (y == 0)%Q -> truediv x y w = Ok (x / y)%Q w.
Proof.
  intros Hy. unfold truediv.
  destruct (Qeq_bool y 0) eqn:E; [|reflexivity].
  apply Qeq_bool_iff in E. contradiction.
Qed.

Lemma positive_spec (x : Q) : positive x = true <-> (0 < x)%Q.
Proof.
  unfold positive. rewrite negb_true_iff. split.
  - intros E. apply Qnot_le_lt. intros H. apply Qle_bool_iff in H. congruence.
  - intros H. destruct (Qle_bool x 0) eqn:E; [|reflexivity].
    apply Qle_bool_iff in E. lra.
Qed.

Lemma inject_Z_zero (z : Z) : (inject_Z z == 0)%Q <-> z = 0.
Proof. unfold Qeq. simpl. lia. Qed.

(** X3. [print_progress] never divides by zero, whatever its arguments:
    the percentage is 0 for an empty input and [done / total * 100]
    otherwise; the estimate is 0 as long as nothing is done or no time has
    passed, and [(total - done) / (done / elapsed) / 60] minutes after
    that. *)
Theorem progress_line_defined
    (done_count total batch_comments total_comments errors_count : Z)
    (elapsed : Q) (w : world) :
  exists line,
    print_progress done_count total batch_comments total_comments
                   errors_count elapsed w = Ok line w /\
    (total = 0 -> (pct line == 0)%Q) /\
    (total <> 0 ->
     (pct line == inject_Z done_count / inject_Z total * 100)%Q) /\
    (done_count <= 0 \/ (elapsed <= 0)%Q -> (eta_mins line == 0)%Q) /\
    (0 < done_count -> (0 < elapsed)%Q ->
     (eta_mins line ==
       inject_Z (total - done_count) / (inject_Z done_count / elapsed) / 60)%Q).
Proof.
  unfold print_progress.
  assert (H60 : ~ (60 == 0)%Q) by (intros H; discriminate H).
  assert (Hpct : exists p,
    (if total =? 0 then ret 0%Q
     else let* q := truediv (inject_Z done_count) (inject_Z total) in
          ret (q * 100)%Q) w = Ok p w /\
    (total = 0 -> (p == 0)%Q) /\
    (total <> 0 -> (p == inject_Z done_count / inject_Z total * 100)%Q)).
  { destruct (Z.eqb_spec total 0) as [Ht|Ht].
    - exists 0%Q. split; [reflexivity|]. split; [reflexivity|]. intros; lia.
    - eexists. unfold bind. rewrite truediv_ok by (rewrite inject_Z_zero; exact Ht).
      split; [reflexivity|]. split; [intros; lia|reflexivity]. }
  destruct Hpct as (p & Ep & Hp0 & Hp1).
  unfold bind at 1. rewrite Ep.
  destruct (positive elapsed) eqn:Eel.
  - apply positive_spec in Eel.
    unfold bind at 1. rewrite truediv_ok by lra.
    destruct (positive (inject_Z done_count / elapsed)) eqn:Er.
    + apply positive_spec in Er.
      unfold bind at 1. rewrite truediv_ok by lra.
      unfold bind at 1. rewrite truediv_ok by exact H60.
      eexists. split; [reflexivity|]. simpl.
      split; [exact Hp0|]. split; [exact Hp1|]. split; [|reflexivity].
      intros [Hd|He]; [|lra]. exfalso.
      assert (inject_Z done_count <= 0)%Q by (unfold Qle; simpl; lia).
      assert (inject_Z done_count / elapsed <= 0)%Q.
      { apply Qle_shift_div_r; [exact Eel|]. lra. }
      lra.
    + unfold bind at 1, ret at 1.
      unfold bind at 1. rewrite truediv_ok by exact H60.
      eexists. split; [reflexivity|]. simpl.
      split; [exact Hp0|]. split; [exact Hp1|]. split; [reflexivity|].
      intros Hd _. exfalso.
      assert (Hpos : (0 < inject_Z done_count / elapsed)%Q).
      { apply Qlt_shift_div_l; [exact Eel|].
        assert (0 < inject_Z done_count)%Q by (unfold Qlt; simpl; lia). lra. }
      apply positive_spec in Hpos. congruence.
  - unfold bind at 1, ret at 1.
    assert (E0 : positive 0 = false) by reflexivity. rewrite E0.
    unfold bind at 1, ret at 1.
    unfold bind at 1. rewrite truediv_ok by exact H60.
    eexists. split; [reflexivity|]. simpl.
    split; [exact Hp0|]. split; [exact Hp1|]. split; [reflexivity|].
    intros _ He. apply positive_spec in He. congruence.
Qed.

(** *** The ways [main] ends before its loops *)

Section MainEdges.
Variable clock : nat -> string.
Variable random : nat -> Q.
Context {os : platform}.
Variable a : args.

(** [main] up to its loops: the reset, the load and the filter. *)
Lemma main_prelude all_posts w :
  let done : gset string :=
    list_to_set (completed_post_ids (start_checkpoint a w)) in
  let remaining := remaining_posts done all_posts in
  exists wr,
    wr = (if reset a then world_of (reset_checkpoint w) else w) /\
    trace wr = trace w ++ reset_trace a w /\
    checkpoint_file wr = (if reset a then None else checkpoint_file w) /\
    checkpoint_ids wr = done /\
    script wr = script w /\ batch_files wr = batch_files w /\
    errors_log wr = errors_log w /\ tmp_file wr = tmp_file w /\
    main clock random a (Some all_posts) w =
      match remaining with
      | [] => ret None
      | _ :: _ =>
          if batch_size a =? 0 then raise ZeroDivisionError
          else
            let* st := mfor (process_batch clock random a remaining)
                            (py_range 0 (len remaining) (batch_size a))
                            (Locals done (start_checkpoint a w)
                               (total_comments_downloaded (start_checkpoint a w))
                               (Z.of_nat (size done) / batch_size a + 1) 0 [] 0) in
            ret (Some st)
      end wr.
Proof.
  intros done remaining. subst done remaining.
  unfold main, start_checkpoint, reset_trace, reset_checkpoint, load_checkpoint,
    checkpoint_ids.
  destruct (reset a); destruct (checkpoint_file w) as [c|] eqn:E;
    eexists; (split; [reflexivity|]); simpl; rewrite ?E, ?app_nil_r;
    repeat (split; [reflexivity|]); unfold bind, ret; simpl; rewrite ?E;
    reflexivity.
Qed.

(** X4. Without the input file the run exits with code 1: no post is
    fetched and no batch is written; but a [--reset] has already deleted
    the checkpoint by then. *)
Theorem missing_input_exits w :
  exists w1,
    main clock random a None w = Raised (SystemExit 1) w1 /\
    trace w1 = trace w ++ reset_trace a w /\
    checkpoint_file w1 = (if reset a then None else checkpoint_file w) /\
    script w1 = script w /\ batch_files w1 = batch_files w /\
    errors_log w1 = errors_log w.
Proof.
  unfold main, reset_trace, reset_checkpoint.
  destruct (reset a); destruct (checkpoint_file w) as [c|] eqn:E;
    eexists; (split; [unfold bind, ret, raise; rewrite ?E; reflexivity|]);
    simpl; rewrite ?E, ?app_nil_r; repeat split.
Qed.

(** X5. The run returns early exactly when every post of the input is in
    the checkpoint it loaded; it then fetches nothing, writes neither
    checkpoint nor batch, and does not look at the batch size. *)
Theorem nothing_left_returns_early all_posts w :
  let done : gset string :=
    list_to_set (completed_post_ids (start_checkpoint a w)) in
  (remaining_posts done all_posts = [] ->
   exists w1,
     main clock random a (Some all_posts) w = Ok None w1 /\
     trace w1 = trace w ++ reset_trace a w /\
     checkpoint_file w1 = (if reset a then None else checkpoint_file w) /\
     script w1 = script w /\ batch_files w1 = batch_files w /\
     errors_log w1 = errors_log w) /\
  (forall w1, main clock random a (Some all_posts) w = Ok None w1 ->
     remaining_posts done all_posts = []).
Proof.
  intros done. split.
  - intros Hrem.
    destruct (main_prelude all_posts w)
      as (wr & _ & Ht & Hc & _ & Hs & Hf & He & _ & ->).
    fold done. rewrite Hrem. exists wr. repeat split; assumption.
  - intros w1 H. now apply main_none in H as (Hrem & _).
Qed.

(** X6. With a batch size of 0 and something left to download, the run
    raises [ZeroDivisionError] when it computes the first batch number:
    nothing has been fetched or written by then. *)
Theorem zero_batch_size_raises all_posts w :
  let done : gset string :=
    list_to_set (completed_post_ids (start_checkpoint a w)) in
  batch_size a = 0 -> remaining_posts done all_posts <> [] ->
  exists w1,
    main clock random a (Some all_posts) w = Raised ZeroDivisionError w1 /\
    trace w1 = trace w ++ reset_trace a w /\
    checkpoint_file w1 = (if reset a then None else checkpoint_file w) /\
    script w1 = script w /\ batch_files w1 = batch_files w /\
    errors_log w1 = errors_log w.
Proof.
  intros done Hbs Hrem.
  destruct (main_prelude all_posts w)
    as (wr & _ & Ht & Hc & _ & Hs & Hf & He & _ & ->).
  fold done. destruct (remaining_posts done all_posts) as [|p ps]; [congruence|].
  rewrite Hbs. exists wr. repeat split; assumption.
Qed.

(** X7. With a negative batch size the loop over the batches is empty: the
    run returns as if it had completed, with no post fetched, no batch
    written, the checkpoint as loaded and no error counted. *)
Theorem negative_batch_size_skips all_posts w :
  let done : gset string :=
    list_to_set (completed_post_ids (start_checkpoint a w)) in
  batch_size a < 0 -> remaining_posts done all_posts <> [] ->
  exists st w1,
    main clock random a (Some all_posts) w = Ok (Some st) w1 /\
    completed st = done /\ errors_count st = 0 /\
    total_comments st = total_comments_downloaded (start_checkpoint a w) /\
    trace w1 = trace w ++ reset_trace a w /\
    checkpoint_file w1 = (if reset a then None else checkpoint_file w) /\
    script w1 = script w /\ batch_files w1 = batch_files w /\
    errors_log w1 = errors_log w.
Proof.
  intros done Hbs Hrem.
  destruct (main_prelude all_posts w)
    as (wr & _ & Ht & Hc & _ & Hs & Hf & He & _ & ->).
  fold done. destruct (remaining_posts done all_posts) as [|p ps] eqn:E; [congruence|].
  destruct (Z.eqb_spec (batch_size a) 0) as [|_]; [lia|].
  rewrite py_range_backwards by (unfold len; lia).
  eexists _, wr. split; [reflexivity|]. repeat split; assumption.
Qed.

End MainEdges.

(** *** What the loops of [main] add up *)

Section Counts.
Variable clock : nat -> string.
Variable random : nat -> Q.
Context {os : platform}.
Variable a : args.

Lemma saved_batches_app tr1 tr2 :
  saved_batches (tr1 ++ tr2) = saved_batches tr1 ++ saved_batches tr2.
Proof. apply flat_map_app. Qed.

Lemma saved_batches_fetch evs :
  forallb is_fetch_event evs = true -> saved_batches evs = [].
Proof.
  induction evs as [|e evs IH]; [reflexivity|]. simpl. intros H.
  apply andb_prop in H as [He Hevs]. unfold saved_batches in *. simpl.
  rewrite (IH Hevs). destruct e; try discriminate; reflexivity.
Qed.

Lemma saved_entries_concat tr : saved_entries tr = concat (saved_batches tr).
Proof.
  induction tr as [|e tr IH]; [reflexivity|].
  unfold saved_entries, saved_batches in *. simpl. rewrite IH, concat_app.
  destruct e; simpl; rewrite ?app_nil_r; reflexivity.
Qed.

Lemma errors_in_single (e : entry) :
  errors_in [e] = if is_error (status e) then 1 else 0.
Proof.
  unfold errors_in. rewrite filter_cons, filter_nil.
  destruct (is_error (status e)); destruct (decide _); try reflexivity; congruence.
Qed.

Lemma comments_in_app es1 es2 :
  comments_in (es1 ++ es2) = comments_in es1 + comments_in es2.
Proof.
  unfold comments_in. induction es1 as [|e es1 IH]; simpl; [reflexivity|].
  rewrite IH. lia.
Qed.

Lemma len_app {X} (l1 l2 : list X) : len (l1 ++ l2) = len l1 + len l2.
Proof. unfold len. rewrite length_app. lia. Qed.

(** One post: the entry appended, and what it adds to the totals, to the
    error tally and to the error log. *)
Lemma process_post_counts info st w st' w' :
  process_post clock random a info st w = Ok st' w' ->
  exists e lines,
    entry_of info e /\
    batch_results st' = batch_results st ++ [e] /\
    total_comments st' = total_comments st + actual_comment_count e /\
    batch_comments st' = batch_comments st + actual_comment_count e /\
    errors_count st' = errors_count st + errors_in [e] /\
    batch_num st' = batch_num st /\
    errors_log w' = errors_log w ++ lines /\ len lines = errors_in [e] /\
    saved_batches (trace w') = saved_batches (trace w).
Proof.
  unfold process_post. intros H.
  apply bind_ok in H as ([cs st_] & w1 & Hdl & H).
  apply (download_ok clock random) in Hdl
    as (used & evs & Hs & Ht & Hev & Hc & Htm & Hb & Hcs & Hend).
  rewrite int_str in H. simpl in H.
  apply bind_ok in H as (n & w1' & Hn & H). injection Hn as <- <-.
  apply bind_ok in H as (c & w2 & Hsave & H).
  rewrite save_checkpoint_ok in Hsave. injection Hsave as <- <-.
  apply bind_ok in H as (j & w3 & Hj & H). injection Hj as <- <-.
  apply bind_ok in H as ([] & w4 & Hsl & H). apply sleep_inv in Hsl. subst w4.
  injection H as <- <-.
  exists (Entry (post_id info) (comment_count info) (len cs) st_ cs).
  assert (Hlog : exists lines, errors_log w1 = errors_log w ++ lines /\
            len lines = if is_error st_ then 1 else 0).
  { destruct Hend as [(-> & _ & He & _)|[(-> & _ & He & _)|(-> & _ & He & _)]].
    - exists []. rewrite app_nil_r. split; [exact He|reflexivity].
    - exists []. rewrite app_nil_r. split; [exact He|reflexivity].
    - eexists [_]. split; [exact He|reflexivity]. }
  destruct Hlog as (lines & Hlog & Hlen). exists lines.
  rewrite errors_in_single. simpl.
  split. { repeat split. eapply fetch_end_status; eauto. }
  split; [reflexivity|]. split; [reflexivity|]. split; [reflexivity|].
  split. { unfold is_error. destruct (negb _ && negb _); lia. }
  split; [reflexivity|]. split; [exact Hlog|]. split; [exact Hlen|].
  rewrite !saved_batches_app, Ht.
  change (trace w ++ EvCall (str (post_id info)) :: evs)
    with (trace w ++ [EvCall (str (post_id info))] ++ evs).
  rewrite !saved_batches_app, (saved_batches_fetch _ Hev). simpl.
  now rewrite !app_nil_r.
Qed.

Lemma items_loop_counts ps : forall st w st' w',
  mfor (process_post clock random a) ps st w = Ok st' w' ->
  exists new lines,
    Forall2 entry_of ps new /\
    batch_results st' = batch_results st ++ new /\
    total_comments st' = total_comments st + comments_in new /\
    batch_comments st' = batch_comments st + comments_in new /\
    errors_count st' = errors_count st + errors_in new /\
    batch_num st' = batch_num st /\
    errors_log w' = errors_log w ++ lines /\ len lines = errors_in new /\
    saved_batches (trace w') = saved_batches (trace w).
Proof.
  induction ps as [|p ps IH]; intros st w st' w' H.
  - injection H as <- <-. exists [], []. rewrite !app_nil_r.
    split; [constructor|]. unfold comments_in, errors_in, len. simpl.
    repeat split; lia.
  - simpl in H. apply bind_ok in H as (st1 & w1 & Hp & H).
    apply process_post_counts in Hp
      as (e & l1 & He & Hr & Ht & Hbc & Hec & Hn & Hl & Hll & Hsb).
    apply IH in H as (new & l2 & Hnew & Hr' & Ht' & Hbc' & Hec' & Hn' & Hl' & Hll' & Hsb').
    exists (e :: new), (l1 ++ l2).
    change (e :: new) with ([e] ++ new).
    rewrite comments_in_app, errors_in_app, len_app.
    split; [now constructor|].
    split. { rewrite Hr', Hr, <- app_assoc. reflexivity. }
    split. { unfold comments_in at 1. simpl. lia. }
    split. { unfold comments_in at 1. simpl. lia. }
    split; [lia|]. split; [congruence|].
    split. { rewrite Hl', Hl, <- app_assoc. reflexivity. }
    split; [lia|]. congruence.
Qed.

Lemma process_batch_counts remaining start st w st' w' :
  process_batch clock random a remaining start st w = Ok st' w' ->
  exists new lines,
    Forall2 entry_of (py_slice remaining start (start + batch_size a)) new /\
    saved_batches (trace w') = saved_batches (trace w) ++ [new] /\
    total_comments st' = total_comments st + comments_in new /\
    batch_comments st' = comments_in new /\
    errors_count st' = errors_count st + errors_in new /\
    errors_log w' = errors_log w ++ lines /\ len lines = errors_in new.
Proof.
  unfold process_batch. intros H.
  apply bind_ok in H as (st1 & w1 & Hloop & H).
  apply items_loop_counts in Hloop
    as (new & lines & Hnew & Hr & Ht & Hbc & Hec & Hn & Hl & Hll & Hsb).
  simpl in Hr, Ht, Hbc, Hec, Hn.
  apply bind_ok in H as (file & w2 & Hsave & H).
  unfold save_batch in Hsave. injection Hsave as <- <-.
  apply bind_ok in H as ([] & w3 & Hpause & H). injection H as <- <-.
  exists new, lines. simpl.
  assert (Hw3 : saved_batches (trace w3) = saved_batches (trace w1) ++ [new] /\
                errors_log w3 = errors_log w1).
  { destruct (_ <? _).
    - apply bind_ok in Hpause as (j & w4 & Hj & Hsl). injection Hj as <- <-.
      apply sleep_inv in Hsl. subst w3. simpl.
      rewrite !saved_batches_app. simpl. rewrite Hr, app_nil_r. auto.
    - injection Hpause as <-. simpl.
      rewrite !saved_batches_app. simpl. rewrite Hr. auto. }
  destruct Hw3 as (Hsb3 & Hl3).
  split; [exact Hnew|]. split; [congruence|]. split; [exact Ht|].
  split; [lia|]. split; [exact Hec|]. split; [congruence|exact Hll].
Qed.

Lemma batches_loop_counts remaining starts : forall st w st' w',
  mfor (process_batch clock random a remaining) starts st w = Ok st' w' ->
  exists chunks lines,
    Forall2 (Forall2 entry_of)
      (map (fun s => py_slice remaining s (s + batch_size a)) starts) chunks /\
    saved_batches (trace w') = saved_batches (trace w) ++ chunks /\
    total_comments st' = total_comments st + comments_in (concat chunks) /\
    errors_count st' = errors_count st + errors_in (concat chunks) /\
    errors_log w' = errors_log w ++ lines /\
    len lines = errors_in (concat chunks).
Proof.
  induction starts as [|s starts IH]; intros st w st' w' H.
  - injection H as <- <-. exists [], []. rewrite !app_nil_r.
    split; [constructor|]. unfold comments_in, errors_in, len. simpl.
    repeat split; lia.
  - simpl in H. apply bind_ok in H as (st1 & w1 & Hb & H).
    apply process_batch_counts in Hb as (new & l1 & Hnew & Hsb & Ht & _ & Hec & Hl & Hll).
    apply IH in H as (chunks & l2 & Hch & Hsb' & Ht' & Hec' & Hl' & Hll').
    exists (new :: chunks), (l1 ++ l2). simpl.
    rewrite comments_in_app, errors_in_app, len_app.
    split; [now constructor|].
    split. { rewrite Hsb', Hsb, <- app_assoc. reflexivity. }
    split; [lia|]. split; [lia|].
    split. { rewrite Hl', Hl, <- app_assoc. reflexivity. }
    lia.
Qed.

(** The same for a whole run that went through its loops. *)
Lemma main_counts all_posts w st' w' :
  main clock random a (Some all_posts) w = Ok (Some st') w' ->
  let done : gset string :=
    list_to_set (completed_post_ids (start_checkpoint a w)) in
  let remaining := remaining_posts done all_posts in
  exists chunks lines,
    Forall2 (Forall2 entry_of)
      (map (fun s => py_slice remaining s (s + batch_size a))
           (py_range 0 (len remaining) (batch_size a))) chunks /\
    saved_batches (trace w') = saved_batches (trace w) ++ chunks /\
    total_comments st' =
      total_comments_downloaded (start_checkpoint a w) + comments_in (concat chunks) /\
    errors_count st' = errors_in (concat chunks) /\
    errors_log w' = errors_log w ++ lines /\
    len lines = errors_in (concat chunks).
Proof.
  intros H done remaining.
  destruct (main_prelude clock random a all_posts w)
    as (wr & _ & Ht & _ & _ & _ & _ & He & _ & Hmain).
  rewrite Hmain in H. fold done remaining in H.
  destruct remaining as [|p ps] eqn:Erem; [discriminate|]. rewrite <- Erem in *.
  destruct (batch_size a =? 0); [discriminate|].
  apply bind_ok in H as (st1 & w1 & Hloop & H). injection H as <- <-.
  apply batches_loop_counts in Hloop as (chunks & lines & Hch & Hsb & Htot & Hec & Hl & Hll).
  simpl in Htot, Hec.
  exists chunks, lines. split; [exact Hch|].
  split. { rewrite Hsb, Ht, saved_batches_app.
           destruct (reset_trace_silent a w) as (_ & _ & Hrs & _).
           rewrite saved_entries_concat in Hrs.
           assert (Hnil : saved_batches (reset_trace a w) = []).
           { unfold reset_trace. destruct (reset a); [destruct (checkpoint_file w)|];
               reflexivity. }
           now rewrite Hnil, app_nil_r. }
  split; [exact Htot|]. split; [lia|]. split; [congruence|exact Hll].
Qed.

Lemma Forall2_concat {X Y} (R : X -> Y -> Prop) (xss : list (list X))
    (yss : list (list Y)) :
  Forall2 (Forall2 R) xss yss -> Forall2 R (concat xss) (concat yss).
Proof.
  induction 1 as [|xs ys xss yss H _ IH]; simpl; [constructor|].
  now apply Forall2_app.
Qed.

Lemma entries_ids ps es :
  Forall2 entry_of ps es -> map entry_post_id es = map post_id ps.
Proof.
  induction 1 as [|p e ps es (Hid & _) _ IH]; simpl; [reflexivity|].
  now rewrite Hid, IH.
Qed.

Lemma entries_comments ps es :
  Forall2 entry_of ps es -> comments_in es = len (flat_map comments es).
Proof.
  induction 1 as [|p e ps es (_ & _ & Hn & _) _ IH]; [reflexivity|].
  change (e :: es) with ([e] ++ es).
  rewrite comments_in_app, flat_map_app, len_app, IH.
  unfold comments_in. simpl. rewrite app_nil_r. lia.
Qed.

Lemma is_error_failed (st : string) :
  fetch_status st ->
  (is_error st = true <-> exists n, st = "failed_page_" +:+ str n).
Proof.
  intros [->|[->|(n & ->)]].
  - split; [discriminate|]. intros (n & H). discriminate.
  - split; [discriminate|]. intros (n & H). discriminate.
  - split; [eauto|reflexivity].
Qed.

(** The slices the batches are cut into. *)
Lemma slice_length {X} (l : list X) (i : nat) (bs : Z) :
  0 < bs ->
  len (py_slice l (Z.of_nat i * bs) (Z.of_nat i * bs + bs)) =
  Z.min bs (Z.max 0 (len l - Z.of_nat i * bs)).
Proof.
  intros Hbs. rewrite py_slice_batch by exact Hbs.
  unfold len. rewrite length_take, length_drop. lia.
Qed.

Lemma batch_count_bounds (n bs : Z) :
  0 <= n -> 0 < bs ->
  0 <= (n + bs - 1) / bs /\
  ((n + bs - 1) / bs - 1) * bs < n /\ n <= (n + bs - 1) / bs * bs.
Proof.
  intros Hn Hbs.
  pose proof (Z.div_mod (n + bs - 1) bs ltac:(lia)) as Hdm.
  pose proof (Z.mod_pos_bound (n + bs - 1) bs Hbs) as Hmod.
  assert (0 <= (n + bs - 1) / bs) by (apply Z.div_pos; lia).
  repeat split; [assumption|nia|nia].
Qed.

(** X8. The batches a run saves are the remaining posts cut into
    consecutive groups of [batch_size]: every batch but the last holds
    exactly [batch_size] posts, the last one holds the rest, and no batch
    is empty. *)
Theorem batches_are_chunks all_posts w st' w' :
  main clock random a (Some all_posts) w = Ok (Some st') w' ->
  0 < batch_size a ->
  let done : gset string :=
    list_to_set (completed_post_ids (start_checkpoint a w)) in
  let remaining := remaining_posts done all_posts in
  exists chunks,
    saved_batches (trace w') = saved_batches (trace w) ++ chunks /\
    map entry_post_id (concat chunks) = map post_id remaining /\
    len chunks = (len remaining + batch_size a - 1) / batch_size a /\
    (forall i c, chunks !! i = Some c ->
       0 < len c <= batch_size a /\
       ((S i < length chunks)%nat -> len c = batch_size a)).
Proof.
  intros H Hbs done remaining.
  destruct (main_counts all_posts w st' w' H) as (chunks & _ & Hch & Hsb & _).
  fold done remaining in Hch.
  destruct (batch_count_bounds (len remaining) (batch_size a)
              ltac:(unfold len; lia) Hbs) as (Hc0 & Hc1 & Hc2).
  assert (Hlen : len chunks = (len remaining + batch_size a - 1) / batch_size a).
  { apply Forall2_length in Hch. unfold len. rewrite <- Hch.
    rewrite length_map, py_range_batches, length_map, length_seq by exact Hbs.
    fold (len remaining). lia. }
  exists chunks. split; [exact Hsb|].
  split. { apply Forall2_concat, entries_ids in Hch.
           now rewrite slices_concat in Hch. }
  split; [exact Hlen|].
  intros i c Hi.
  destruct (Forall2_lookup_r _ _ _ _ _ Hch Hi) as (sl & Hsl & Hc).
  rewrite py_range_batches, map_map in Hsl by exact Hbs.
  apply list_lookup_fmap_Some in Hsl as (j & -> & Hj).
  apply lookup_seq in Hj as [-> Hj]. simpl in Hc.
  apply Forall2_length in Hc.
  assert (Hlc : len c = Z.min (batch_size a)
                  (Z.max 0 (len remaining - Z.of_nat i * batch_size a))).
  { rewrite <- slice_length by exact Hbs. unfold len. now rewrite Hc. }
  apply lookup_lt_Some in Hi.
  assert (Z.of_nat i < len chunks) by (unfold len; lia).
  split; [nia|]. intros Hlast.
  assert (Z.of_nat i + 1 < len chunks) by (unfold len; lia). nia.
Qed.

(** X9. The entries a run saves mirror the posts it had left to download,
    in input order: each carries the identifier and the expected count of
    its post, the number of records fetched as actual count, and one of the
    three statuses of the fetcher. *)
Theorem entries_mirror_input all_posts w st' w' :
  main clock random a (Some all_posts) w = Ok (Some st') w' ->
  0 < batch_size a ->
  let done : gset string :=
    list_to_set (completed_post_ids (start_checkpoint a w)) in
  exists new,
    saved_entries (trace w') = saved_entries (trace w) ++ new /\
    Forall2 (fun p e =>
               entry_post_id e = post_id p /\
               expected_comment_count e = comment_count p /\
               actual_comment_count e = len (comments e) /\
               (status e = "ok" \/ status e = "404_not_found" \/
                exists n, status e = "failed_page_" +:+ str n))
            (remaining_posts done all_posts) new.
Proof.
  intros H Hbs done.
  destruct (main_counts all_posts w st' w' H) as (chunks & _ & Hch & Hsb & _).
  exists (concat chunks).
  split. { now rewrite !saved_entries_concat, Hsb, concat_app. }
  apply Forall2_concat in Hch. rewrite slices_concat in Hch by exact Hbs.
  exact Hch.
Qed.

(** X10. The running total of a run is the total of the checkpoint it
    loaded plus the records of the entries it saved; this is also the total
    of the checkpoint file it leaves. *)
Theorem totals_add_up all_posts w st' w' :
  main clock random a (Some all_posts) w = Ok (Some st') w' ->
  0 < batch_size a ->
  exists new c,
    saved_entries (trace w') = saved_entries (trace w) ++ new /\
    total_comments st' =
      total_comments_downloaded (start_checkpoint a w) +
      len (flat_map comments new) /\
    comments_in new = len (flat_map comments new) /\
    checkpoint_file w' = Some c /\
    total_comments_downloaded c = total_comments st'.
Proof.
  intros H Hbs.
  destruct (main_counts all_posts w st' w' H) as (chunks & _ & Hch & Hsb & Htot & _).
  destruct (main_ok clock random a all_posts w st' w' H Hbs)
    as (_ & _ & _ & _ & _ & _ & _ & _ & _ & _ & Hck & _ & Hsy).
  apply Forall2_concat, entries_comments in Hch.
  exists (concat chunks), (ckpt st').
  split. { now rewrite !saved_entries_concat, Hsb, concat_app. }
  split; [congruence|]. split; [exact Hch|]. split; assumption.
Qed.

(** X11. The error tally of a run counts the entries it saved with a
    status other than ["ok"] and ["404_not_found"], that is, the
    ["failed_page_N"] ones; and the run appended exactly that many lines
    to the error log, keeping the lines that were there. *)
Theorem errors_match_log all_posts w st' w' :
  main clock random a (Some all_posts) w = Ok (Some st') w' ->
  exists new lines,
    saved_entries (trace w') = saved_entries (trace w) ++ new /\
    errors_log w' = errors_log w ++ lines /\
    errors_count st' = len lines /\
    errors_count st' = errors_in new /\
    Forall (fun e => is_error (status e) = true <->
                     exists n, status e = "failed_page_" +:+ str n) new.
Proof.
  intros H.
  destruct (main_counts all_posts w st' w' H)
    as (chunks & lines & Hch & Hsb & _ & Hec & Hl & Hll).
  exists (concat chunks), lines.
  split. { now rewrite !saved_entries_concat, Hsb, concat_app. }
  split; [exact Hl|]. split; [lia|]. split; [exact Hec|].
  apply Forall2_concat in Hch. clear -Hch.
  induction Hch as [|p e ps es (_ & _ & _ & Hst) _ IH]; constructor; [|exact IH].
  now apply is_error_failed.
Qed.

End Counts.

(** *** Whatever the outcome *)

Section Outcomes.
Variable clock : nat -> string.
Variable random : nat -> Q.
Context {os : platform}.

Lemma stays_ret {A} (R : relation world) `{!Reflexive R} (x : A) : stays R (ret x).
Proof. intros w. simpl. reflexivity. Qed.

Lemma stays_bind {A B} (R : relation world) `{!Transitive R}
    (m : M A) (k : A -> M B) :
  stays R m -> (forall x, stays R (k x)) -> stays R (bind m k).
Proof.
  intros Hm Hk w. unfold bind. specialize (Hm w).
  destruct (m w) as [x w1|e w1|w1]; simpl in *; auto.
  etrans; [exact Hm|apply Hk].
Qed.

Lemma fetch_frame_preorder : PreOrder fetch_frame.
Proof.
  split.
  - intros w. repeat split; reflexivity.
  - intros w1 w2 w3 (H1 & H2 & H3 & H4 & H5 & H6) (G1 & G2 & G3 & G4 & G5 & G6).
    repeat split; try congruence; etrans; eassumption.
Qed.
#[local] Existing Instance fetch_frame_preorder.

(** A relation that holds across drawing random numbers and sleeping
    holds across every pause. *)
Lemma stays_paused (R : relation world) (m : M unit) :
  (forall w d n, R w (emit (EvSleep d) (set_draws n w))) ->
  (forall w n, R w (set_draws n w)) ->
  (forall w, paused w (m w)) -> stays R m.
Proof.
  intros Hs Hd Hp w. specialize (Hp w).
  destruct (m w) as [u w'|e w'|w']; simpl in *.
  - destruct Hp as (d & n & ->). apply Hs.
  - destruct Hp as (_ & n & ->). apply Hd.
  - destruct Hp.
Qed.

Lemma frame_paused (m : M unit) :
  (forall w, paused w (m w)) -> stays fetch_frame m.
Proof.
  apply stays_paused.
  - intros w d n. repeat split; try reflexivity. simpl. now apply prefix_app_r.
  - intros w n. repeat split; reflexivity.
Qed.

Lemma frame_sleep d : stays fetch_frame (sleep d).
Proof. apply frame_paused. intros w. apply paused_sleep. Qed.

Lemma frame_uniform lo hi : stays fetch_frame (random_uniform random lo hi).
Proof. intros w. repeat split; reflexivity. Qed.

Lemma frame_get url : stays fetch_frame (requests_get url).
Proof.
  intros w. unfold requests_get. destruct (script w) as [|r rs] eqn:E; simpl;
    [reflexivity|].
  repeat split; try reflexivity; simpl.
  - now apply prefix_app_r.
  - rewrite E. now apply suffix_cons_r.
Qed.

Lemma frame_log_error post_id msg : stays fetch_frame (log_error clock post_id msg).
Proof.
  intros w. rewrite log_error_ok. simpl.
  repeat split; try reflexivity; simpl; now apply prefix_app_r.
Qed.

Lemma frame_attempt_loop b u acc attempts :
  stays fetch_frame (attempt_loop random b u acc attempts).
Proof.
  induction attempts as [|n attempts IH]; simpl; [apply stays_ret; apply _|].
  apply stays_bind; [apply _|apply frame_get|]. intros [code body| | |].
  - destruct (code =? 200).
    + destruct body; [apply stays_ret; apply _|].
      apply stays_bind; [apply _|apply frame_sleep|auto].
    + destruct ((code =? 403) || (code =? 429)).
      * apply stays_bind; [apply _| |auto].
        apply frame_paused. intros w. apply paused_rate_limited.
      * destruct (code =? 404); [apply stays_ret; apply _|].
        apply stays_bind; [apply _| |auto].
        apply frame_paused. intros w. apply paused_server_error.
  - apply stays_bind; [apply _| |auto].
    apply frame_paused. intros w. apply paused_timeout.
  - apply stays_bind; [apply _| |auto].
    apply frame_paused. intros w. apply paused_connection_error.
  - apply stays_bind; [apply _|apply frame_sleep|auto].
Qed.

Lemma frame_while_url fuel : forall post_id dl mr b url page acc,
  stays fetch_frame (while_url clock random fuel post_id dl mr b url page acc).
Proof.
  induction fuel as [|fuel IH]; intros post_id dl mr b url page acc.
  - destruct url as [[|c s]|]; simpl; try (apply stays_ret; apply _).
    intros w. simpl. reflexivity.
  - destruct url as [[|c s]|]; simpl; try (apply stays_ret; apply _).
    apply stays_bind; [apply _|apply frame_attempt_loop|].
    intros [acc' url'| |].
    + apply stays_bind; [apply _| |intros _; apply IH].
      destruct (truthy url'); [apply frame_sleep|apply stays_ret; apply _].
    + apply stays_ret; apply _.
    + apply stays_bind; [apply _|apply frame_log_error|].
      intros _. apply stays_ret; apply _.
Qed.

Lemma frame_download post_id dl mr b :
  stays fetch_frame (download_comments_for_post clock random post_id dl mr b).
Proof.
  intros w. unfold download_comments_for_post.
  etrans; [|apply frame_while_url].
  repeat split; try reflexivity. simpl. now apply prefix_app_r.
Qed.

(** X12. Whatever its outcome (it returns, raises or is left waiting for
    the server), one call of the fetcher leaves the checkpoint file, the
    temporary file and the batch directory as they were; it only appends to
    the error log and consumes replies. *)
Theorem fetch_leaves_files_alone post_id dl mr b w :
  let w' := world_of (download_comments_for_post clock random post_id dl mr b w) in
  checkpoint_file w' = checkpoint_file w /\ tmp_file w' = tmp_file w /\
  batch_files w' = batch_files w /\
  (exists lines, errors_log w' = errors_log w ++ lines) /\
  (exists used, script w = used ++ script w').
Proof.
  destruct (frame_download post_id dl mr b w) as (H1 & H2 & H3 & H4 & _ & H6).
  repeat split; assumption.
Qed.

(** **** Outcomes of the loops of [main] *)

Lemma wp_bind {A B} (m : M A) (k : A -> M B) Q F w :
  wp m (fun x w1 => wp (k x) Q F w1) F w -> wp (bind m k) Q F w.
Proof. unfold wp, bind. destruct (m w); auto. Qed.

Lemma wp_mono {A} (m : M A) (Q Q' : A -> world -> Prop) (F F' : world -> Prop) w :
  wp m Q F w -> (forall x w1, Q x w1 -> Q' x w1) -> (forall w1, F w1 -> F' w1) ->
  wp m Q' F' w.
Proof. unfold wp. destruct (m w); auto. Qed.

Lemma wp_stays {A} (R : relation world) (m : M A) w :
  stays R m -> wp m (fun _ w1 => R w w1) (R w) w.
Proof. intros H. specialize (H w). unfold wp. destruct (m w); exact H. Qed.

Lemma wp_mfor {X S} (body : X -> S -> M S)
    (I : list X -> S -> world -> Prop) (F : world -> Prop) :
  (forall x xs s w, I (x :: xs) s w -> wp (body x s) (I xs) F w) ->
  forall xs s w, I xs s w -> wp (mfor body xs s) (I []) F w.
Proof.
  intros Hbody. induction xs as [|x xs IH]; intros s w HI; simpl.
  - exact HI.
  - apply wp_bind. eapply wp_mono; [apply Hbody; exact HI| |auto].
    intros s' w1 HI'. now apply IH.
Qed.

Variable a : args.
Variable all_posts : list post_info.
Variable w0 : world.

#[local] Abbreviation done :=
  (list_to_set (completed_post_ids (start_checkpoint a w0)) : gset string).
#[local] Abbreviation remaining := (remaining_posts done all_posts).
#[local] Abbreviation n0 := (Z.of_nat (size done) / batch_size a + 1).
#[local] Abbreviation starts := (py_range 0 (len remaining) (batch_size a)).
#[local] Abbreviation disk_state :=
  (disk_state a done n0 (posts_from a remaining starts) (batch_files w0)).
#[local] Abbreviation between_batches :=
  (between_batches a done n0 remaining (posts_from a remaining starts)
                   (batch_files w0)).
#[local] Abbreviation within_batch :=
  (within_batch a done n0 remaining (posts_from a remaining starts)
                (batch_files w0)).

Lemma all_items_app bls1 bls2 : all_items (bls1 ++ bls2) = all_items bls1 ++ all_items bls2.
Proof. apply flat_map_app. Qed.

Lemma batches_files_snoc bls : forall n m bl,
  batches_files n (bls ++ [bl]) m =
  <[batch_file_name (n + len bls) := batch_entries bl]> (batches_files n bls m).
Proof.
  induction bls as [|bl0 bls IH]; intros n m bl; simpl.
  - unfold len. simpl. now rewrite Z.add_0_r.
  - rewrite IH. do 2 f_equal. unfold len. simpl length. lia.
Qed.

Lemma posts_from_nil starts' : posts_from a [] starts' = [].
Proof.
  unfold posts_from. induction starts' as [|s starts' IH]; [reflexivity|].
  simpl. rewrite IH. unfold py_slice. now rewrite drop_nil, take_nil.
Qed.

Lemma checkpoint_ids_frame w w1 :
  checkpoint_file w1 = checkpoint_file w -> checkpoint_ids w1 = checkpoint_ids w.
Proof. unfold checkpoint_ids. now intros ->. Qed.

Lemma process_post_any bls rest x xs st w :
  within_batch bls rest (x :: xs) st w ->
  wp (process_post clock random a x st) (within_batch bls rest xs)
     (fun w' => exists todo, disk_state false todo w') w.
Proof.
  intros (buf & Hf & Hn & Hr & Hc & Hck & Hlen & Hpre).
  unfold process_post. apply wp_bind.
  eapply wp_mono; [apply (wp_stays fetch_frame), frame_download| |].
  - intros [cs status] w1 (G1 & _ & G3 & _). simpl.
    rewrite int_str. unfold wp, bind at 1, ret at 1.
    unfold bind at 1. rewrite save_checkpoint_ok.
    unfold bind at 1, random_uniform at 1. unfold bind at 1.
    set (il := ItemLog x cs status []
                 (Checkpoint (elements (completed st ∪ {[str (post_id x)]}))
                    (total_comments st + len cs) (Some (clock (ticks w1)))) 0).
    assert (Hids : completed st ∪ {[str (post_id x)]} =
                   done ∪ list_to_set (map item_id (all_items bls ++ buf ++ [il]))).
    { rewrite Hc, !map_app, !list_to_set_app_L. simpl.
      rewrite (right_id_L ∅ (∪)), !(assoc_L (∪)). reflexivity. }
    match goal with |- context [sleep ?d ?wx] =>
      destruct (sleep_cases d wx) as [[_ ->]|[_ (e & -> & _)]] end; simpl.
    + exists (buf ++ [il]). simpl.
      split; [congruence|]. split; [exact Hn|].
      split. { rewrite Hr, map_app. reflexivity. }
      split; [exact Hids|].
      split. { unfold checkpoint_ids. simpl. now rewrite list_to_set_elements_L. }
      split. { rewrite length_app. simpl in *. lia. }
      rewrite <- Hpre, !app_assoc, !map_app, <- !app_assoc. reflexivity.
    + exists (xs ++ posts_from a remaining rest), bls, (buf ++ [il]).
      split; [simpl; congruence|].
      split. { unfold checkpoint_ids. simpl.
               now rewrite list_to_set_elements_L. }
      split. { rewrite length_app. simpl in *. lia. }
      split; [discriminate|].
      rewrite <- Hpre, !app_assoc, !map_app, <- !app_assoc. reflexivity.
  - intros w1 (G1 & _ & G3 & _).
    exists (x :: xs ++ posts_from a remaining rest), bls, buf.
    split; [congruence|].
    split. { rewrite (checkpoint_ids_frame w w1 G1). congruence. }
    split; [lia|]. split; [discriminate|]. exact Hpre.
Qed.

Lemma process_batch_any s rest st w :
  between_batches (s :: rest) st w ->
  wp (process_batch clock random a remaining s st) (between_batches rest)
     (fun w' => exists todo, disk_state false todo w') w.
Proof.
  intros (bls & Hf & Hn & Hc & Hck & Hpre).
  unfold process_batch. apply wp_bind.
  eapply wp_mono;
    [apply (wp_mfor _ (within_batch bls rest)
              (fun w' => exists todo, disk_state false todo w'))| |auto].
  - intros x xs s' w'. apply process_post_any.
  - exists []. simpl. rewrite !app_nil_r.
    split; [exact Hf|]. split; [exact Hn|]. split; [reflexivity|].
    split; [exact Hc|]. split; [exact Hck|].
    split. { unfold py_slice. rewrite length_take. lia. }
    exact Hpre.
  - clear. intros st1 w1 (buf & Hf & Hn & Hr & Hc & Hck & Hlen & Hpre).
    unfold wp, bind at 1, save_batch at 1.
    set (w2 := set_batch_files _ _).
    assert (Hpre' : map il_info (all_items (bls ++ [BatchLog buf []])) ++
                    posts_from a remaining rest = posts_from a remaining starts).
    { rewrite all_items_app. unfold all_items at 2. simpl.
      rewrite app_nil_r. exact Hpre. }
    assert (Hf2 : batch_files w2 =
                  batches_files n0 (bls ++ [BatchLog buf []]) (batch_files w0)).
    { rewrite batches_files_snoc. subst w2. simpl.
      unfold batch_entries. simpl. now rewrite Hf, Hn, Hr. }
    assert (Hc2 : completed st1 =
                  done ∪ list_to_set (map item_id (all_items (bls ++ [BatchLog buf []])))).
    { rewrite all_items_app. unfold all_items at 2. simpl.
      rewrite app_nil_r. exact Hc. }
    assert (HK : forall w3, batch_files w3 = batch_files w2 ->
               checkpoint_file w3 = checkpoint_file w1 ->
               between_batches rest
                 (Locals (completed st1) (ckpt st1) (total_comments st1)
                    (batch_num st1 + 1) (errors_count st1) (batch_results st1)
                    (batch_comments st1)) w3).
    { intros w3 E1 E2. exists (bls ++ [BatchLog buf []]). simpl.
      split; [congruence|].
      split. { rewrite len_app. unfold len at 2. simpl. lia. }
      split; [exact Hc2|].
      split; [rewrite (checkpoint_ids_frame w1 w3 E2); exact Hck|exact Hpre']. }
    assert (HF : forall w3, batch_files w3 = batch_files w2 ->
               checkpoint_file w3 = checkpoint_file w1 ->
               exists todo, disk_state false todo w3).
    { intros w3 E1 E2. exists (posts_from a remaining rest), (bls ++ [BatchLog buf []]), [].
      rewrite app_nil_r.
      split; [congruence|].
      split. { rewrite (checkpoint_ids_frame w1 w3 E2), Hck. exact Hc2. }
      split; [simpl; lia|]. split; [discriminate|exact Hpre']. }
    destruct (_ <? _).
    + unfold bind at 1, bind at 1, random_uniform at 1.
      match goal with |- context [sleep ?d ?wx] =>
        destruct (sleep_cases d wx) as [[_ ->]|[_ (e & -> & _)]] end;
        simpl; [apply HK|apply HF]; reflexivity.
    + unfold bind, ret. simpl. apply HK; reflexivity.
Qed.

(** The state of the disk after a run, whatever its outcome. *)
Lemma main_any :
  let r := main clock random a (Some all_posts) w0 in
  exists todo, disk_state (returned r) todo (world_of r).
Proof.
  intros r. subst r.
  destruct (main_prelude clock random a all_posts w0)
    as (wr & _ & _ & _ & Hck & _ & Hf & _ & _ & ->).
  assert (Hstart : forall b, remaining = [] \/ b = false ->
            exists todo, disk_state b todo wr).
  { intros b Hb. exists (posts_from a remaining starts), [], [].
    split; [exact Hf|]. split; [rewrite Hck; simpl; now rewrite (right_id_L ∅ (∪))|].
    split; [simpl; lia|]. split; [|reflexivity].
    intros ->. split; [reflexivity|]. destruct Hb as [->|]; [|discriminate].
    apply posts_from_nil. }
  destruct remaining as [|p ps] eqn:Erem.
  { simpl. apply Hstart. now left. }
  rewrite <- Erem in Hstart |- *. clear Erem p ps.
  destruct (batch_size a =? 0).
  { simpl. apply Hstart. now right. }
  match goal with |- context [bind ?m ?k wr] =>
    assert (Hwp : wp (bind m k)
                    (fun _ w' => exists todo, disk_state true todo w')
                    (fun w' => exists todo, disk_state false todo w') wr)
  end.
  { apply wp_bind.
    eapply wp_mono;
      [apply (wp_mfor _ between_batches
                (fun w' => exists todo, disk_state false todo w'))| |auto].
    - intros s rest st w. apply process_batch_any.
    - exists []. simpl. split; [exact Hf|].
      split; [unfold len; simpl; lia|].
      split; [now rewrite (right_id_L ∅ (∪))|]. split; [exact Hck|reflexivity].
    - intros st w1 (bls & Hf1 & Hn1 & Hc1 & Hck1 & Hpre1). unfold wp, ret.
      exists [], bls, []. change (posts_from a remaining []) with (@nil post_info) in Hpre1.
      rewrite !app_nil_r in *.
      split; [exact Hf1|]. split; [congruence|]. split; [simpl; lia|].
      split; [auto|exact Hpre1]. }
  unfold wp in Hwp.
  match goal with |- context [bind ?m ?k wr] =>
    destruct (bind m k wr) as [x w1|e w1|w1]; exact Hwp
  end.
Qed.

Lemma size_list_to_set_le (l : list string) :
  (size (list_to_set l : gset string) <= length l)%nat.
Proof.
  induction l as [|x l IH].
  - rewrite list_to_set_nil, size_empty. reflexivity.
  - rewrite list_to_set_cons, size_union_alt, size_singleton. simpl length.
    pose proof (subseteq_size (list_to_set l ∖ {[x]}) (list_to_set l : gset string)
                  ltac:(apply subseteq_difference_l; reflexivity)).
    lia.
Qed.

Lemma batches_files_lookup bls : forall n m f es,
  batches_files n bls m !! f = Some es ->
  m !! f = Some es \/ exists bl, bl ∈ bls /\ es = batch_entries bl.
Proof.
  induction bls as [|bl bls IH]; intros n m f es H; [now left|].
  simpl in H. apply IH in H as [H|(bl' & Hin & ->)].
  - apply lookup_insert_Some in H as [[_ <-]|[_ H]].
    + right. exists bl. split; [apply list_elem_of_here|reflexivity].
    + now left.
  - right. exists bl'. split; [now apply list_elem_of_further|reflexivity].
Qed.

(** X13. Whatever the outcome of a run, the checkpoint file lists the
    completed set the run loaded plus the posts of a prefix of the list it
    had left to download, and nothing else; so without [--reset] no
    identifier is ever dropped from the checkpoint.  A run that returns
    has checkpointed the whole list. *)
Theorem checkpoint_only_grows :
  0 < batch_size a ->
  let r := main clock random a (Some all_posts) w0 in
  exists fetched,
    fetched `prefix_of` remaining /\
    checkpoint_ids (world_of r) =
      done ∪ list_to_set (map (fun p => str (post_id p)) fetched) /\
    (is_ok r -> fetched = remaining) /\
    (reset a = false -> checkpoint_ids w0 ⊆ checkpoint_ids (world_of r)).
Proof.
  intros Hbs r. destruct main_any as (todo & bls & buf & _ & Hck & _ & Hsaved & Hpre).
  fold r in Hck, Hsaved. unfold posts_from in Hpre.
  rewrite slices_concat in Hpre by exact Hbs.
  exists (map il_info (all_items bls ++ buf)).
  split; [exists todo; now rewrite Hpre|].
  split. { rewrite Hck, map_map. reflexivity. }
  split. { intros Hok. destruct r as [x w1|e w1|w1]; try contradiction.
           destruct (Hsaved eq_refl) as (_ & ->). now rewrite app_nil_r in Hpre. }
  intros Hreset. rewrite Hck. apply union_subseteq_l'.
  unfold checkpoint_ids, start_checkpoint. rewrite Hreset.
  destruct (checkpoint_file w0); reflexivity.
Qed.

(** X14. Whatever the outcome of a run, every file of the batch directory
    is either as the run found it or holds only posts that are in the
    checkpoint file: a batch is never saved ahead of the checkpoint. *)
Theorem saved_posts_are_checkpointed (f : string) (es : list entry) :
  let r := main clock random a (Some all_posts) w0 in
  batch_files (world_of r) !! f = Some es ->
  batch_files w0 !! f = Some es \/
  forall e, e ∈ es -> str (entry_post_id e) ∈ checkpoint_ids (world_of r).
Proof.
  intros r Hf. destruct main_any as (todo & bls & buf & Hfiles & Hck & _).
  fold r in Hfiles, Hck. rewrite Hfiles in Hf.
  apply batches_files_lookup in Hf as [Hf|(bl & Hbl & ->)]; [now left|].
  right. intros e He. unfold batch_entries in He.
  apply list_elem_of_fmap in He as (il & -> & Hil).
  rewrite Hck. apply elem_of_union_r, elem_of_list_to_set, list_elem_of_fmap.
  exists il. split; [reflexivity|]. apply elem_of_app. left.
  apply all_items_lookup. apply list_elem_of_lookup in Hbl as (i & Hi). eauto.
Qed.

(** X15. If the batch files the run finds hold every post of the completed
    set it loads, and none of them is numbered at or above the first batch
    of the run, then whatever the outcome (also when the run raises or is
    cut short) at most [batch_size] posts are in the checkpoint without
    being in a batch file: the posts of the batch in progress.  A run that
    returns leaves none. *)
Theorem crash_loses_at_most_a_batch :
  let r := main clock random a (Some all_posts) w0 in
  done ⊆ file_ids w0 ->
  fresh_from n0 (batch_files w0) ->
  (size (checkpoint_ids (world_of r) ∖ file_ids (world_of r))
     <= Z.to_nat (batch_size a))%nat /\
  (is_ok r -> checkpoint_ids (world_of r) ⊆ file_ids (world_of r)).
Proof.
  intros r Hdone Hfresh.
  destruct main_any as (todo & bls & buf & Hfiles & Hck & Hlen & Hsaved & _).
  fold r in Hfiles, Hck, Hsaved.
  assert (Hids : file_ids (world_of r) =
                 file_ids w0 ∪ list_to_set (map item_id (all_items bls))).
  { unfold file_ids. rewrite Hfiles. apply ids_in_batches_files.
    intros i _. apply Hfresh. lia. }
  assert (Hsub : checkpoint_ids (world_of r) ∖ file_ids (world_of r) ⊆
                 list_to_set (map item_id buf)).
  { intros id. rewrite elem_of_difference, Hck, Hids, map_app, list_to_set_app_L.
    rewrite !elem_of_union. intros [[Hd|[Hi|Hb]] Hn]; [| |exact Hb].
    - exfalso. apply Hn. left. now apply Hdone.
    - exfalso. apply Hn. now right. }
  split.
  - apply subseteq_size in Hsub.
    pose proof (size_list_to_set_le (map item_id buf)) as Hle.
    rewrite length_map in Hle. lia.
  - intros Hok. destruct r as [x w1|e w1|w1]; try contradiction.
    destruct (Hsaved eq_refl) as (-> & _).
    intros id Hid. destruct (decide (id ∈ file_ids (world_of (Ok x w1)))) as [|Hn];
      [assumption|].
    exfalso. assert (Hin : id ∈ (∅ : gset string)); [|now apply not_elem_of_empty in Hin].
    change (∅ : gset string) with (list_to_set (map item_id []) : gset string).
    apply Hsub. apply elem_of_difference. split; assumption.
Qed.

End Outcomes.

(** *** More on the fetcher *)

Section FetcherMore.
Variable clock : nat -> string.
Variable random : nat -> Q.
Context {os : platform}.

(** X16. When the server answers every page within the attempts allowed
    and the last page has no cursor, and the pause between pages and the
    waits of the retry loop are durations [time.sleep] takes, the fetch
    returns ["ok"] with the records of all the pages in the order the
    server sent them; failed attempts in between leave no mark on the
    result, and nothing is written to the error log. *)
Theorem fetch_collects_all_pages post_id dl mr b rounds fs last rest w :
  fetch_fits dl mr b = true -> unit_interval random ->
  script w = flat_map round_replies rounds ++ fs ++ Http 200 (Some last) :: rest ->
  Forall (round_ok mr) rounds ->
  forallb is_failure fs = true -> (length fs < Z.to_nat mr)%nat ->
  truthy (next_page last) = false ->
  exists w',
    download_comments_for_post clock random post_id dl mr b w =
      Ok (flat_map round_comments rounds ++ page_comments last, "ok") w' /\
    script w' = rest /\ errors_log w' = errors_log w /\
    checkpoint_file w' = checkpoint_file w /\ batch_files w' = batch_files w.
Proof.
  intros Hfit Hr Hs Hok Hfs Hl Hlast.
  destruct (download_rounds clock random post_id dl mr b rounds _ w Hfit Hr Hs Hok)
    as (w1 & evs & fuel & -> & Hs1 & (_ & Hc1 & _ & He1 & Hb1) & _ & _ & Hu).
  destruct (fetch_fits_spec dl mr b Hfit) as (Hdl & Hb & Hmr).
  destruct (while_url_page clock random b Hb Hr post_id dl mr Hdl Hmr fuel _
              (len rounds) (flat_map round_comments rounds) fs last rest w1
              Hu Hs1 Hfs Hl)
    as (w2 & evs2 & -> & Hs2 & (_ & Hc2 & _ & He2 & Hb2) & _).
  rewrite while_url_falsy by exact Hlast.
  exists w2. repeat split; congruence.
Qed.

Lemma pages_in_nonneg used : 0 <= pages_in used.
Proof. unfold pages_in, len. lia. Qed.

Lemma no_attempts (mr : Z) : mr <= 0 -> py_range 1 (mr + 1) 1 = [].
Proof.
  intros H. apply length_zero_iff_nil. rewrite attempts_length. lia.
Qed.

(** X17. With [max_retries] at 0 or below the retry loop is empty: the
    fetch sends no request and consumes no reply, logs one error and
    returns ["failed_page_1"] with no records. *)
Theorem no_attempts_no_requests post_id dl mr b w :
  mr <= 0 ->
  exists w',
    download_comments_for_post clock random post_id dl mr b w =
      Ok ([], "failed_page_1") w' /\
    script w' = script w /\ gets (trace w') = gets (trace w) /\
    errors_log w' = errors_log w ++ [error_line (clock (ticks w)) post_id mr 1].
Proof.
  intros Hmr. unfold download_comments_for_post.
  destruct (initial_url_nonempty post_id) as (c & s & ->).
  rewrite while_url_step, no_attempts by exact Hmr. simpl.
  eexists. split; [reflexivity|]. simpl.
  split; [reflexivity|]. split; [|reflexivity].
  unfold gets. rewrite !flat_map_app. simpl. now rewrite !app_nil_r.
Qed.

(** X18. A body that cannot be decoded and an exception that is neither a
    timeout nor a connection error are retried after exactly
    [backoff_base] seconds, whatever the attempt number and without
    jitter, when that is a duration [time.sleep] takes: the attempt sends
    its request, sleeps and goes on to the next attempt, or leaves the loop
    when it was the last one. *)
Theorem other_failures_wait_base b n u acc r rs w :
  can_sleep b = true -> script w = r :: rs ->
  r = Http 200 None \/ r = RaiseOther ->
  waits_before_retry random b u acc n w b (set_script rs (emit (EvGet u) w)).
Proof.
  intros Hb Hs Hr. set (w1 := set_script rs (emit (EvGet u) w)).
  assert (Hstep : forall attempts,
            attempt_loop random b u acc (n :: attempts) w =
            attempt_loop random b u acc attempts (emit (EvSleep b) w1)).
  { intros attempts.
    destruct Hr as [-> | ->]; simpl; unfold bind at 1, requests_get; rewrite Hs;
      simpl; unfold bind at 1; fold w1; now rewrite (sleep_ok _ _ Hb). }
  split; [|exact Hstep]. now rewrite Hstep.
Qed.

(** A sleep of a negative duration raises [ValueError], unless the
    duration is below [-2^63] nanoseconds, where the conversion raises
    [OverflowError] before the sign is looked at. *)
Lemma sleep_negative (d : Q) w :
  (d < 0)%Q ->
  sleep d w =
    Raised (if Qle_bool (- PYTIME_BOUND) (d * NS_PER_SECOND) then ValueError
            else OverflowError) w.
Proof.
  intros H. pose proof pytime_bound_pos as Hp. unfold sleep. cbv zeta.
  destruct (Qle_bool (- PYTIME_BOUND) (d * NS_PER_SECOND)) eqn:E1; [|reflexivity].
  assert (E2 : Qle_bool (d * NS_PER_SECOND) PYTIME_BOUND = true).
  { apply Qle_bool_iff. unfold NS_PER_SECOND. lra. }
  assert (E3 : Qle_bool 0 (d * NS_PER_SECOND) = false).
  { apply Qle_bool_false. unfold NS_PER_SECOND. lra. }
  now rewrite E2, E3.
Qed.

Lemma wait_timeout_first (b : Q) w :
  wait_timeout b 1 w = Ok (b * inject_Z 1)%Q w.
Proof. reflexivity. Qed.

Lemma attempt_loop_raises b u acc attempts r rs w :
  (b < 0)%Q -> script w = r :: rs ->
  r = RaiseTimeout \/ r = Http 200 None \/ r = RaiseOther ->
  attempt_loop random b u acc (1 :: attempts) w =
  Raised (if Qle_bool (- PYTIME_BOUND) (b * NS_PER_SECOND) then ValueError
          else OverflowError)
         (set_script rs (emit (EvGet u) w)).
Proof.
  intros Hb Hs Hr.
  destruct Hr as [-> | [-> | ->]]; simpl; unfold bind at 1, requests_get;
    rewrite Hs; simpl; unfold bind at 1.
  - unfold sleep_for, bind. rewrite wait_timeout_first.
    rewrite sleep_negative by (unfold inject_Z; lra).
    replace (Qle_bool (- PYTIME_BOUND) (b * inject_Z 1 * NS_PER_SECOND))
      with (Qle_bool (- PYTIME_BOUND) (b * NS_PER_SECOND)); [reflexivity|].
    destruct (Qle_bool (- PYTIME_BOUND) (b * NS_PER_SECOND)) eqn:E; symmetry.
    + apply Qle_bool_iff in E. apply Qle_bool_iff.
      unfold inject_Z, NS_PER_SECOND in *. lra.
    + apply Qle_bool_false in E. apply Qle_bool_false.
      unfold inject_Z, NS_PER_SECOND in *. lra.
  - now rewrite sleep_negative.
  - now rewrite sleep_negative.
Qed.

(** X19. Nothing checks the sign of [backoff_base]: with a negative one,
    the first timeout, undecodable body or other exception makes the sleep
    before the retry raise, which ends the fetch after that one request.
    The exception is [ValueError], or [OverflowError] when the base is
    below [-2^63] nanoseconds. *)
Theorem negative_backoff_is_fatal post_id dl mr b r rs w :
  (b < 0)%Q -> 1 <= mr -> script w = r :: rs ->
  r = RaiseTimeout \/ r = Http 200 None \/ r = RaiseOther ->
  exists w',
    download_comments_for_post clock random post_id dl mr b w =
      Raised (if Qle_bool (- PYTIME_BOUND) (b * NS_PER_SECOND) then ValueError
              else OverflowError) w' /\
    script w' = rs /\
    gets (trace w') = gets (trace w) ++ [initial_url post_id] /\
    errors_log w' = errors_log w.
Proof.
  intros Hb Hmr Hs Hr. unfold download_comments_for_post.
  destruct (initial_url_nonempty post_id) as (c & s & ->).
  rewrite while_url_step.
  destruct (attempts_lookup mr 0 ltac:(lia)) as (attempts & Ha).
  rewrite drop_0 in Ha. change (Z.of_nat 0 + 1) with 1 in Ha. rewrite Ha.
  rewrite (attempt_loop_raises b _ _ _ r rs) by assumption.
  eexists. split; [reflexivity|]. simpl. repeat split.
  unfold gets. rewrite !flat_map_app. simpl. now rewrite app_nil_r.
Qed.

(** **** The URLs requested *)

Lemma gets_app tr1 tr2 : gets (tr1 ++ tr2) = gets tr1 ++ gets tr2.
Proof. apply flat_map_app. Qed.

Lemma quiet_preorder : PreOrder quiet.
Proof.
  split.
  - intros w. split; reflexivity.
  - intros w1 w2 w3 (H1 & H2) (G1 & G2). split; congruence.
Qed.
#[local] Existing Instance quiet_preorder.

Lemma quiet_paused (m : M unit) : (forall w, paused w (m w)) -> stays quiet m.
Proof.
  apply stays_paused.
  - intros w d n. split; [reflexivity|]. simpl. rewrite gets_app. simpl.
    apply app_nil_r.
  - intros w n. split; reflexivity.
Qed.

Lemma quiet_sleep d : stays quiet (sleep d).
Proof. apply quiet_paused. intros w. apply paused_sleep. Qed.

Lemma quiet_uniform lo hi : stays quiet (random_uniform random lo hi).
Proof. intros w. split; reflexivity. Qed.

Lemma quiet_log_error post_id msg : stays quiet (log_error clock post_id msg).
Proof.
  intros w. rewrite log_error_ok. simpl. split; [reflexivity|].
  simpl. rewrite gets_app. simpl. apply app_nil_r.
Qed.

Lemma requested_nil w : requested w w [] [].
Proof. split; [reflexivity|now rewrite app_nil_r]. Qed.

Lemma requested_quiet_l w w1 w' used urls :
  quiet w w1 -> requested w1 w' used urls -> requested w w' used urls.
Proof. intros (H1 & H2) (G1 & G2). split; congruence. Qed.

Lemma requested_quiet_r w w1 w' used urls :
  requested w w1 used urls -> quiet w1 w' -> requested w w' used urls.
Proof. intros (G1 & G2) (H1 & H2). split; congruence. Qed.

Lemma requested_trans w w1 w' used1 urls1 used2 urls2 :
  requested w w1 used1 urls1 -> requested w1 w' used2 urls2 ->
  requested w w' (used1 ++ used2) (urls1 ++ urls2).
Proof.
  intros (H1 & H2) (G1 & G2). split.
  - rewrite H1, G1, app_assoc. reflexivity.
  - rewrite G2, H2, app_assoc. reflexivity.
Qed.

(** One failed attempt followed by the rest of the loop. *)
Lemma attempts_end_cons u w r w1 ex w' :
  requested w w1 [r] [u] -> is_page r = false ->
  attempts_end u w1 ex w' -> attempts_end u w ex w'.
Proof.
  intros H1 Hr (used & H2 & Hex). exists (r :: used). split.
  - apply (requested_trans w w1 w' [r] [u] used _ H1 H2).
  - destruct ex as [acc' url'| |].
    + destruct Hex as (fs & data & -> & Hfs & ->). exists (r :: fs), data.
      split; [reflexivity|]. split; [|reflexivity].
      unfold no_page in *. simpl. now rewrite Hr, Hfs.
    + unfold no_page in *. simpl. now rewrite Hr, Hex.
    + unfold no_page in *. simpl. now rewrite Hr, Hex.
Qed.

Lemma attempts_cut_cons u w r w1 w' :
  requested w w1 [r] [u] -> is_page r = false ->
  attempts_cut u w1 w' -> attempts_cut u w w'.
Proof.
  intros H1 Hr (used & H2 & Hex). exists (r :: used). split.
  - apply (requested_trans w w1 w' [r] [u] used _ H1 H2).
  - unfold no_page in *. simpl. now rewrite Hr, Hex.
Qed.

Lemma attempts_cut_one u w r w1 :
  requested w w1 [r] [u] -> is_page r = false -> attempts_cut u w w1.
Proof.
  intros H1 Hr. exists [r]. split; [exact H1|].
  unfold no_page. simpl. now rewrite Hr.
Qed.

(** A pause and then the rest of the loop. *)
Lemma wp_pause {A} (pause : M unit) (rest : M A) u w r w1
    (Q : A -> world -> Prop) (F : world -> Prop) :
  stays quiet pause ->
  requested w w1 [r] [u] ->
  (forall w2, requested w w2 [r] [u] -> wp rest Q F w2) ->
  (forall w2, requested w w2 [r] [u] -> F w2) ->
  wp (let* _ := pause in rest) Q F w1.
Proof.
  intros Hq H1 Hrest HF. apply wp_bind.
  eapply wp_mono; [apply (wp_stays quiet), Hq| |].
  - intros x w2 Hw2. apply Hrest. eapply requested_quiet_r; eassumption.
  - intros w2 Hw2. apply HF. eapply requested_quiet_r; eassumption.
Qed.

Lemma attempt_loop_requests b u acc attempts : forall w,
  wp (attempt_loop random b u acc attempts) (attempts_end u w) (attempts_cut u w) w.
Proof.
  induction attempts as [|n attempts IH]; intros w.
  - exists []. split; [apply requested_nil|reflexivity].
  - simpl. unfold wp, bind at 1, requests_get.
    destruct (script w) as [|r rs] eqn:Es.
    { exists []. split; [apply requested_nil|reflexivity]. }
    set (w1 := set_script rs (emit (EvGet u) w)).
    assert (H1 : requested w w1 [r] [u]).
    { split; [exact Es|]. subst w1. simpl. rewrite gets_app. reflexivity. }
    assert (Hgo : forall pause : M unit,
              stays quiet pause -> is_page r = false ->
              wp (let* _ := pause in attempt_loop random b u acc attempts)
                 (attempts_end u w) (attempts_cut u w) w1).
    { intros pause Hq Hr. apply (wp_pause pause _ u w r w1); auto.
      - intros w2 H2. eapply wp_mono; [apply IH| |].
        + intros ex w' Hex. exact (attempts_end_cons u w _ w2 ex w' H2 Hr Hex).
        + intros w' Hex. exact (attempts_cut_cons u w _ w2 w' H2 Hr Hex).
      - intros w2 H2. exact (attempts_cut_one u w _ w2 H2 Hr). }
    destruct r as [code body| | |].
    + destruct (Z.eqb_spec code 200) as [->|Hne].
      * destruct body as [data|].
        -- exists [Http 200 (Some data)]. split; [exact H1|].
           exists [], data. repeat split.
        -- apply Hgo; [apply quiet_sleep|reflexivity].
      * assert (Hr : is_page (Http code body) = false).
        { destruct body; simpl; [|reflexivity]. now apply Z.eqb_neq. }
        destruct ((code =? 403) || (code =? 429)).
        -- apply Hgo; [|exact Hr].
           apply quiet_paused. intros w0. apply paused_rate_limited.
        -- destruct (code =? 404).
           ++ exists [Http code body]. split; [exact H1|].
              unfold no_page. simpl length. cbn [forallb]. now rewrite Hr.
           ++ apply Hgo; [|exact Hr].
              apply quiet_paused. intros w0. apply paused_server_error.
    + apply Hgo; [|reflexivity].
      apply quiet_paused. intros w0. apply paused_timeout.
    + apply Hgo; [|reflexivity].
      apply quiet_paused. intros w0. apply paused_connection_error.
    + apply Hgo; [apply quiet_sleep|reflexivity].
Qed.

Lemma urls_for_no_page u fs : forall rest,
  no_page fs ->
  urls_for (Some u) (fs ++ rest) = repeat u (length fs) ++ urls_for (Some u) rest.
Proof.
  induction fs as [|r fs IH]; intros rest H; [reflexivity|].
  unfold no_page in H. simpl in H. apply andb_prop in H as [Hr Hfs].
  simpl. f_equal. rewrite <- (IH rest Hfs).
  destruct r as [code [data|]| | |]; try reflexivity.
  simpl in Hr. destruct (code =? 200); [discriminate|reflexivity].
Qed.

Lemma urls_for_cut u used :
  no_page used -> urls_for (Some u) used = repeat u (length used).
Proof.
  intros H. rewrite <- (app_nil_r used) at 1.
  rewrite urls_for_no_page by exact H.
  change (urls_for (Some u) []) with (@nil string). apply app_nil_r.
Qed.

Lemma fetch_requests_refl url w : fetch_requests url w w.
Proof. exists []. destruct url; apply requested_nil. Qed.

Lemma while_url_requests fuel : forall post_id dl mr b url page acc w,
  let w' := world_of (while_url clock random fuel post_id dl mr b url page acc w) in
  fetch_requests url w w'.
Proof.
  induction fuel as [|fuel IH]; intros post_id dl mr b url page acc w; cbv zeta.
  - destruct url as [[|c s]|]; simpl; apply fetch_requests_refl.
  - destruct url as [[|c s]|]; try apply fetch_requests_refl.
    rewrite while_url_step.
    pose proof (attempt_loop_requests b (String c s) acc (py_range 1 (mr + 1) 1) w)
      as Hloop. unfold wp in Hloop.
    destruct (attempt_loop random b (String c s) acc (py_range 1 (mr + 1) 1) w)
      as [[acc' url'| |] w1|e w1|w1].
    + destruct Hloop as (used & Hreq & fs & data & -> & Hfs & ->).
      assert (Hurls : forall used2,
                urls_for (Some (String c s)) ((fs ++ [Http 200 (Some data)]) ++ used2) =
                repeat (String c s) (length (fs ++ [Http 200 (Some data)])) ++
                urls_for (next_page data) used2).
      { intros used2. rewrite <- app_assoc, urls_for_no_page by exact Hfs.
        rewrite length_app, repeat_app, <- app_assoc. reflexivity. }
      pose proof (wp_stays quiet (if truthy (next_page data) then sleep dl else ret tt)
                    w1 ltac:(destruct (truthy (next_page data));
                             [apply quiet_sleep|apply stays_ret; apply _])) as Hp.
      unfold wp in Hp.
      destruct ((if truthy (next_page data) then sleep dl else ret tt) w1)
        as [[] w2|e w2|w2]; simpl.
      * destruct (IH post_id dl mr b (next_page data) (page + 1) acc' w2)
          as (used2 & Hreq2).
        exists ((fs ++ [Http 200 (Some data)]) ++ used2). rewrite Hurls.
        eapply requested_trans; [eapply requested_quiet_r; eassumption|exact Hreq2].
      * exists (fs ++ [Http 200 (Some data)]).
        rewrite <- (app_nil_r (fs ++ _)) at 2. rewrite Hurls.
        destruct (next_page data); simpl; rewrite app_nil_r;
          eapply requested_quiet_r; eassumption.
      * exists (fs ++ [Http 200 (Some data)]).
        rewrite <- (app_nil_r (fs ++ _)) at 2. rewrite Hurls.
        destruct (next_page data); simpl; rewrite app_nil_r;
          eapply requested_quiet_r; eassumption.
    + destruct Hloop as (used & Hreq & Hnp). simpl.
      exists used. now rewrite urls_for_cut.
    + destruct Hloop as (used & Hreq & Hnp).
      exists used. rewrite urls_for_cut by exact Hnp.
      eapply requested_quiet_r; [exact Hreq|]. apply quiet_log_error.
    + destruct Hloop as (used & Hreq & Hnp). simpl.
      exists used. now rewrite urls_for_cut.
    + destruct Hloop as (used & Hreq & Hnp). simpl.
      exists used. now rewrite urls_for_cut.
Qed.

(** X20. Whatever the outcome of a fetch, its requests go to the URL of the
    first page of the post (100 records per page, oldest first) until a
    page arrives, and from then on to the cursor of the latest page,
    verbatim; a failed attempt is retried on the same URL; and every
    reply consumed answers exactly one request. *)
Theorem requests_follow_cursors post_id dl mr b w :
  let w' := world_of (download_comments_for_post clock random post_id dl mr b w) in
  initial_url post_id =
    "https://feedback.minecraft.net/api/v2/community/posts/" +:+ post_id +:+
    "/comments.json?per_page=100&sort_by=created_at&sort_order=asc" /\
  exists used,
    script w = used ++ script w' /\
    gets (trace w') = gets (trace w) ++ urls_for (Some (initial_url post_id)) used.
Proof.
  split; [reflexivity|].
  unfold download_comments_for_post.
  destruct (while_url_requests (S (length (script w))) post_id dl mr b
              (Some (initial_url post_id)) 0 [] (emit (EvCall post_id) w))
    as (used & Hs & Hg).
  exists used. split; [exact Hs|]. rewrite Hg. simpl.
  rewrite gets_app. simpl. now rewrite app_nil_r.
Qed.

(** **** The number of requests *)

Lemma pages_in_not_found body : pages_in [Http 404 body] = 0.
Proof. destruct body; reflexivity. Qed.

Lemma bound_nil (mr : Z) : len (@nil reply) <= Z.max 0 mr * (pages_in [] + 1).
Proof. change (len (@nil reply)) with 0. change (pages_in []) with 0. lia. Qed.

Lemma while_url_bounded fuel : forall post_id dl mr b url page acc w cs st w',
  while_url clock random fuel post_id dl mr b url page acc w = Ok (cs, st) w' ->
  exists used,
    script w = used ++ script w' /\
    len used <= Z.max 0 mr * (pages_in used + 1).
Proof.
  induction fuel as [|fuel IH]; intros post_id dl mr b url page acc w cs st w' H.
  - destruct url as [[|c s]|]; simpl in H; try discriminate;
      injection H as <- <- <-; exists []; (split; [reflexivity|apply bound_nil]).
  - destruct url as [[|c s]|];
      try (injection H as <- <- <-; exists []; (split; [reflexivity|apply bound_nil])).
    rewrite while_url_step in H.
    destruct (attempt_loop random b (String c s) acc (py_range 1 (mr + 1) 1) w)
      as [ex w1|e w1|w1] eqn:E; try discriminate.
    apply attempt_loop_ok in E as (used1 & _ & Hs1 & _ & _ & _ & Hex).
    rewrite attempts_length in Hex.
    destruct ex as [acc' url'| |].
    + destruct Hex as (fs & data & -> & Hfs & Hl & _).
      assert (Hs2 : forall w2 u, (if truthy url' then sleep dl else ret tt) w1 = Ok u w2 ->
                script w2 = script w1).
      { intros w2 u. destruct (truthy url').
        - intros Hsl. apply sleep_inv in Hsl. now subst w2.
        - unfold ret. intros Hret. injection Hret as _ <-. reflexivity. }
      destruct ((if truthy url' then sleep dl else ret tt) w1) as [u w2|e w2|w2] eqn:Ep;
        try discriminate.
      apply IH in H as (used2 & Hs3 & Hb2).
      exists ((fs ++ [Http 200 (Some data)]) ++ used2).
      split. { rewrite Hs1, <- (Hs2 w2 u eq_refl), Hs3, <- !app_assoc. reflexivity. }
      rewrite !pages_in_app, (pages_in_failures _ Hfs), pages_in_page, !len_app.
      unfold len in *. simpl length. pose proof (pages_in_nonneg used2). nia.
    + injection H as <- <- <-. destruct Hex as (fs & body & -> & Hfs & Hl).
      exists (fs ++ [Http 404 body]). split; [exact Hs1|].
      rewrite pages_in_app, (pages_in_failures _ Hfs), pages_in_not_found, len_app.
      unfold len. simpl length. lia.
    + injection H as <- <- <-. destruct Hex as (Hfs & Hl).
      exists used1. split; [exact Hs1|].
      rewrite (pages_in_failures _ Hfs). unfold len. lia.
Qed.

(** X29. A fetch that returns has sent at most [max_retries] requests per
    page: the replies it consumed number at most [max_retries] times the
    pages it fetched plus one. *)
Theorem requests_bounded_per_page post_id dl mr b w cs st w' :
  download_comments_for_post clock random post_id dl mr b w = Ok (cs, st) w' ->
  exists used,
    script w = used ++ script w' /\
    len used <= Z.max 0 mr * (pages_in used + 1).
Proof.
  unfold download_comments_for_post. intros H.
  apply while_url_bounded in H as (used & Hs & Hb). exists used. auto.
Qed.

End FetcherMore.

(** ** Properties of [merge_batches.py] *)

Section Merge.
Import merge_batches.

(** *** The order of the file names *)

Lemma ltb_leb (s t : string) : String.ltb s t = true -> String.leb s t = true.
Proof. unfold String.ltb, String.leb. destruct (String.compare s t); congruence. Qed.

Lemma leb_cases (s t : string) :
  String.leb s t = true <-> s = t \/ String.ltb s t = true.
Proof.
  unfold String.leb, String.ltb.
  destruct (String.compare s t) eqn:E; split; try discriminate; auto.
  - intros _. left. now apply String.compare_eq_iff.
  - intros [->|H]; [|discriminate].
    pose proof (String.compare_antisym t t) as E'. rewrite E in E'. discriminate.
Qed.

Lemma name_le_total : Total name_le.
Proof. intros s t. apply String.leb_total. Qed.

Lemma name_le_antisym : AntiSymm (=) name_le.
Proof. intros s t. apply String.leb_antisym. Qed.

Lemma name_le_trans : Transitive name_le.
Proof.
  intros s t u Hst Htu. unfold name_le in *.
  apply leb_cases in Hst as [->|Hst]; [exact Htu|].
  apply leb_cases in Htu as [<-|Htu]; [now apply ltb_leb|].
  apply ltb_leb. eapply ltb_trans; eassumption.
Qed.

#[global] Existing Instances name_le_total name_le_antisym name_le_trans.

(** *** The files read *)

Lemma glob_sorted_elem (dir : gmap string (list entry)) (f : string) :
  f ∈ glob_sorted dir <-> is_Some (dir !! f) /\ matches f = true.
Proof.
  unfold glob_sorted. rewrite merge_sort_Permutation, list_elem_of_filter.
  rewrite list_elem_of_fmap. split.
  - intros (Hm & [f' es] & -> & Hin). apply elem_of_map_to_list in Hin. simpl. eauto.
  - intros ([es Hes] & Hm). split; [exact Hm|]. exists (f, es).
    split; [reflexivity|]. now apply elem_of_map_to_list.
Qed.

Lemma glob_sorted_NoDup (dir : gmap string (list entry)) : NoDup (glob_sorted dir).
Proof.
  unfold glob_sorted. rewrite merge_sort_Permutation.
  apply NoDup_filter, NoDup_fst_map_to_list.
Qed.

Lemma glob_sorted_Sorted (dir : gmap string (list entry)) :
  Sorted name_le (glob_sorted dir).
Proof. apply Sorted_merge_sort. apply _. Qed.

(** *** The loops *)

Lemma count_status_cons s e es :
  count_status s (e :: es) =
  (if decide (status e = s) then 1 else 0) + count_status s es.
Proof.
  unfold count_status, len. rewrite filter_cons.
  destruct (decide (status e = s)); simpl length; lia.
Qed.

Lemma count_status_app s es1 es2 :
  count_status s (es1 ++ es2) = count_status s es1 + count_status s es2.
Proof. unfold count_status, len. rewrite filter_app, length_app. lia. Qed.

Lemma count_status_nonneg s es : 0 <= count_status s es.
Proof. unfold count_status, len. lia. Qed.

Lemma add_posts_spec es : forall st,
  let st' := foldl add_post st es in
  all_posts st' = all_posts st ++ es /\
  comments_total st' = comments_total st + comments_in es /\
  (forall s, default 0 (status_counts st' !! s) =
             default 0 (status_counts st !! s) + count_status s es) /\
  (forall s, is_Some (status_counts st' !! s) <->
             is_Some (status_counts st !! s) \/ 0 < count_status s es).
Proof.
  induction es as [|e es IH]; intros st; cbv zeta.
  - simpl. rewrite app_nil_r. unfold comments_in, count_status, len. simpl.
    split; [reflexivity|]. split; [lia|]. split; [intros; lia|].
    intros s. split; [auto|]. intros [H|H]; [exact H|lia].
  - simpl. destruct (IH (add_post st e)) as (H1 & H2 & H3 & H4).
    rewrite H1, H2. simpl.
    split; [now rewrite <- app_assoc|].
    split; [unfold comments_in; simpl; lia|].
    split.
    + intros s. rewrite H3, count_status_cons. unfold add_post. simpl.
      destruct (decide (status e = s)) as [<-|Hne].
      * rewrite lookup_insert_eq. simpl. lia.
      * rewrite lookup_insert_ne by exact Hne. lia.
    + intros s. rewrite H4, count_status_cons. unfold add_post. simpl.
      pose proof (count_status_nonneg s es).
      destruct (decide (status e = s)) as [<-|Hne].
      * rewrite lookup_insert_eq. split; [intros _; right; lia|].
        intros _. left. eauto.
      * rewrite lookup_insert_ne by exact Hne. split.
        -- intros [H'|H']; [now left|right; lia].
        -- intros [H'|H']; [now left|right; lia].
Qed.

Lemma read_batches_spec dir names : forall st,
  Forall (fun f => is_Some (dir !! f)) names ->
  read_batches dir names st =
  inl (foldl add_post st (flat_map (fun f => default [] (dir !! f)) names)).
Proof.
  induction names as [|f names IH]; intros st H; [reflexivity|].
  inversion H as [|? ? [es Hes] Hrest]; subst. simpl.
  rewrite Hes. simpl. rewrite foldl_app. now apply IH.
Qed.

(** What the script does, spelled out. *)
Lemma main_spec (dir : gmap string (list entry)) :
  main (Some dir) =
  match glob_sorted dir with
  | [] => NoOutput
  | _ :: _ =>
      let ps := flat_map (fun f => default [] (dir !! f)) (glob_sorted dir) in
      let st := foldl add_post (Vars [] 0 ∅) ps in
      Written (Output (len ps) (comments_total st) (status_counts st) ps)
  end.
Proof.
  unfold main.
  assert (H : Forall (fun f => is_Some (dir !! f)) (glob_sorted dir)).
  { apply Forall_forall. intros f Hf. now apply glob_sorted_elem in Hf as [Hf _]. }
  destruct (glob_sorted dir) as [|f names] eqn:E; [reflexivity|].
  rewrite read_batches_spec by exact H. cbv zeta.
  destruct (add_posts_spec (flat_map (fun f => default [] (dir !! f)) (f :: names))
              (Vars [] 0 ∅)) as (H1 & _).
  cbv zeta in H1. rewrite H1. reflexivity.
Qed.

(** X21. The merge never fails, and it writes no output exactly when the
    batch directory is missing or holds no file named [batch_*.json]. *)
Theorem merge_writes_unless_empty (batch_dir : option (gmap string (list entry))) :
  (forall e, main batch_dir <> Failed e) /\
  (main batch_dir = NoOutput <->
   batch_dir = None \/
   exists dir, batch_dir = Some dir /\
     forall f, is_Some (dir !! f) -> matches f = false).
Proof.
  destruct batch_dir as [dir|].
  - rewrite main_spec.
    destruct (glob_sorted dir) as [|f names] eqn:E.
    + split; [discriminate|]. split; [|reflexivity].
      intros _. right. exists dir. split; [reflexivity|].
      intros f Hf. destruct (matches f) eqn:Em; [|reflexivity].
      assert (Hin : f ∈ glob_sorted dir) by now apply glob_sorted_elem.
      rewrite E in Hin. now apply elem_of_nil in Hin.
    + split; [discriminate|]. split; [discriminate|].
      intros [H|(dir' & [= <-] & H)]; [discriminate|].
      assert (Hin : f ∈ glob_sorted dir) by (rewrite E; apply list_elem_of_here).
      apply glob_sorted_elem in Hin as [Hf Hm]. rewrite (H f Hf) in Hm. discriminate.
  - split; [discriminate|]. split; [auto|reflexivity].
Qed.

(** X22. The merged document holds the entries of the files named
    [batch_*.json], file after file in ascending order of the names, each
    file once and whole: nothing is dropped, reordered inside a file or
    deduplicated, and other files are ignored. *)
Theorem merge_reads_batches_in_name_order (dir : gmap string (list entry))
    (out : output) :
  main (Some dir) = Written out ->
  exists names,
    posts out = flat_map (fun f => default [] (dir !! f)) names /\
    (forall f, f ∈ names <-> is_Some (dir !! f) /\ matches f = true) /\
    NoDup names /\
    (forall i j f g, names !! i = Some f -> names !! j = Some g -> (i < j)%nat ->
       String.ltb f g = true).
Proof.
  rewrite main_spec. intros H. exists (glob_sorted dir).
  split. { destruct (glob_sorted dir); [discriminate|]. now injection H as <-. }
  split; [apply glob_sorted_elem|]. split; [apply glob_sorted_NoDup|].
  intros i j f g Hi Hj Hij.
  pose proof (Sorted_StronglySorted _ _ (glob_sorted_Sorted dir)) as Hs.
  pose proof (glob_sorted_NoDup dir) as Hnd.
  assert (Hle : name_le f g).
  { clear -Hs Hi Hj Hij. revert i j Hi Hj Hij.
    induction Hs as [|x l Hl IH Hx]; intros i j Hi Hj Hij; [discriminate|].
    destruct i as [|i]; destruct j as [|j]; try lia; simpl in Hi, Hj.
    - injection Hi as ->. rewrite Forall_forall in Hx. apply Hx.
      eapply list_elem_of_lookup_2; eassumption.
    - apply (IH i j); auto. lia. }
  apply leb_cases in Hle as [->|Hlt]; [|exact Hlt].
  exfalso. pose proof (NoDup_lookup _ _ _ _ Hnd Hi Hj). lia.
Qed.

(** X23. The figures of the merged document agree with its posts:
    [total_posts] is their number, [total_comments] the sum of their
    actual counts, and the summary holds, for each status that occurs, the
    number of posts with that status, and no other key. *)
Theorem merge_totals_agree (batch_dir : option (gmap string (list entry)))
    (out : output) :
  main batch_dir = Written out ->
  total_posts out = len (posts out) /\
  total_comments out = comments_in (posts out) /\
  (forall s, default 0 (status_summary out !! s) = count_status s (posts out)) /\
  (forall s, is_Some (status_summary out !! s) <-> 0 < count_status s (posts out)).
Proof.
  destruct batch_dir as [dir|]; [|discriminate].
  rewrite main_spec. destruct (glob_sorted dir) as [|f names]; [discriminate|].
  cbv zeta. intros [= <-]. simpl.
  destruct (add_posts_spec (flat_map (fun f => default [] (dir !! f)) (f :: names))
              (Vars [] 0 ∅)) as (_ & H2 & H3 & H4).
  simpl in H2, H3, H4.
  split; [reflexivity|]. split; [rewrite H2; lia|].
  split.
  - intros s. rewrite H3, lookup_empty. simpl. lia.
  - intros s. rewrite H4, lookup_empty. split.
    + intros [[x Hx]|H]; [discriminate|exact H].
    + auto.
Qed.

End Merge.

(** *** Merging what a run saved *)

Section MergeAfterRun.
Variable clock : nat -> string.
Variable random : nat -> Q.
Context {os : platform}.

Lemma string_length_append (s t : string) :
  String.length (s +:+ t) = (String.length s + String.length t)%nat.
Proof. induction s as [|c s IH]; simpl; [reflexivity|now rewrite IH]. Qed.

Lemma substring_all (t : string) : substring 0 (String.length t) t = t.
Proof. induction t as [|c t IH]; simpl; [reflexivity|now rewrite IH]. Qed.

Lemma substring_skip (s t : string) (n : nat) :
  substring (String.length s) n (s +:+ t) = substring 0 n t.
Proof. induction s as [|c s IH]; simpl; [reflexivity|exact IH]. Qed.

Lemma prefix_append (s t : string) : String.prefix s (s +:+ t) = true.
Proof.
  induction s as [|c s IH]; simpl.
  - destruct t; reflexivity.
  - destruct (ascii_dec c c); [exact IH|contradiction].
Qed.

(** Every name [save_batch] gives a file is one the merge looks for. *)
Lemma matches_batch_file_name (n : Z) :
  merge_batches.matches (batch_file_name n) = true.
Proof.
  unfold merge_batches.matches, batch_file_name.
  apply andb_true_intro. split; [apply prefix_append|].
  replace ("batch_" +:+ format_05d n +:+ ".json")
    with (("batch_" +:+ format_05d n) +:+ ".json")
    by (simpl; reflexivity).
  rewrite string_length_append.
  replace (String.length ("batch_" +:+ format_05d n) + String.length ".json" - 5)%nat
    with (String.length ("batch_" +:+ format_05d n)) by (simpl; lia).
  rewrite substring_skip. reflexivity.
Qed.

Lemma batches_files_dom bls n f :
  is_Some (batches_files n bls ∅ !! f) <->
  exists i, (i < length bls)%nat /\ f = batch_file_name (n + Z.of_nat i).
Proof.
  split.
  - intros Hf.
    destruct (decide (f ∈ map (fun i => batch_file_name (n + Z.of_nat i))
                              (seq 0 (length bls)))) as [Hin|Hnin].
    + apply list_elem_of_fmap in Hin as (i & -> & Hi).
      apply elem_of_seq in Hi. exists i. split; [lia|reflexivity].
    + rewrite batches_files_old in Hf.
      * rewrite lookup_empty in Hf. now destruct Hf.
      * intros i Hi ->. apply Hnin, list_elem_of_fmap. exists i.
        split; [reflexivity|]. apply elem_of_seq. lia.
  - intros (i & Hi & ->). apply lookup_lt_is_Some in Hi as [bl Hbl].
    rewrite (batches_files_new bls n ∅ i bl Hbl). eauto.
Qed.

Lemma batch_names_Sorted (k : nat) : forall n,
  0 <= n -> n + Z.of_nat k <= 100000 ->
  Sorted merge_batches.name_le
    (map (fun i => batch_file_name (n + Z.of_nat i)) (seq 0 k)).
Proof.
  induction k as [|k IH]; intros n Hn Hk; [constructor|].
  simpl. rewrite <- seq_shift, map_map.
  rewrite (map_ext _ (fun i => batch_file_name (n + 1 + Z.of_nat i)))
    by (intros i; f_equal; lia).
  constructor; [apply IH; lia|].
  destruct k as [|k]; [constructor|]. simpl. constructor.
  apply ltb_leb, names_sorted_lt; lia.
Qed.

Lemma batch_names_NoDup (k : nat) (n : Z) :
  NoDup (map (fun i => batch_file_name (n + Z.of_nat i)) (seq 0 k)).
Proof.
  apply NoDup_fmap_2_strong; [|apply NoDup_seq].
  intros i j _ _ H. apply batch_file_name_inj in H. lia.
Qed.

(** The files the merge reads from the directory a fresh run leaves. *)
Lemma glob_sorted_batches_files bls n :
  0 <= n -> n + len bls <= 100000 ->
  merge_batches.glob_sorted (batches_files n bls ∅) =
  map (fun i => batch_file_name (n + Z.of_nat i)) (seq 0 (length bls)).
Proof.
  intros Hn Hk.
  apply (Sorted_unique merge_batches.name_le).
  - apply glob_sorted_Sorted.
  - apply batch_names_Sorted; [exact Hn|exact Hk].
  - apply NoDup_Permutation; [apply glob_sorted_NoDup|apply batch_names_NoDup|].
    intros f. rewrite glob_sorted_elem, batches_files_dom, list_elem_of_fmap. split.
    + intros ((i & Hi & ->) & _). exists i. split; [reflexivity|].
      apply elem_of_seq. lia.
    + intros (i & -> & Hi). apply elem_of_seq in Hi. split.
      * exists i. split; [lia|reflexivity].
      * apply matches_batch_file_name.
Qed.

Lemma read_batches_files bls n :
  flat_map (fun f => default [] (batches_files n bls ∅ !! f))
           (map (fun i => batch_file_name (n + Z.of_nat i)) (seq 0 (length bls))) =
  map item_entry (all_items bls).
Proof.
  rewrite flat_map_concat_map, map_map.
  assert (H : map (fun i => default [] (batches_files n bls ∅ !!
                                          batch_file_name (n + Z.of_nat i)))
                  (seq 0 (length bls)) = map batch_entries bls).
  { apply list_eq. intros i. rewrite !list_lookup_fmap.
    destruct (bls !! i) as [bl|] eqn:E.
    - rewrite lookup_seq_lt by (now apply lookup_lt_Some in E). simpl.
      now rewrite (batches_files_new bls n ∅ i bl E).
    - rewrite lookup_seq_ge by (now apply lookup_ge_None in E). reflexivity. }
  rewrite H. unfold all_items, batch_entries.
  rewrite <- flat_map_concat_map, flat_map_map_concat.
  now rewrite <- flat_map_concat_map.
Qed.

(** X24. Merging the directory a run wrote from scratch gives back what the
    run saved, provided it stayed below batch 100000: the posts of the
    merged document are the entries of the run in the order of the input,
    one per post it had left to download, and their records add up to what
    the run added to the running total. *)
Theorem merge_after_fresh_run a all_posts w st' w' :
  main clock random a (Some all_posts) w = Ok (Some st') w' ->
  0 < batch_size a ->
  batch_files w = ∅ ->
  let done : gset string :=
    list_to_set (completed_post_ids (start_checkpoint a w)) in
  let remaining := remaining_posts done all_posts in
  let first := Z.of_nat (size done) / batch_size a + 1 in
  first + (len remaining + batch_size a - 1) / batch_size a <= 100000 ->
  exists out,
    merge_batches.main (Some (batch_files w')) = merge_batches.Written out /\
    saved_entries (trace w') =
      saved_entries (trace w) ++ merge_batches.posts out /\
    map entry_post_id (merge_batches.posts out) = map post_id remaining /\
    merge_batches.total_posts out = len remaining /\
    total_comments st' =
      total_comments_downloaded (start_checkpoint a w) +
      merge_batches.total_comments out.
Proof.
  intros H Hbs Hempty done remaining first Hmax.
  destruct (main_ok clock random a all_posts w st' w' H Hbs)
    as (bls & Hsl & Hinfo & Hne & Hoks & _ & _ & _ & Ht & Hf & _).
  fold done remaining first in Hsl, Hinfo, Hne, Ht, Hf.
  destruct (main_counts clock random a all_posts w st' w' H)
    as (chunks & _ & _ & Hsb & Htot & _).
  destruct (batch_count_bounds (len remaining) (batch_size a)
              ltac:(unfold len; lia) Hbs) as (Hc0 & _).
  assert (Hlen : len bls = (len remaining + batch_size a - 1) / batch_size a).
  { apply (f_equal length) in Hsl. rewrite !length_map in Hsl.
    unfold len at 1. rewrite Hsl, py_range_batches, length_map, length_seq by exact Hbs.
    lia. }
  assert (Hfirst : 0 <= first).
  { subst first. pose proof (Z.div_pos (Z.of_nat (size done)) (batch_size a)). lia. }
  destruct (batches_trace_proj bls first Hoks) as (_ & _ & Hsaved & _).
  destruct (reset_trace_silent a w) as (_ & _ & Hr3 & _).
  assert (Hnew : saved_entries (trace w') =
                 saved_entries (trace w) ++ map item_entry (all_items bls)).
  { rewrite Ht, !saved_entries_app, Hr3, Hsaved. reflexivity. }
  assert (Hposts : flat_map (fun f => default [] (batch_files w' !! f))
                     (merge_batches.glob_sorted (batch_files w')) =
                   map item_entry (all_items bls)).
  { rewrite Hf, Hempty, glob_sorted_batches_files by lia.
    apply read_batches_files. }
  assert (Hitems : all_items bls <> []).
  { intros E. rewrite E in Hinfo. simpl in Hinfo. congruence. }
  pose proof (main_spec (batch_files w')) as Hmain. rewrite Hposts in Hmain.
  destruct (merge_batches.glob_sorted (batch_files w')) as [|f names] eqn:Eg.
  { simpl in Hposts. destruct (all_items bls); [congruence|discriminate]. }
  cbv zeta in Hmain. eexists. split; [exact Hmain|]. simpl.
  split; [exact Hnew|].
  split. { rewrite map_map. simpl. rewrite <- Hinfo, map_map. reflexivity. }
  split. { unfold len. rewrite length_map, <- Hinfo, length_map. reflexivity. }
  destruct (add_posts_spec (map item_entry (all_items bls))
              (merge_batches.Vars [] 0 ∅)) as (_ & H2 & _).
  cbv zeta in H2. rewrite H2. simpl.
  rewrite Htot. f_equal.
  rewrite !saved_entries_concat, Hsb, concat_app in Hnew.
  apply app_inv_head in Hnew. now rewrite Hnew.
Qed.

End MergeAfterRun.

(** ** More on the run *)

Section RunMore.
Variable clock : nat -> string.
Variable random : nat -> Q.
Context {os : platform}.
Variable a : args.

Lemma remaining_all (all_posts : list post_info) :
  remaining_posts ∅ all_posts = all_posts.
Proof.
  unfold remaining_posts. induction all_posts as [|p ps IH]; [reflexivity|].
  rewrite filter_cons, IH.
  destruct (decide (str (post_id p) ∉ (∅ : gset string))) as [|Hn]; [reflexivity|].
  exfalso. apply Hn, not_elem_of_empty.
Qed.

(** X25. With a positive batch size, pauses and waits that are durations
    [time.sleep] takes, and a server that never hands out a cursor and has
    [max_retries] replies ready for every post of the input, the run
    returns: it has fetched every post it had left to download, in input
    order, and all of them are in the checkpoint. *)
Theorem run_terminates all_posts w :
  0 < batch_size a ->
  run_fits a = true -> unit_interval random ->
  forallb no_cursor (script w) = true ->
  (Z.to_nat (max_retries a) * length all_posts <= length (script w))%nat ->
  let done : gset string :=
    list_to_set (completed_post_ids (start_checkpoint a w)) in
  let ids := map (fun p => str (post_id p)) (remaining_posts done all_posts) in
  exists r w',
    main clock random a (Some all_posts) w = Ok r w' /\
    calls (trace w') = calls (trace w) ++ ids /\
    checkpoint_ids w' = done ∪ list_to_set ids.
Proof.
  intros Hbs Hfit Hr Hnc Hlen done ids.
  destruct (main_returns clock random a Hfit Hr all_posts w Hbs Hnc Hlen)
    as (r & w' & Hmain).
  exists r, w'. split; [exact Hmain|].
  destruct (main_calls clock random a all_posts w) as (cs & Hc & _ & Hok).
  destruct (main_any clock random a all_posts w)
    as (todo & bls & buf & _ & Hck & _ & Hsaved & Hpre).
  rewrite Hmain in Hc, Hok, Hck, Hsaved. simpl in Hc, Hok, Hck, Hsaved.
  destruct (Hsaved eq_refl) as (-> & ->).
  unfold posts_from in Hpre. rewrite slices_concat, !app_nil_r in Hpre by exact Hbs.
  split.
  - rewrite Hc, (Hok I Hbs). reflexivity.
  - rewrite Hck. subst ids done. rewrite <- Hpre, app_nil_r, map_map. reflexivity.
Qed.

(** X26. With [--reset] the run forgets the checkpoint: it fetches every
    post of the input again, in input order, numbers its batches from 1 and
    leaves a checkpoint that lists exactly the posts of the input; batch
    files with other numbers stay as they were. *)
Theorem reset_restarts_from_scratch all_posts w r w' :
  reset a = true ->
  main clock random a (Some all_posts) w = Ok r w' ->
  0 < batch_size a ->
  let ids := map (fun p => str (post_id p)) all_posts in
  let count := Z.to_nat ((len all_posts + batch_size a - 1) / batch_size a) in
  calls (trace w') = calls (trace w) ++ ids /\
  saved_files (trace w') =
    saved_files (trace w) ++
    map (fun i => batch_file_name (1 + Z.of_nat i)) (seq 0 count) /\
  checkpoint_ids w' = list_to_set ids /\
  (forall f, (forall i, (i < count)%nat -> f <> batch_file_name (1 + Z.of_nat i)) ->
     batch_files w' !! f = batch_files w !! f).
Proof.
  intros Hreset Hmain Hbs ids count.
  assert (Hstart : start_checkpoint a w = empty_checkpoint).
  { unfold start_checkpoint. now rewrite Hreset. }
  destruct (main_run clock random a all_posts w r w' Hmain Hbs)
    as (bls & Hinfo & Hoks & Hlen & Ht & Hf).
  destruct (main_any clock random a all_posts w)
    as (todo & bls' & buf & _ & Hck & _ & Hsaved & Hpre).
  rewrite Hmain in Hck, Hsaved. simpl in Hck, Hsaved.
  destruct (Hsaved eq_refl) as (-> & ->).
  unfold posts_from in Hpre. rewrite slices_concat, !app_nil_r in Hpre by exact Hbs.
  assert (Hdone : list_to_set (completed_post_ids (start_checkpoint a w)) =
                  (∅ : gset string)) by (rewrite Hstart; reflexivity).
  rewrite Hdone in Hinfo, Hlen, Ht, Hf, Hpre, Hck.
  rewrite remaining_all in Hinfo, Hlen, Hpre.
  assert (Hfirst : Z.of_nat (size (∅ : gset string)) / batch_size a + 1 = 1).
  { rewrite size_empty. simpl. rewrite Z.div_0_l by lia. reflexivity. }
  rewrite Hfirst in Ht, Hf.
  destruct (batches_trace_proj bls 1 Hoks) as (Hcalls & Hfiles & _).
  destruct (reset_trace_silent a w) as (Hr1 & Hr2 & _).
  fold count in Hlen.
  split. { rewrite Ht, !calls_app, Hr1, Hcalls. subst ids.
           rewrite <- Hinfo, map_map. reflexivity. }
  split. { rewrite Ht, !saved_files_app, Hr2, Hfiles, Hlen. reflexivity. }
  split. { rewrite Hck, (left_id_L ∅ (∪)), app_nil_r. subst ids.
           rewrite <- Hpre, map_map. reflexivity. }
  intros f Hf'. rewrite Hf. apply batches_files_old. now rewrite Hlen.
Qed.

(** X27. After each post the run pauses for [delay] plus a jitter of at
    most 0.2 seconds: the pause is the last thing the loop body does. *)
Theorem pause_after_each_post info st w st' w' :
  process_post clock random a info st w = Ok st' w' ->
  (forall i, (0 <= random i < 1)%Q) ->
  exists tr d,
    trace w' = tr ++ [EvSleep d] /\
    (delay a <= d <= delay a + (2 # 10))%Q.
Proof.
  unfold process_post. intros H Hr.
  apply bind_ok in H as ([cs st_] & w1 & Hdl & H).
  rewrite int_str in H. simpl in H.
  apply bind_ok in H as (n & w1' & Hn & H). injection Hn as <- <-.
  apply bind_ok in H as (c & w2 & Hsave & H).
  rewrite save_checkpoint_ok in Hsave. injection Hsave as <- <-.
  apply bind_ok in H as (j & w3 & Hj & H). injection Hj as <- <-.
  apply bind_ok in H as ([] & w4 & Hsl & H). apply sleep_inv in Hsl. subst w4.
  injection H as <- <-.
  eexists _, _. split; [reflexivity|]. simpl.
  destruct (Hr (draws w1)) as [H0 H1].
  pose proof (uniform_nonneg random (2 # 10) (draws w1) ltac:(lra) H0).
  pose proof (uniform_le random (2 # 10) (draws w1) ltac:(lra) H1).
  lra.
Qed.

(** X28. A batch is saved after its last post, under the current batch
    number; when another batch follows, the run then pauses for
    [batch_delay] plus a jitter of at most 2 seconds, and after the last
    batch it does not pause. *)
Theorem pause_between_batches remaining start st w st' w' :
  process_batch clock random a remaining start st w = Ok st' w' ->
  (forall i, (0 <= random i < 1)%Q) ->
  exists tr b,
    batch_files w' !! batch_file_name (batch_num st) = Some b /\
    batch_num st' = batch_num st + 1 /\
    if start + batch_size a <? len remaining then
      exists d, trace w' = tr ++ [EvSaveBatch (batch_file_name (batch_num st)) b;
                                  EvSleep d] /\
                (batch_delay a <= d <= batch_delay a + 2)%Q
    else trace w' = tr ++ [EvSaveBatch (batch_file_name (batch_num st)) b].
Proof.
  unfold process_batch. intros H Hr.
  apply bind_ok in H as (st1 & w1 & Hloop & H).
  apply items_loop_ok in Hloop as (ils & _ & _ & _ & Hn & _).
  simpl in Hn.
  apply bind_ok in H as (file & w2 & Hsave & H).
  unfold save_batch in Hsave. injection Hsave as <- <-.
  apply bind_ok in H as ([] & w3 & Hpause & H). injection H as <- <-.
  exists (trace w1), (batch_results st1). simpl. rewrite <- Hn.
  destruct (_ <? _).
  - apply bind_ok in Hpause as (j & w4 & Hj & Hsl). injection Hj as <- <-.
    apply sleep_inv in Hsl. subst w3. simpl.
    split; [apply lookup_insert_eq|]. split; [reflexivity|].
    eexists. split; [rewrite <- app_assoc; reflexivity|].
    destruct (Hr (draws w1)) as [H0 H1].
    pose proof (uniform_nonneg random 2 (draws w1) ltac:(lra) H0).
    pose proof (uniform_le random 2 (draws w1) ltac:(lra) H1).
    lra.
  - injection Hpause as <-. simpl.
    split; [apply lookup_insert_eq|]. split; reflexivity.
Qed.

Lemma remaining_none (done : gset string) (all_posts : list post_info) :
  (forall p, p ∈ all_posts -> str (post_id p) ∈ done) ->
  remaining_posts done all_posts = [].
Proof.
  unfold remaining_posts. induction all_posts as [|p ps IH]; intros H; [reflexivity|].
  rewrite filter_cons.
  destruct (decide (str (post_id p) ∉ done)) as [Hn|_].
  - exfalso. apply Hn, H, list_elem_of_here.
  - apply IH. intros q Hq. apply H. now apply list_elem_of_further.
Qed.

(** X30. Once a run has returned, running the script again on the same
    input (without [--reset]) is a no-op, whatever else has changed in the
    meantime: every post of the input is in the checkpoint, so the second
    run returns early without a request and without touching any file. *)
Theorem rerun_after_completion all_posts w r w' w2 :
  main clock random a (Some all_posts) w = Ok r w' ->
  0 < batch_size a -> reset a = false ->
  checkpoint_file w2 = checkpoint_file w' ->
  (forall p, p ∈ all_posts -> str (post_id p) ∈ checkpoint_ids w') /\
  main clock random a (Some all_posts) w2 = Ok None w2.
Proof.
  intros Hmain Hbs Hreset Hsame.
  destruct (main_any clock random a all_posts w)
    as (todo & bls & buf & _ & Hck & _ & Hsaved & Hpre).
  rewrite Hmain in Hck, Hsaved. simpl in Hck, Hsaved.
  destruct (Hsaved eq_refl) as (-> & ->).
  unfold posts_from in Hpre. rewrite slices_concat, !app_nil_r in Hpre by exact Hbs.
  rewrite app_nil_r in Hck.
  assert (Hall : forall p, p ∈ all_posts -> str (post_id p) ∈ checkpoint_ids w').
  { intros p Hp. rewrite Hck.
    destruct (decide (str (post_id p) ∈
                (list_to_set (completed_post_ids (start_checkpoint a w)) : gset string)))
      as [Hd|Hd]; [now apply elem_of_union_l|].
    apply elem_of_union_r, elem_of_list_to_set.
    assert (Hrem : p ∈ remaining_posts
                         (list_to_set (completed_post_ids (start_checkpoint a w)))
                         all_posts).
    { apply list_elem_of_filter. split; assumption. }
    rewrite <- Hpre in Hrem. apply list_elem_of_fmap in Hrem as (il & -> & Hil).
    apply list_elem_of_fmap. exists il. split; [reflexivity|exact Hil]. }
  split; [exact Hall|].
  destruct (main_prelude clock random a all_posts w2)
    as (wr & Hwr & _ & _ & _ & _ & _ & _ & _ & ->).
  rewrite Hreset in Hwr. subst wr.
  assert (Hdone : list_to_set (completed_post_ids (start_checkpoint a w2)) =
                  checkpoint_ids w').
  { unfold start_checkpoint, checkpoint_ids. rewrite Hreset, Hsame.
    destruct (checkpoint_file w'); reflexivity. }
  rewrite Hdone, (remaining_none _ _ Hall). reflexivity.
Qed.

End RunMore.

(** ** The statements on the example runs *)

Section Witnesses.
#[local] Existing Instance ex_os.

Lemma ex_random_range : unit_interval ex_random.
Proof. intros i. unfold ex_random, Qle, Qlt. simpl. lia. Qed.

Lemma ex_run_ok : ex_run = Ok (value_of ex_run) (world_of ex_run).
Proof. vm_compute. reflexivity. Qed.

Lemma ex_resume_run_ok :
  ex_resume_run = Ok (value_of ex_resume_run) (world_of ex_resume_run).
Proof. vm_compute. reflexivity. Qed.

Lemma ex_later_run_ok :
  ex_later_run = Ok (value_of ex_later_run) (world_of ex_later_run).
Proof. vm_compute. reflexivity. Qed.

Lemma ex_twice_run_ok :
  ex_twice_run = Ok (value_of ex_twice_run) (world_of ex_twice_run).
Proof. vm_compute. reflexivity. Qed.

(** The run that is cut short: it is waiting for the first reply about
    post 22, with post 11 in the checkpoint and no batch saved. *)
Example ex_cut_run_state :
  ex_cut_run = NoReply (world_of ex_cut_run) /\
  calls (trace (world_of ex_cut_run)) = ["11"; "22"] /\
  elements (checkpoint_ids (world_of ex_cut_run)) = ["11"] /\
  saved_files (trace (world_of ex_cut_run)) = [].
Proof. vm_compute. repeat split; reflexivity. Qed.

(** The run that was cut short had fetched 11 and was waiting for the
    first reply about 22; the resumed run fetches 22 and 33 and leaves 11
    alone. *)
Example ex_resume_calls :
  calls (trace ex_resume_world) = ["11"; "22"] /\
  calls (trace (world_of ex_resume_run)) = ["11"; "22"; "22"; "33"].
Proof. vm_compute. split; reflexivity. Qed.

Lemma resume_fetches_remaining_witness :
  exists fetched,
    calls (trace (world_of ex_resume_run)) =
      calls (trace ex_resume_world) ++ fetched /\
    fetched = ["22"; "33"] /\
    "11" ∉ fetched.
Proof.
  destruct (resume_fetches_remaining ex_clock ex_random ex_args ex_posts
              ex_resume_world) as (fetched & Hcalls & _ & Hall & Hdone).
  exists fetched. split; [exact Hcalls|]. split.
  - rewrite Hall.
    + vm_compute. reflexivity.
    + fold ex_resume_run. rewrite ex_resume_run_ok. exact I.
    + reflexivity.
  - apply Hdone. vm_compute. reflexivity.
Defined.

Lemma checkpoint_protocol_witness :
  let done : gset string :=
    list_to_set (completed_post_ids (start_checkpoint ex_args ex_world)) in
  (forall c w0,
     exists c' w1 w2,
       save_checkpoint ex_clock c w0 = Ok c' w2 /\
       c' = Checkpoint (completed_post_ids c) (total_comments_downloaded c)
                       (Some (ex_clock (ticks w0))) /\
       write_tmp c' (set_ticks (S (ticks w0)) w0) = Ok tt w1 /\
       checkpoint_file w1 = checkpoint_file w0 /\ tmp_file w1 = Some c' /\
       rename_tmp w1 = Ok tt w2 /\
       checkpoint_file w2 = Some c' /\ tmp_file w2 = None /\
       trace w2 = trace w0 ++ [EvWriteTmp c'; EvRename]) /\
  exists ils,
    map il_info ils = remaining_posts done ex_posts /\
    progress (trace (world_of ex_run)) =
      progress (trace ex_world) ++ flat_map item_progress ils /\
    Forall (fun il => item_id il ∈ completed_post_ids (il_checkpoint il)) ils.
Proof.
  apply (checkpoint_protocol ex_clock ex_random ex_args ex_posts ex_world
           (value_of ex_run) (world_of ex_run)).
  - exact ex_run_ok.
  - reflexivity.
Defined.

(** Between two calls of the fetcher there is one write and one rename. *)
Example ex_run_progress :
  map (fun e => match e with
                | EvCall id => "call " +:+ id
                | EvWriteTmp _ => "write"
                | _ => "rename"
                end) (progress (trace (world_of ex_run))) =
  ["call 11"; "write"; "rename"; "call 22"; "write"; "rename";
   "call 33"; "write"; "rename"].
Proof. vm_compute. reflexivity. Qed.



Lemma backoff_policy_witness :
  let w := World [Http 429 None; RaiseTimeout] 0 0 None None [] ∅ [] in
  let w1 := set_draws 1 (set_script [RaiseTimeout] (emit (EvGet "u") w)) in
  exists j, (0 <= j <= 3)%Q /\
    attempt_loop ex_random 10 "u" [] [2] w =
      Ok Exhausted (emit (EvSleep (10 * inject_Z (2 ^ (2 - 1)) + j)%Q) w1) /\
    trace (emit (EvSleep (10 * inject_Z (2 ^ (2 - 1)) + j)%Q) w1) =
      [EvGet "u"; EvSleep (10 * inject_Z (2 ^ (2 - 1)) + j)%Q].
Proof.
  intros w w1.
  destruct (proj1 (backoff_policy (os := ex_os) ex_random 10 2 "u" [] (Http 429 None)
                     [RaiseTimeout] w ltac:(reflexivity) ltac:(lia)
                     ex_random_range ltac:(reflexivity)) None
              ltac:(right; reflexivity))
    as (j & Hj & _ & Hfit & _).
  exists j. split; [exact Hj|]. split; [|reflexivity].
  apply Hfit; [reflexivity|].
  apply (can_sleep_below _ 23); [reflexivity|].
  change (inject_Z (2 ^ (2 - 1))) with 2%Q. lra.
Defined.

(** At attempt 31 with base 10 the wait after a 429 would be [10 * 2^30]
    seconds and more, which [time.sleep] refuses with [OverflowError]: the
    handler of [except Exception] sleeps the base instead.  After a
    connection error the refused sleep is in the handler itself and ends
    the fetch.  At attempt 1025 the factor [2^1024] does not convert to a
    [float], and the wait is not even computed. *)
Lemma backoff_policy_counterexample :
  let w := World [Http 429 None] 0 0 None None [] ∅ [] in
  let w' := World [RaiseConnectionError] 0 0 None None [] ∅ [] in
  (0 < 10)%Q /\ 1 <= 31 /\
  trace (world_of (attempt_loop ex_random 10 "u" [] [31] w)) =
    [EvGet "u"; EvSleep 10] /\
  (forall j, (0 <= j)%Q -> ~ (10 == 10 * inject_Z (2 ^ (31 - 1)) + j)%Q) /\
  attempt_loop ex_random 10 "u" [] [31] w' =
    Raised OverflowError (set_draws 1 (set_script [] (emit (EvGet "u") w'))) /\
  wait_rate_limited ex_random 10 1025 w = Raised OverflowError w.
Proof.
  intros w w'. split; [reflexivity|]. split; [lia|].
  split; [vm_compute; reflexivity|].
  split. { intros j Hj E. change (inject_Z (2 ^ (31 - 1))) with 1073741824%Q in E. lra. }
  split; vm_compute; reflexivity.
Qed.

(** With the base of 10 seconds the waits of up to 30 attempts are
    durations [time.sleep] takes; the wait after a 31st connection error
    is not. *)
Example ex_fits_30_attempts :
  fetch_fits (4 # 10) 30 10 = true /\ fetch_fits (4 # 10) 31 10 = false.
Proof. vm_compute. split; reflexivity. Qed.

(** There the sleep in the handler raises and ends the fetch: no status
    is returned and nothing is logged. *)
Example ex_refused_wait :
  let w := World (repeat RaiseConnectionError 31) 0 0 None None [] ∅ [] in
  exists w',
    download_comments_for_post ex_clock ex_random "11" (4 # 10) 31 10 w =
      Raised OverflowError w' /\
    script w' = [] /\ errors_log w' = [].
Proof. vm_compute. eexists. split; [reflexivity|]. split; reflexivity. Qed.

(** A pause [time.sleep] refuses ends the run: with a delay of [10^10]
    seconds the run raises after its first post, which is in the checkpoint
    and in no batch file. *)
Example ex_refused_pause :
  let a := Args 2 10000000000 5 2 10 false in
  exists w',
    main ex_clock ex_random a (Some ex_posts) ex_world = Raised OverflowError w' /\
    calls (trace w') = ["11"] /\
    elements (checkpoint_ids w') = ["11"] /\
    saved_files (trace w') = [].
Proof.
  vm_compute. eexists. split; [reflexivity|]. repeat split; reflexivity.
Qed.

(** On the second attempt after a 429 the wait is 10 * 2 + 3 * 1/2. *)
Example ex_backoff_wait :
  let w := World [Http 429 None; Http 404 None] 0 0 None None [] ∅ [] in
  trace (world_of (attempt_loop ex_random 10 "u" [] [2; 3] w)) =
  [EvGet "u"; EvSleep (10 * inject_Z (2 ^ (2 - 1)) + (0 + (3 - 0) * (1 # 2)))%Q;
   EvGet "u"].
Proof. reflexivity. Qed.


Lemma duplicates_fetched_again_witness :
  let done : gset string :=
    list_to_set (completed_post_ids (start_checkpoint ex_args ex_twice_world)) in
  exists fetched saved,
    calls (trace (world_of ex_twice_run)) =
      calls (trace ex_twice_world) ++ fetched /\
    saved_entries (trace (world_of ex_twice_run)) =
      saved_entries (trace ex_twice_world) ++ saved /\
    forall z, str z ∉ done ->
      let occurrences := length (filter (fun p => post_id p = z) ex_twice_posts) in
      length (filter (fun id => id = str z) fetched) = occurrences /\
      length (filter (fun e => entry_post_id e = z) saved) = occurrences.
Proof.
  apply (duplicates_fetched_again ex_clock ex_random ex_args ex_twice_posts
           ex_twice_world (value_of ex_twice_run) (world_of ex_twice_run)).
  - exact ex_twice_run_ok.
  - reflexivity.
Defined.

(** Post 7 is named twice: it is fetched twice and saved twice. *)
Example ex_twice_fetched :
  calls (trace (world_of ex_twice_run)) = ["7"; "7"] /\
  map entry_post_id (saved_entries (trace (world_of ex_twice_run))) = [7; 7].
Proof. vm_compute. split; reflexivity. Qed.

(** From batch 100000 on the names have six digits and sort before the
    five-digit ones. *)
Lemma batch_names_counterexample :
  batch_file_name 99999 = "batch_99999.json" /\
  batch_file_name 100000 = "batch_100000.json" /\
  (99999 <? 100000) = true /\
  String.ltb (batch_file_name 99999) (batch_file_name 100000) = false /\
  String.ltb (batch_file_name 100000) (batch_file_name 99999) = true.
Proof. vm_compute. repeat split; reflexivity. Qed.

Lemma batch_numbering_witness :
  let done : gset string :=
    list_to_set (completed_post_ids (start_checkpoint ex_args ex_later_world)) in
  let remaining := remaining_posts done ex_later_posts in
  let first := Z.of_nat (size done) / batch_size ex_args + 1 in
  let count :=
    Z.to_nat ((len remaining + batch_size ex_args - 1) / batch_size ex_args) in
  saved_files (trace (world_of ex_later_run)) =
    saved_files (trace ex_later_world) ++
    map (fun i => batch_file_name (first + Z.of_nat i)) (seq 0 count) /\
  (completed_post_ids (start_checkpoint ex_args ex_later_world) = [] -> first = 1) /\
  (forall m n, batch_file_name m = batch_file_name n -> m = n) /\
  (forall m n, 0 <= m < 100000 -> 0 <= n < 100000 ->
     String.ltb (batch_file_name m) (batch_file_name n) = (m <? n)).
Proof.
  apply (batch_numbering ex_clock ex_random ex_args ex_later_posts ex_later_world
           (value_of ex_later_run) (world_of ex_later_run)).
  - exact ex_later_run_ok.
  - reflexivity.
Defined.

(** The fresh run saves batches 1 and 2; the later run, which finds three
    posts completed, saves batch 2. *)
Example ex_saved_files :
  saved_files (trace (world_of ex_run)) = ["batch_00001.json"; "batch_00002.json"] /\
  saved_files (trace (world_of ex_later_run)) =
    ["batch_00001.json"; "batch_00002.json"; "batch_00002.json"].
Proof. vm_compute. split; reflexivity. Qed.

(** Saving under the number of an existing file replaces its content. *)
Lemma save_batch_counterexample :
  (batch_files ex_disk_world !! batch_file_name 1) = Some [ex_old_entry] /\
  exists w',
    save_batch [ex_new_entry] 1 ex_disk_world = Ok (batch_file_name 1) w' /\
    batch_files w' !! batch_file_name 1 = Some [ex_new_entry] /\
    (batch_files w' !! batch_file_name 1) <>
    (batch_files ex_disk_world !! batch_file_name 1).
Proof.
  split; [vm_compute; reflexivity|].
  eexists. split; [reflexivity|]. split; [vm_compute; reflexivity|].
  vm_compute. discriminate.
Qed.

Lemma save_batch_overwrites_witness :
  batch_files (world_of ex_later_run) !! batch_file_name 1 =
  batch_files ex_later_world !! batch_file_name 1.
Proof.
  apply (proj2 (save_batch_overwrites ex_clock ex_random [] 0 ex_later_world)
           ex_args ex_later_posts (value_of ex_later_run) (world_of ex_later_run)).
  - exact ex_later_run_ok.
  - reflexivity.
  - vm_compute. reflexivity.
Defined.

(** The run that was cut short and resumed ends with post 11 in the
    checkpoint and in no batch file. *)
Lemma checkpoint_matches_batches_counterexample :
  ex_resume_run = Ok (value_of ex_resume_run) (world_of ex_resume_run) /\
  "11" ∈ checkpoint_ids (world_of ex_resume_run) /\
  ("11" ∉ file_ids (world_of ex_resume_run)) /\
  checkpoint_ids (world_of ex_resume_run) <> file_ids (world_of ex_resume_run).
Proof.
  assert (Hin : "11" ∈ checkpoint_ids (world_of ex_resume_run)).
  { vm_compute. reflexivity. }
  assert (Hnin : "11" ∉ file_ids (world_of ex_resume_run)).
  { vm_compute. discriminate. }
  split; [exact ex_resume_run_ok|]. split; [exact Hin|]. split; [exact Hnin|].
  intros E. rewrite E in Hin. contradiction.
Qed.

Lemma checkpoint_matches_batches_witness :
  checkpoint_ids (world_of ex_run) = file_ids (world_of ex_run).
Proof.
  apply (checkpoint_matches_batches ex_clock ex_random ex_args ex_posts ex_world
           (value_of ex_run) (world_of ex_run)).
  - exact ex_run_ok.
  - reflexivity.
  - vm_compute. reflexivity.
  - intros i _. simpl. apply lookup_empty.
Defined.

(** After the fresh run both sets are 11, 22 and 33. *)
Example ex_run_ids :
  elements (checkpoint_ids (world_of ex_run)) =
  elements (file_ids (world_of ex_run)) /\
  Forall (fun id => id ∈ checkpoint_ids (world_of ex_run)) ["11"; "22"; "33"].
Proof.
  split; [vm_compute; reflexivity|].
  repeat constructor; vm_compute; reflexivity.
Qed.

(** The later run overwrites batch 2: post 33 stays in the checkpoint and
    is in no batch file any more. *)
Example ex_later_run_loses_33 :
  "33" ∈ file_ids ex_later_world /\
  "33" ∈ checkpoint_ids (world_of ex_later_run) /\
  "33" ∉ file_ids (world_of ex_later_run).
Proof.
  split; [|split].
  - vm_compute. reflexivity.
  - vm_compute. reflexivity.
  - vm_compute. discriminate.
Qed.

(** ** The further properties on the example runs *)

Lemma ex_run_some : ex_run = Ok (Some ex_run_locals) (world_of ex_run).
Proof. vm_compute. reflexivity. Qed.

Lemma ex_reset_run_ok :
  ex_reset_run = Ok (value_of ex_reset_run) (world_of ex_reset_run).
Proof. vm_compute. reflexivity. Qed.

Lemma ex_merged_written : ex_merged = merge_batches.Written ex_merged_doc.
Proof. vm_compute. reflexivity. Qed.

Lemma Qle_refl_0_4 : (0 <= 4 # 10)%Q.
Proof. unfold Qle. simpl. lia. Qed.

Lemma nothing_left_returns_early_witness :
  exists w1,
    main ex_clock ex_random ex_args (Some ex_posts) ex_later_world = Ok None w1 /\
    trace w1 = trace ex_later_world ++ reset_trace ex_args ex_later_world /\
    checkpoint_file w1 = checkpoint_file ex_later_world /\
    script w1 = script ex_later_world /\
    batch_files w1 = batch_files ex_later_world /\
    errors_log w1 = errors_log ex_later_world.
Proof.
  apply (proj1 (nothing_left_returns_early ex_clock ex_random ex_args ex_posts
                  ex_later_world)).
  vm_compute. reflexivity.
Defined.

Lemma zero_batch_size_raises_witness :
  exists w1,
    main ex_clock ex_random ex_zero_args (Some ex_posts) ex_world =
      Raised ZeroDivisionError w1 /\
    trace w1 = trace ex_world ++ reset_trace ex_zero_args ex_world /\
    checkpoint_file w1 = checkpoint_file ex_world /\
    script w1 = script ex_world /\ batch_files w1 = batch_files ex_world /\
    errors_log w1 = errors_log ex_world.
Proof.
  apply (zero_batch_size_raises ex_clock ex_random ex_zero_args ex_posts ex_world).
  - reflexivity.
  - vm_compute. discriminate.
Defined.

Lemma negative_batch_size_skips_witness :
  exists st w1,
    main ex_clock ex_random ex_negative_args (Some ex_posts) ex_world =
      Ok (Some st) w1 /\
    completed st = ∅ /\ errors_count st = 0 /\ total_comments st = 0 /\
    trace w1 = [] /\ checkpoint_file w1 = None /\
    script w1 = ex_script /\ batch_files w1 = ∅ /\ errors_log w1 = [].
Proof.
  apply (negative_batch_size_skips ex_clock ex_random ex_negative_args ex_posts
           ex_world).
  - reflexivity.
  - vm_compute. discriminate.
Defined.

Lemma batches_are_chunks_witness :
  exists chunks,
    saved_batches (trace (world_of ex_run)) = saved_batches (trace ex_world) ++ chunks /\
    map entry_post_id (concat chunks) = [11; 22; 33] /\
    len chunks = 2 /\
    (forall i c, chunks !! i = Some c ->
       0 < len c <= 2 /\ ((S i < length chunks)%nat -> len c = 2)).
Proof.
  apply (batches_are_chunks ex_clock ex_random ex_args ex_posts ex_world
           ex_run_locals (world_of ex_run)).
  - exact ex_run_some.
  - reflexivity.
Defined.

(** The fresh run saves a batch of two posts and a batch of one. *)
Example ex_run_batches :
  map (map entry_post_id) (saved_batches (trace (world_of ex_run))) =
  [[11; 22]; [33]].
Proof. vm_compute. reflexivity. Qed.

Lemma entries_mirror_input_witness :
  exists new,
    saved_entries (trace (world_of ex_run)) = saved_entries (trace ex_world) ++ new /\
    Forall2 (fun p e =>
               entry_post_id e = post_id p /\
               expected_comment_count e = comment_count p /\
               actual_comment_count e = len (comments e) /\
               (status e = "ok" \/ status e = "404_not_found" \/
                exists n, status e = "failed_page_" +:+ str n))
            ex_posts new.
Proof.
  apply (entries_mirror_input ex_clock ex_random ex_args ex_posts ex_world
           ex_run_locals (world_of ex_run)).
  - exact ex_run_some.
  - reflexivity.
Defined.

Lemma totals_add_up_witness :
  exists new c,
    saved_entries (trace (world_of ex_run)) = saved_entries (trace ex_world) ++ new /\
    total_comments ex_run_locals = 0 + len (flat_map comments new) /\
    comments_in new = len (flat_map comments new) /\
    checkpoint_file (world_of ex_run) = Some c /\
    total_comments_downloaded c = total_comments ex_run_locals.
Proof.
  apply (totals_add_up ex_clock ex_random ex_args ex_posts ex_world
           ex_run_locals (world_of ex_run)).
  - exact ex_run_some.
  - reflexivity.
Defined.

Lemma errors_match_log_witness :
  exists new lines,
    saved_entries (trace (world_of ex_run)) = saved_entries (trace ex_world) ++ new /\
    errors_log (world_of ex_run) = errors_log ex_world ++ lines /\
    errors_count ex_run_locals = len lines /\
    errors_count ex_run_locals = errors_in new /\
    Forall (fun e => is_error (status e) = true <->
                     exists n, status e = "failed_page_" +:+ str n) new.
Proof.
  apply (errors_match_log ex_clock ex_random ex_args ex_posts ex_world
           ex_run_locals (world_of ex_run)).
  exact ex_run_some.
Defined.

(** The fresh run fetched two records, and counted and logged one error:
    post 33. *)
Example ex_run_totals :
  total_comments ex_run_locals = 2 /\ errors_count ex_run_locals = 1 /\
  length (errors_log (world_of ex_run)) = 1%nat /\
  map status (saved_entries (trace (world_of ex_run))) =
    ["ok"; "404_not_found"; "failed_page_1"].
Proof. vm_compute. repeat split; reflexivity. Qed.

Lemma checkpoint_only_grows_witness :
  let r := main ex_clock ex_random ex_args (Some ex_posts) ex_cut_world in
  let done : gset string :=
    list_to_set (completed_post_ids (start_checkpoint ex_args ex_cut_world)) in
  exists fetched,
    fetched `prefix_of` remaining_posts done ex_posts /\
    checkpoint_ids (world_of r) =
      done ∪ list_to_set (map (fun p => str (post_id p)) fetched) /\
    (is_ok r -> fetched = remaining_posts done ex_posts) /\
    (reset ex_args = false -> checkpoint_ids ex_cut_world ⊆ checkpoint_ids (world_of r)).
Proof.
  apply (checkpoint_only_grows ex_clock ex_random ex_args ex_posts ex_cut_world).
  reflexivity.
Defined.

Lemma saved_posts_are_checkpointed_witness :
  batch_files ex_world !! "batch_00001.json" =
    Some [Entry 11 2 2 "ok" ["a1"; "a2"]; Entry 22 0 0 "404_not_found" []] \/
  forall e,
    e ∈ [Entry 11 2 2 "ok" ["a1"; "a2"]; Entry 22 0 0 "404_not_found" []] ->
    str (entry_post_id e) ∈ checkpoint_ids (world_of ex_run).
Proof.
  apply (saved_posts_are_checkpointed ex_clock ex_random ex_args ex_posts ex_world
           "batch_00001.json").
  vm_compute. reflexivity.
Defined.

Lemma crash_loses_at_most_a_batch_witness :
  (size (checkpoint_ids (world_of ex_cut_run) ∖ file_ids (world_of ex_cut_run))
     <= 2)%nat /\
  (is_ok ex_cut_run ->
   checkpoint_ids (world_of ex_cut_run) ⊆ file_ids (world_of ex_cut_run)).
Proof.
  apply (crash_loses_at_most_a_batch ex_clock ex_random ex_args ex_posts ex_cut_world).
  - intros id Hid. vm_compute in Hid. discriminate.
  - intros k _. apply lookup_empty.
Defined.

(** The run that is cut short leaves one post in the checkpoint and in no
    batch file. *)
Example ex_cut_run_loss :
  elements (checkpoint_ids (world_of ex_cut_run) ∖ file_ids (world_of ex_cut_run)) =
  ["11"].
Proof. vm_compute. reflexivity. Qed.

Lemma fetch_collects_all_pages_witness :
  exists w',
    download_comments_for_post ex_clock ex_random "11" (4 # 10) 2 10 ex_paged_world =
      Ok (["p1"; "p2"; "p3"] ++ ["p4"], "ok") w' /\
    script w' = [] /\ errors_log w' = errors_log ex_paged_world /\
    checkpoint_file w' = checkpoint_file ex_paged_world /\
    batch_files w' = batch_files ex_paged_world.
Proof.
  apply (fetch_collects_all_pages ex_clock ex_random "11" (4 # 10) 2 10 ex_rounds
           [RaiseTimeout] ex_last_page [] ex_paged_world).
  - reflexivity.
  - exact ex_random_range.
  - reflexivity.
  - repeat constructor; simpl; lia.
  - reflexivity.
  - simpl. lia.
  - reflexivity.
Defined.

(** The requests of that fetch: the first page twice, then each cursor. *)
Example ex_paged_requests :
  gets (trace (world_of (download_comments_for_post ex_clock ex_random "11"
                           (4 # 10) 2 10 ex_paged_world))) =
  [initial_url "11"; initial_url "11";
   "https://feedback.minecraft.net/next1";
   "https://feedback.minecraft.net/next2"; "https://feedback.minecraft.net/next2"].
Proof. vm_compute. reflexivity. Qed.

Lemma requests_bounded_per_page_witness :
  exists used,
    script ex_paged_world = used ++ script (world_of ex_paged_fetch) /\
    len used <= Z.max 0 2 * (pages_in used + 1).
Proof.
  apply (requests_bounded_per_page ex_clock ex_random "11" (4 # 10) 2 10
           ex_paged_world ["p1"; "p2"; "p3"; "p4"] "ok" (world_of ex_paged_fetch)).
  vm_compute. reflexivity.
Defined.

Lemma no_attempts_no_requests_witness :
  exists w',
    download_comments_for_post ex_clock ex_random "11" (4 # 10) 0 10 ex_world =
      Ok ([], "failed_page_1") w' /\
    script w' = script ex_world /\ gets (trace w') = gets (trace ex_world) /\
    errors_log w' =
      errors_log ex_world ++ [error_line (ex_clock (ticks ex_world)) "11" 0 1].
Proof.
  apply (no_attempts_no_requests ex_clock ex_random "11" (4 # 10) 0 10 ex_world).
  lia.
Defined.

Lemma other_failures_wait_base_witness :
  let w := World [RaiseOther; Http 404 None] 0 0 None None [] ∅ [] in
  let w1 := set_script [Http 404 None] (emit (EvGet "u") w) in
  attempt_loop ex_random 10 "u" [] [3] w = Ok Exhausted (emit (EvSleep 10) w1) /\
  trace (emit (EvSleep 10) w1) = [EvGet "u"; EvSleep 10] /\
  attempt_loop ex_random 10 "u" [] [3; 4] w =
    Ok Return404 (set_script [] (emit (EvGet "u") (emit (EvSleep 10) w1))).
Proof.
  intros w w1.
  destruct (other_failures_wait_base (os := ex_os) ex_random 10 3 "u" [] RaiseOther
              [Http 404 None] w ltac:(reflexivity) ltac:(reflexivity)
              ltac:(now right)) as [Hlast Hnext].
  split; [exact Hlast|]. split; [reflexivity|].
  rewrite Hnext. reflexivity.
Defined.

Lemma negative_backoff_is_fatal_witness :
  let w := World [RaiseTimeout; Http 404 None] 0 0 None None [] ∅ [] in
  (exists w',
     download_comments_for_post ex_clock ex_random "11" (4 # 10) 2 (-1) w =
       Raised ValueError w' /\
     script w' = [Http 404 None] /\
     gets (trace w') = gets (trace w) ++ [initial_url "11"] /\
     errors_log w' = errors_log w) /\
  (exists w',
     download_comments_for_post ex_clock ex_random "11" (4 # 10) 2 (-10000000000) w =
       Raised OverflowError w' /\
     script w' = [Http 404 None] /\
     gets (trace w') = gets (trace w) ++ [initial_url "11"] /\
     errors_log w' = errors_log w).
Proof.
  intros w. split.
  - apply (negative_backoff_is_fatal ex_clock ex_random "11" (4 # 10) 2 (-1)
             RaiseTimeout [Http 404 None] w).
    + reflexivity.
    + lia.
    + reflexivity.
    + now left.
  - apply (negative_backoff_is_fatal ex_clock ex_random "11" (4 # 10) 2
             (-10000000000) RaiseTimeout [Http 404 None] w).
    + reflexivity.
    + lia.
    + reflexivity.
    + now left.
Defined.

Lemma merge_reads_batches_in_name_order_witness :
  exists names,
    merge_batches.posts ex_merged_doc =
      flat_map (fun f => default [] (batch_files (world_of ex_run) !! f)) names /\
    (forall f, f ∈ names <->
       is_Some (batch_files (world_of ex_run) !! f) /\
       merge_batches.matches f = true) /\
    NoDup names /\
    (forall i j f g, names !! i = Some f -> names !! j = Some g -> (i < j)%nat ->
       String.ltb f g = true).
Proof.
  apply (merge_reads_batches_in_name_order (batch_files (world_of ex_run))
           ex_merged_doc).
  exact ex_merged_written.
Defined.

Lemma merge_totals_agree_witness :
  merge_batches.total_posts ex_merged_doc = len (merge_batches.posts ex_merged_doc) /\
  merge_batches.total_comments ex_merged_doc =
    comments_in (merge_batches.posts ex_merged_doc) /\
  (forall s, default 0 (merge_batches.status_summary ex_merged_doc !! s) =
             count_status s (merge_batches.posts ex_merged_doc)) /\
  (forall s, is_Some (merge_batches.status_summary ex_merged_doc !! s) <->
             0 < count_status s (merge_batches.posts ex_merged_doc)).
Proof.
  apply (merge_totals_agree (Some (batch_files (world_of ex_run))) ex_merged_doc).
  exact ex_merged_written.
Defined.

(** The document merged after the fresh run: three posts, two records, one
    post per status. *)
Example ex_merged_figures :
  merge_batches.total_posts ex_merged_doc = 3 /\
  merge_batches.total_comments ex_merged_doc = 2 /\
  map entry_post_id (merge_batches.posts ex_merged_doc) = [11; 22; 33] /\
  map (fun s => merge_batches.status_summary ex_merged_doc !! s)
      ["ok"; "404_not_found"; "failed_page_1"; "failed_page_2"] =
    [Some 1; Some 1; Some 1; None].
Proof. vm_compute. repeat split; reflexivity. Qed.

Lemma merge_after_fresh_run_witness :
  exists out,
    merge_batches.main (Some (batch_files (world_of ex_run))) =
      merge_batches.Written out /\
    saved_entries (trace (world_of ex_run)) =
      saved_entries (trace ex_world) ++ merge_batches.posts out /\
    map entry_post_id (merge_batches.posts out) = map post_id ex_posts /\
    merge_batches.total_posts out = len ex_posts /\
    total_comments ex_run_locals = 0 + merge_batches.total_comments out.
Proof.
  apply (merge_after_fresh_run ex_clock ex_random ex_args ex_posts ex_world
           ex_run_locals (world_of ex_run)).
  - exact ex_run_some.
  - reflexivity.
  - reflexivity.
  - vm_compute. discriminate.
Defined.

Lemma run_terminates_witness :
  exists r w',
    main ex_clock ex_random ex_args (Some ex_posts) ex_long_world = Ok r w' /\
    calls (trace w') = calls (trace ex_long_world) ++ ["11"; "22"; "33"] /\
    checkpoint_ids w' = ∅ ∪ list_to_set ["11"; "22"; "33"].
Proof.
  apply (run_terminates ex_clock ex_random ex_args ex_posts ex_long_world).
  - reflexivity.
  - reflexivity.
  - exact ex_random_range.
  - reflexivity.
  - simpl. lia.
Defined.

Lemma reset_restarts_from_scratch_witness :
  calls (trace (world_of ex_reset_run)) =
    calls (trace ex_reset_world) ++ ["11"; "22"; "33"] /\
  saved_files (trace (world_of ex_reset_run)) =
    saved_files (trace ex_reset_world) ++
    map (fun i => batch_file_name (1 + Z.of_nat i)) (seq 0 2) /\
  checkpoint_ids (world_of ex_reset_run) = list_to_set ["11"; "22"; "33"] /\
  (forall f, (forall i, (i < 2)%nat -> f <> batch_file_name (1 + Z.of_nat i)) ->
     batch_files (world_of ex_reset_run) !! f = batch_files ex_reset_world !! f).
Proof.
  apply (reset_restarts_from_scratch ex_clock ex_random ex_reset_args ex_posts
           ex_reset_world (value_of ex_reset_run) (world_of ex_reset_run)).
  - reflexivity.
  - exact ex_reset_run_ok.
  - reflexivity.
Defined.

Lemma pause_after_each_post_witness :
  exists tr d,
    trace (world_of ex_post_step) = tr ++ [EvSleep d] /\
    (4 # 10 <= d <= (4 # 10) + (2 # 10))%Q.
Proof.
  apply (pause_after_each_post ex_clock ex_random ex_args (PostInfo 11 2)
           ex_locals ex_world (result_or ex_locals ex_post_step)
           (world_of ex_post_step)).
  - vm_compute. reflexivity.
  - exact ex_random_range.
Defined.

Lemma pause_between_batches_witness :
  exists tr b,
    batch_files (world_of ex_batch_step) !! batch_file_name 1 = Some b /\
    batch_num (result_or ex_locals ex_batch_step) = 1 + 1 /\
    exists d,
      trace (world_of ex_batch_step) =
        tr ++ [EvSaveBatch (batch_file_name 1) b; EvSleep d] /\
      (5 <= d <= 5 + 2)%Q.
Proof.
  apply (pause_between_batches ex_clock ex_random ex_args ex_posts 0 ex_locals
           ex_world (result_or ex_locals ex_batch_step) (world_of ex_batch_step)).
  - vm_compute. reflexivity.
  - exact ex_random_range.
Defined.

Lemma rerun_after_completion_witness :
  (forall p, p ∈ ex_posts -> str (post_id p) ∈ checkpoint_ids (world_of ex_run)) /\
  main ex_clock ex_random ex_args (Some ex_posts) ex_later_world =
    Ok None ex_later_world.
Proof.
  apply (rerun_after_completion ex_clock ex_random ex_args ex_posts ex_world
           (value_of ex_run) (world_of ex_run) ex_later_world).
  - exact ex_run_ok.
  - reflexivity.
  - reflexivity.
  - vm_compute. reflexivity.
Defined.

End Witnesses.
